(** * Streamlit finance dashboards: risk metrics, correlation and ranking

    A shallow embedding of the numeric core of

      - [finance_analysis/_App.py]                       (module [App])
      - [finance_analysis/pages/1_Correlation_Analysis.py] (module [CorrelationAnalysis])
      - [finance_analysis/pages/2_Risk_Metrics.py]        (module [RiskMetrics])

    together with the parts of pandas, numpy and scipy these pages call
    (modules [Float], [Series], [Frame]).

    Numbers.  Python floats are binary64.  They are embedded as the
    type [float] below: a real number, one of the two infinities, or
    NaN.  Arithmetic on the finite part is exact (no rounding, no
    overflow) and zero is unsigned (a division of a nonzero number by
    zero gives the infinity of the sign of the numerator, as with
    [+0.0]).  Everything else follows IEEE 754 as numpy applies it:
    NaN is absorbing, [inf - inf], [0 * inf], [0 / 0] and
    [inf / inf] are NaN, NaN compares unequal to everything.

    Binary64 rounds, overflows and underflows.  Where a statement
    below bounds its input (prices within a factor of each other,
    cells of moderate size, columns that vary by a percent), the bound
    keeps binary64 away from overflow, underflow and cancellation;
    the idealised arithmetic does not need it.  Formulas are compared
    as floating-point expressions, operation by operation, and a
    tolerance of 1e-9 stands where binary64 may differ from the exact
    value in its last digits. *)

From Stdlib Require Import String Ascii Bool ZArith Reals Lra Lia Psatz.
From Stdlib Require Import List Permutation Sorted.
Import ListNotations.
Open Scope R_scope.

(* ================================================================= *)
(** ** Idealised binary64 arithmetic *)

Module Float.

Inductive float : Type :=
| Fin (r : R)
| PInf
| NInf
| NaN.

Definition is_nan (x : float) : bool :=
  match x with NaN => true | _ => false end.

(** [np.isfinite] *)
Definition is_finite (x : float) : bool :=
  match x with Fin _ => true | _ => false end.

Definition fopp (x : float) : float :=
  match x with
  | Fin r => Fin (- r)
  | PInf => NInf
  | NInf => PInf
  | NaN => NaN
  end.

Definition fadd (x y : float) : float :=
  match x, y with
  | NaN, _ | _, NaN => NaN
  | Fin a, Fin b => Fin (a + b)
  | PInf, NInf | NInf, PInf => NaN
  | PInf, _ | _, PInf => PInf
  | NInf, _ | _, NInf => NInf
  end.

Definition fsub (x y : float) : float := fadd x (fopp y).

(** The product of the finite number [r] with the infinity [i]. *)
Definition scale_inf (r : R) (i : float) : float :=
  if Req_dec_T r 0 then NaN
  else if Rlt_dec 0 r then i else fopp i.

Definition fmul (x y : float) : float :=
  match x, y with
  | NaN, _ | _, NaN => NaN
  | Fin a, Fin b => Fin (a * b)
  | Fin a, i => scale_inf a i
  | i, Fin b => scale_inf b i
  | PInf, PInf | NInf, NInf => PInf
  | PInf, NInf | NInf, PInf => NInf
  end.

Definition fdiv (x y : float) : float :=
  match x, y with
  | NaN, _ | _, NaN => NaN
  | Fin a, Fin b =>
      if Req_dec_T b 0 then
        if Req_dec_T a 0 then NaN
        else if Rlt_dec 0 a then PInf else NInf
      else Fin (a / b)
  | Fin _, _ => Fin 0
  | i, Fin b => if Rle_dec 0 b then i else fopp i
  | _, _ => NaN
  end.

(** [np.sqrt] *)
Definition fsqrt (x : float) : float :=
  match x with
  | Fin a => if Rlt_dec a 0 then NaN else Fin (sqrt a)
  | PInf => PInf
  | NInf | NaN => NaN
  end.

(** Python [==] on floats. *)
Definition feqb (x y : float) : bool :=
  match x, y with
  | Fin a, Fin b => if Req_dec_T a b then true else false
  | PInf, PInf | NInf, NInf => true
  | _, _ => false
  end.

(** Python [<] on floats. *)
Definition fltb (x y : float) : bool :=
  match x, y with
  | NaN, _ | _, NaN => false
  | Fin a, Fin b => if Rlt_dec a b then true else false
  | NInf, NInf | PInf, _ | _, NInf => false
  | NInf, _ | _, PInf => true
  end.

(** The larger (smaller) of two values, a NaN operand being skipped:
    the step of pandas' NaN-skipping [max] and [min]. *)
Definition nanmax (a b : float) : float :=
  if is_nan a then b
  else if is_nan b then a
  else if fltb a b then b else a.

Definition nanmin (a b : float) : float :=
  if is_nan a then b
  else if is_nan b then a
  else if fltb b a then b else a.

(** [x ** y] on floats ([np.float64.__pow__], C [pow]) for a finite
    exponent.  The pages only raise to [365 / days], which is finite;
    an infinite or NaN exponent is mapped to NaN. *)
Definition is_integer (y : R) : bool :=
  if Req_dec_T (frac_part y) 0 then true else false.

Definition is_odd_integer (y : R) : bool :=
  is_integer y && negb (is_integer (y / 2)).

Definition fpow (x y : float) : float :=
  match y with
  | Fin b =>
      if Req_dec_T b 0 then Fin 1
      else
        match x with
        | Fin a =>
            if Rlt_dec 0 a then Fin (Rpower a b)
            else if Req_dec_T a 0 then
              (if Rlt_dec 0 b then Fin 0 else PInf)
            else if is_integer b then
              (if is_odd_integer b then Fin (- Rpower (- a) b)
               else Fin (Rpower (- a) b))
            else NaN
        | PInf => if Rlt_dec 0 b then PInf else Fin 0
        | NInf =>
            if Rlt_dec 0 b
            then (if is_odd_integer b then NInf else PInf)
            else Fin 0
        | NaN => NaN
        end
  | _ => NaN
  end.

End Float.
Export Float.

Declare Scope float_scope.
Delimit Scope float_scope with fl.
Infix "+" := fadd : float_scope.
Infix "-" := fsub : float_scope.
Infix "*" := fmul : float_scope.
Infix "/" := fdiv : float_scope.

(* ================================================================= *)
(** ** pandas Series: the operations the pages use

    A Series of floats is the list of its values in index order; the
    index labels play no part in the single-asset metrics. *)

Module Series.

Definition Series := list float.

(** [Series.dropna()]: NaN is missing, the infinities are not. *)
Definition dropna (s : Series) : Series :=
  filter (fun x => negb (is_nan x)) s.

(** [Series.empty] *)
Definition empty (s : Series) : bool :=
  match s with [] => true | _ => false end.

(** [Series.pct_change()]: [s / s.shift(1) - 1]; the first entry has
    no predecessor and is NaN.  (No forward fill of missing values:
    the Risk Metrics page drops them before it calls the metrics.) *)
Fixpoint pct_change_from (prev : float) (s : Series) : Series :=
  match s with
  | [] => []
  | x :: t => (x / prev - Fin 1)%fl :: pct_change_from x t
  end.

Definition pct_change (s : Series) : Series := pct_change_from NaN s.

(** Number of values that are not NaN. *)
Definition count (s : Series) : nat := length (dropna s).

(** Sum with [skipna=True]: a NaN counts as 0. *)
Definition sum (s : Series) : float :=
  fold_right fadd (Fin 0) (dropna s).

(** [Series.mean()]: [nanops.nanmean]. *)
Definition mean (s : Series) : float :=
  match count s with
  | O => NaN
  | n => (sum s / Fin (INR n))%fl
  end.

(** [nanops.nanvar]: the squared deviations from the mean, summed and
    divided by [count - ddof]; NaN when [count <= ddof]. *)
Definition var (ddof : nat) (s : Series) : float :=
  let n := count s in
  if (n <=? ddof)%nat then NaN
  else
    let avg := (sum s / Fin (INR n))%fl in
    let sqr := map (fun x => ((avg - x) * (avg - x))%fl) (dropna s) in
    (fold_right fadd (Fin 0) sqr / Fin (INR (n - ddof)))%fl.

(** [Series.std(ddof=...)]; the pandas default is [ddof=1]. *)
Definition std (ddof : nat) (s : Series) : float := fsqrt (var ddof s).

(** [np.std(s)] on a Series: numpy hands the call to [s.std] with its
    own default [ddof=0]. *)
Definition np_std (s : Series) : float := std 0 s.

(** [Series.cumprod()]: a NaN entry stays NaN and is skipped by the
    running product. *)
Fixpoint cumprod_from (acc : float) (s : Series) : Series :=
  match s with
  | [] => []
  | x :: t =>
      if is_nan x then NaN :: cumprod_from acc t
      else let acc' := (acc * x)%fl in acc' :: cumprod_from acc' t
  end.

Definition cumprod (s : Series) : Series := cumprod_from (Fin 1) s.

(** [BaseWindow._prep_values]: the window functions ([expanding],
    [rolling]) see an infinity as a missing value. *)
Definition prep_values (s : Series) : Series :=
  map (fun x => if is_finite x then x else NaN) s.

(** [Series.expanding(min_periods=1).max()]: the running maximum of
    the values seen so far, NaN while there is none. *)
Fixpoint expanding_max_from (cur : float) (s : Series) : Series :=
  match s with
  | [] => []
  | x :: t => let cur' := nanmax cur x in cur' :: expanding_max_from cur' t
  end.

Definition expanding_max (s : Series) : Series :=
  expanding_max_from NaN (prep_values s).

(** [Series.min()] with [skipna=True]; NaN for no value. *)
Definition min (s : Series) : float := fold_left nanmin s NaN.

(** Elementwise arithmetic of two Series on the same index. *)
Fixpoint zip_with (f : float -> float -> float) (a b : Series) : Series :=
  match a, b with
  | x :: a', y :: b' => f x y :: zip_with f a' b'
  | _, _ => []
  end.

(** [s.iloc[0]] and [s.iloc[-1]]; [None] is Python's [IndexError]. *)
Definition iloc_first (s : Series) : option float := hd_error s.

Definition iloc_last (s : Series) : option float :=
  match s with [] => None | x :: t => Some (last t x) end.

End Series.

(** What a page script can end in: it runs to its end, it calls
    [st.stop()] after a message, or an exception escapes. *)
Inductive Outcome (A : Type) : Type :=
| Done (a : A)
| Stopped (message : string)
| Raised (exception : string).
Arguments Done {A} a.
Arguments Stopped {A} message.
Arguments Raised {A} exception.

(* ================================================================= *)
(** ** [_App.py]: the single-asset dashboard *)

Module App.
Import Series.

Definition calculate_max_drawdown (series : Series) : float :=
  let cumulative_returns :=
    cumprod (map (fadd (Fin 1)) (dropna (pct_change series))) in
  let peak := expanding_max cumulative_returns in
  let drawdown :=
    zip_with (fun c p => (c / p - Fin 1)%fl) cumulative_returns peak in
  (min drawdown * Fin 100)%fl.

(** Lines 98-100; [None] is the [IndexError] of [iloc] on no rows
    (the script stops before, on [data_df.empty]). *)
Definition total_return (close_prices : Series) : option float :=
  match iloc_first close_prices, iloc_last close_prices with
  | Some initial_price, Some final_price =>
      Some ((final_price / initial_price - Fin 1) * Fin 100)%fl
  | _, _ => None
  end.

(** Lines 104-105. *)
Definition annualized_volatility (close_prices : Series) : float :=
  let daily_change := dropna (pct_change close_prices) in
  (np_std daily_change * fsqrt (Fin 252) * Fin 100)%fl.

End App.

(* ================================================================= *)
(** ** [pages/2_Risk_Metrics.py] *)

Module RiskMetrics.
Import Series.

Definition calculate_max_drawdown (series : Series) : float :=
  let cumulative_returns :=
    cumprod (map (fadd (Fin 1)) (dropna (pct_change series))) in
  let peak := expanding_max cumulative_returns in
  let drawdown :=
    zip_with (fun c p => (c / p - Fin 1)%fl) cumulative_returns peak in
  (min drawdown * Fin 100)%fl.

(** The local [annualized_volatility] of [calculate_sharpe_ratio]. *)
Definition sharpe_annualized_volatility (series : Series) : float :=
  let daily_returns := dropna (pct_change series) in
  (std 1 daily_returns * fsqrt (Fin 252))%fl.

Definition calculate_sharpe_ratio
    (series : Series) (risk_free_rate : float) : float :=
  let daily_returns := dropna (pct_change series) in
  let annualized_return := (mean daily_returns * Fin 252)%fl in
  let annualized_volatility := sharpe_annualized_volatility series in
  if feqb annualized_volatility (Fin 0) then Fin 0
  else ((annualized_return - risk_free_rate) / annualized_volatility)%fl.

(** One dictionary appended to [results].  The three displayed cells
    are the values below formatted to two decimals; [Sharpe_Sort] is
    the number the table is sorted by. *)
Record Row : Type := mkRow {
  Asset : string;
  Sharpe_Ratio : float;
  Annualized_Return : float;
  Maximum_Drawdown : float;
  Sharpe_Sort : float
}.

(** Lines 121-125.  [start_date] and [end_date] are day numbers, so
    [(end_date - start_date).days] is their difference; [365 /
    days_diff] is Python's true division of two integers. *)
Definition days_elapsed (start_date end_date : Z) : Z :=
  let days_diff := (end_date - start_date)%Z in
  if (days_diff =? 0)%Z then 1%Z else days_diff.

Definition annualized_return
    (first_price last_price : float) (start_date end_date : Z) : float :=
  let total_return := ((last_price / first_price - Fin 1) * Fin 100)%fl in
  let days_diff := days_elapsed start_date end_date in
  ((fpow (Fin 1 + total_return / Fin 100)
         (Fin (365 / IZR days_diff)) - Fin 1) * Fin 100)%fl.

(** The body of the loop of lines 112-133 for one column; [None] is
    the [continue]. *)
Definition metrics_row (column : string) (values : Series)
    (risk_free_rate : float) (start_date end_date : Z) : option Row :=
  let asset_series := dropna values in
  match iloc_first asset_series, iloc_last asset_series with
  | Some first_price, Some last_price =>
      let sharpe := calculate_sharpe_ratio asset_series risk_free_rate in
      let mdd := calculate_max_drawdown asset_series in
      Some {| Asset := column;
              Sharpe_Ratio := sharpe;
              Annualized_Return :=
                annualized_return first_price last_price start_date end_date;
              Maximum_Drawdown := mdd;
              Sharpe_Sort := sharpe |}
  | _, _ => None
  end.

Fixpoint results (data_df : list (string * Series))
    (risk_free_rate : float) (start_date end_date : Z) : list Row :=
  match data_df with
  | [] => []
  | (column, values) :: rest =>
      match metrics_row column values risk_free_rate start_date end_date with
      | Some row => row :: results rest risk_free_rate start_date end_date
      | None => results rest risk_free_rate start_date end_date
      end
  end.

(** [np.argsort(kind='quicksort')] on an array without NaN.  Up to 16
    elements (the page has at most 7 assets) numpy's quicksort is its
    insertion sort: each element moves left past the elements it is
    strictly less than.  [insert_left] works on the sorted prefix in
    reverse (largest first). *)
Fixpoint insert_left {A : Type} (key : A -> float) (x : A)
    (rev_sorted : list A) : list A :=
  match rev_sorted with
  | [] => [x]
  | y :: t =>
      if fltb (key x) (key y) then y :: insert_left key x t
      else x :: y :: t
  end.

Definition argsort {A : Type} (key : A -> float) (l : list A) : list A :=
  rev (fold_left (fun rev_sorted x => insert_left key x rev_sorted) l []).

(** pandas' [nargsort] with [ascending=False] and
    [na_position='last']: the rows without NaN key are reversed,
    sorted ascending and reversed again; the NaN rows follow. *)
Definition nargsort_descending {A : Type} (key : A -> float)
    (l : list A) : list A :=
  let non_nans := filter (fun x => negb (is_nan (key x))) l in
  let nans := filter (fun x => is_nan (key x)) l in
  rev (argsort key (rev non_nans)) ++ nans.

(** Line 135.  A frame built from no dictionaries has no column
    [Sharpe_Sort] to sort by.  (Line 136 then drops that column; the
    rows and their order stay.) *)
Definition results_df (rows : list Row) : Outcome (list Row) :=
  match rows with
  | [] => Raised "KeyError: 'Sharpe_Sort'"
  | _ => Done (nargsort_descending Sharpe_Sort rows)
  end.

(** [DataFrame.empty] of the fetched frame: no column or no row. *)
Definition frame_empty (data_df : list (string * Series)) : bool :=
  match data_df with
  | [] => true
  | (_, values) :: _ => Series.empty values
  end.

(** The script from the asset selection to the table. *)
Definition page (selected_assets : list string)
    (data_df : list (string * Series))
    (risk_free_rate_input : R) (start_date end_date : Z)
    : Outcome (list Row) :=
  if (length selected_assets <? 1)%nat then
    Stopped "Please select at least one asset for comparison."
  else if frame_empty data_df then
    Stopped "Could not fetch data for the selected assets."
  else
    let risk_free_rate := (Fin risk_free_rate_input / Fin 100)%fl in
    results_df (results data_df risk_free_rate start_date end_date).

End RiskMetrics.

(* ================================================================= *)
(** ** pandas DataFrame, [DataFrame.corr] and [scipy.stats.spearmanr] *)

Module Frame.

(** A frame of floats: the column labels and the rows in index order,
    each row with its index label and one cell per column. *)
Record DataFrame (I : Type) : Type := mkDataFrame {
  columns : list string;
  rows : list (I * list float)
}.
Arguments mkDataFrame {I} columns rows.
Arguments columns {I} d.
Arguments rows {I} d.

(** [df.empty]: an axis of length 0. *)
Definition empty {I} (df : DataFrame I) : bool :=
  match columns df, rows df with
  | [], _ | _, [] => true
  | _, _ => false
  end.

Definition complete (cells : list float) : bool :=
  forallb (fun x => negb (is_nan x)) cells.

(** [df.dropna()]: the rows without a missing cell. *)
Definition dropna {I} (df : DataFrame I) : DataFrame I :=
  mkDataFrame (columns df) (filter (fun r => complete (snd r)) (rows df)).

(** The cell of column number [j] in a row. *)
Definition cell (j : nat) (cells : list float) : float := nth j cells NaN.

(** [pd.DataFrame(index=labels, columns=labels)]: every entry missing. *)
Definition all_nan (labels : list string) : DataFrame string :=
  mkDataFrame labels (map (fun l => (l, repeat NaN (length labels))) labels).

(** [pd.DataFrame(v, index=labels, columns=labels)] for a scalar [v]:
    the scalar fills the frame. *)
Definition of_scalar (v : float) (labels : list string) : DataFrame string :=
  mkDataFrame labels (map (fun l => (l, repeat v (length labels))) labels).

(** [pd.DataFrame(m, index=labels, columns=labels)] for a square array. *)
Definition of_matrix (m : list (list float)) (labels : list string)
    : DataFrame string :=
  mkDataFrame labels (combine labels m).

(** Entry [(i, j)] of a frame, by position. *)
Definition entry {I} (df : DataFrame I) (i j : nat) : float :=
  cell j (nth i (map snd (rows df)) []).

Definition Rsum (l : list R) : R := fold_right Rplus 0 l.

(** *** [DataFrame.corr(method='pearson')]

    pandas' [nancorr] with [min_periods=1].  For each pair of columns
    it uses the rows in which both cells are finite
    ([mask = np.isfinite(mat)]). *)
Definition both_finite (xi yi : nat) (cells : list float) : bool :=
  is_finite (cell xi cells) && is_finite (cell yi cells).

Definition pairwise_obs (xi yi : nat) (rs : list (list float))
    : list (R * R) :=
  flat_map (fun cells =>
              match cell xi cells, cell yi cells with
              | Fin vx, Fin vy => [(vx, vy)]
              | _, _ => []
              end) rs.

(** The coefficient of one pair from its observations: the means, then
    the sums of products of the deviations; undefined for no
    observation or a zero divisor. *)
Definition nancorr_pair (obs : list (R * R)) : float :=
  let nobs := length obs in
  if (nobs <? 1)%nat then NaN
  else
    let meanx := Rsum (map fst obs) / INR nobs in
    let meany := Rsum (map snd obs) / INR nobs in
    let sumx := Rsum (map (fun o => (fst o - meanx) * (snd o - meany)) obs) in
    let sumxx := Rsum (map (fun o => (fst o - meanx) * (fst o - meanx)) obs) in
    let sumyy := Rsum (map (fun o => (snd o - meany) * (snd o - meany)) obs) in
    let divisor := sqrt (sumxx * sumyy) in
    if Req_dec_T divisor 0 then NaN else Fin (sumx / divisor).

(** [nancorr] fills [result[xi, yi]] and [result[yi, xi]] with the one
    value computed for [yi <= xi]. *)
Definition nancorr_entry (rs : list (list float)) (i j : nat) : float :=
  nancorr_pair (pairwise_obs (Nat.max i j) (Nat.min i j) rs).

Definition corr_pearson {I} (df : DataFrame I) : DataFrame string :=
  let k := length (columns df) in
  let rs := map snd (rows df) in
  of_matrix
    (map (fun i => map (fun j => nancorr_entry rs i j) (seq 0 k)) (seq 0 k))
    (columns df).

(** *** [scipy.stats.spearmanr(a, axis=0)] *)

(** [scipy.stats.rankdata] (method ['average']): the mean of the
    positions a value and its ties take in the sorted column. *)
Definition rank_of (col : list float) (x : float) : R :=
  INR (length (filter (fun y => fltb y x) col))
  + (INR (length (filter (fun y => feqb y x) col)) + 1) / 2.

Definition rankdata (col : list float) : list R := map (rank_of col) col.

Definition centered (x : list R) : list R :=
  map (fun v => v - Rsum x / INR (length x)) x.

Fixpoint dot (a b : list R) : R :=
  match a, b with
  | x :: a', y :: b' => x * y + dot a' b'
  | _, _ => 0
  end.

(** [np.clip(c, -1, 1)] *)
Definition clip (x : float) : float :=
  if fltb x (Fin (-1)) then Fin (-1)
  else if fltb (Fin 1) x then Fin 1
  else x.

(** [np.corrcoef] of ranked columns of [n_obs >= 2] observations: the
    covariance [c] with [ddof=1], divided by the standard deviation of
    the row variable, then of the column variable, then clipped. *)
Definition cov_entry (n_obs : nat) (xi xj : list R) : float :=
  (Fin (dot (centered xi) (centered xj)) * (Fin 1 / Fin (INR n_obs - 1)))%fl.

Definition corrcoef_entry (n_obs : nat) (xi xj : list R) : float :=
  let stddev_i := fsqrt (cov_entry n_obs xi xi) in
  let stddev_j := fsqrt (cov_entry n_obs xj xj) in
  clip (cov_entry n_obs xi xj / stddev_i / stddev_j)%fl.

Definition corrcoef (n_obs : nat) (cols : list (list R)) : list (list float) :=
  map (fun xi => map (fun xj => corrcoef_entry n_obs xi xj) cols) cols.

(** The statistic [spearmanr] returns: the matrix [rs], or, "for
    backwards compatibility", the single number [rs[1, 0]] when there
    are two variables, or a single NaN. *)
Inductive Statistic : Type :=
| Scalar (rho : float)
| Matrix (rs : list (list float)).

Definition is_constant (col : list float) : bool :=
  match col with
  | [] => true
  | x :: _ => forallb (fun y => feqb x y) col
  end.

(** [a] is the array of the rows of a frame with [n_vars] columns and
    no NaN.  A single observation, or a constant first or second
    column, gives one NaN; [a[:, 1]] on a single column is an
    [IndexError]. *)
Definition spearmanr (n_vars : nat) (a : list (list float))
    : Outcome Statistic :=
  let n_obs := length a in
  let col j := map (cell j) a in
  if (n_obs <=? 1)%nat then Done (Scalar NaN)
  else if (n_vars <? 2)%nat then
    Raised "IndexError: index 1 is out of bounds for axis 1"
  else if is_constant (col 0%nat) || is_constant (col 1%nat) then
    Done (Scalar NaN)
  else
    let a_ranked := map (fun j => rankdata (col j)) (seq 0 n_vars) in
    let rs := corrcoef n_obs a_ranked in
    if (n_vars =? 2)%nat
    then Done (Scalar (cell 0 (nth 1 rs [])))
    else Done (Matrix rs).

End Frame.

(* ================================================================= *)
(** ** [pages/1_Correlation_Analysis.py] *)

Module CorrelationAnalysis.
Import Frame.

(** The two entries of the page's method select box. *)
Inductive Method : Type := pearson | spearman.

Definition calculate_correlation {I} (df : DataFrame I) (method : Method)
    : Outcome (DataFrame string) :=
  match method with
  | spearman =>
      let df_cleaned := dropna df in
      if empty df_cleaned then Done (all_nan (columns df))
      else
        match spearmanr (length (columns df_cleaned))
                        (map snd (rows df_cleaned)) with
        | Done (Scalar corr_matrix) =>
            Done (of_scalar corr_matrix (columns df_cleaned))
        | Done (Matrix corr_matrix) =>
            Done (of_matrix corr_matrix (columns df_cleaned))
        | Stopped m => Stopped m
        | Raised e => Raised e
        end
  | pearson => Done (corr_pearson df)
  end.

(** Lines 93-106: the guards of the script and the matrix it draws.
    [data_df] is what [get_multiple_adj_close_data] returned. *)
Definition page {I} (selected_assets : list string) (data_df : DataFrame I)
    (correlation_method : Method) : Outcome (DataFrame string) :=
  if (length selected_assets <? 2)%nat then
    Stopped "Please select at least two assets for correlation analysis."
  else if empty data_df || (length (columns data_df) <? 2)%nat then
    Stopped "Could not fetch sufficient data for the selected assets or period."
  else calculate_correlation data_df correlation_method.

End CorrelationAnalysis.

(* ================================================================= *)
(** ** The formulas of the specification, over the reals

    These follow the words of the specification, not the code; the
    theorems below compare the code with them. *)

Module Spec.

(** [return[i] = price[i]/price[i-1] - 1], one entry shorter than the
    price series. *)
Fixpoint returns_from (prev : R) (prices : list R) : list R :=
  match prices with
  | [] => []
  | p :: t => (p / prev - 1) :: returns_from p t
  end.

Definition returns (prices : list R) : list R :=
  match prices with
  | [] => []
  | p :: t => returns_from p t
  end.

Definition sum (l : list R) : R := fold_right Rplus 0 l.

Definition mean (l : list R) : R := sum l / INR (length l).

Definition sum_sq_dev (l : list R) : R :=
  sum (map (fun x => (mean l - x) * (mean l - x)) l).

(** Standard deviation with denominator [n - ddof]: the sample
    convention is [ddof = 1], the population convention [ddof = 0]. *)
Definition stddev (ddof : nat) (l : list R) : R :=
  sqrt (sum_sq_dev l / INR (length l - ddof)).

(** [(mean(returns)*periods_per_year - risk_free_rate_annual) /
    (stddev(returns)*sqrt(periods_per_year))] with 252 periods and the
    sample standard deviation. *)
Definition sharpe_ratio (rets : list R) (risk_free_rate_annual : R) : R :=
  (mean rets * 252 - risk_free_rate_annual) / (stddev 1 rets * sqrt 252).

(** [(last_price/first_price - 1) * 100] *)
Definition total_return (first_price last_price : R) : R :=
  (last_price / first_price - 1) * 100.

(** [((1 + total_return/100) ^ (365/days_elapsed) - 1) * 100] *)
Definition annualized_return (total_return : R) (days_elapsed : Z) : R :=
  (Rpower (1 + total_return / 100) (365 / IZR days_elapsed) - 1) * 100.

(** The same formulas in floating-point arithmetic, operation by
    operation as the specification writes them; [mean] and [stddev]
    are the library's mean and its sample standard deviation. *)
Fixpoint float_returns_from (prev : float) (prices : list float)
    : list float :=
  match prices with
  | [] => []
  | p :: t => (p / prev - Fin 1)%fl :: float_returns_from p t
  end.

Definition float_returns (prices : list float) : list float :=
  match prices with
  | [] => []
  | p :: t => float_returns_from p t
  end.

Definition float_sharpe_ratio (rets : list float)
    (risk_free_rate_annual : float) : float :=
  ((Series.mean rets * Fin 252 - risk_free_rate_annual)
   / (Series.std 1 rets * fsqrt (Fin 252)))%fl.

Definition float_total_return (first_price last_price : float) : float :=
  ((last_price / first_price - Fin 1) * Fin 100)%fl.

Definition float_annualized_return (total_return : float)
    (days_elapsed : Z) : float :=
  ((fpow (Fin 1 + total_return / Fin 100) (Fin (365 / IZR days_elapsed))
    - Fin 1) * Fin 100)%fl.

(** The drawdown series: [cumulative[i] = prod (1 + return[0..i])],
    [peak[i] = max (cumulative[0..i])],
    [drawdown[i] = cumulative[i]/peak[i] - 1]. *)
Fixpoint cumulative_from (acc : R) (rets : list R) : list R :=
  match rets with
  | [] => []
  | r :: t => acc * (1 + r) :: cumulative_from (acc * (1 + r)) t
  end.

Definition cumulative (rets : list R) : list R := cumulative_from 1 rets.

Fixpoint peak_from (m : R) (cs : list R) : list R :=
  match cs with
  | [] => []
  | c :: t => Rmax m c :: peak_from (Rmax m c) t
  end.

Definition peak (cs : list R) : list R :=
  match cs with
  | [] => []
  | c :: t => c :: peak_from c t
  end.

Fixpoint ratio_minus_one (cs ps : list R) : list R :=
  match cs, ps with
  | c :: cs', p :: ps' => (c / p - 1) :: ratio_minus_one cs' ps'
  | _, _ => []
  end.

Definition drawdown (rets : list R) : list R :=
  ratio_minus_one (cumulative rets) (peak (cumulative rets)).

(** The minimum of a list that is not empty. *)
Definition minimum (l : list R) : R :=
  match l with
  | [] => 0
  | x :: t => fold_left Rmin t x
  end.

(** The minimum of the drawdown series, as a percentage. *)
Definition max_drawdown (prices : list R) : R :=
  minimum (drawdown (returns prices)) * 100.

(** A price series that never declines. *)
Fixpoint non_decreasing_from (prev : R) (prices : list R) : Prop :=
  match prices with
  | [] => True
  | p :: t => prev <= p /\ non_decreasing_from p t
  end.

Definition non_decreasing (prices : list R) : Prop :=
  match prices with
  | [] => True
  | p :: t => non_decreasing_from p t
  end.

(** The correlation matrix of the specification: "square, symmetric,
    all values in [-1, 1]; indexed by asset name on both axes".  The
    diagonal is stated with the theorems. *)
Definition square_over (labels : list string)
    (m : Frame.DataFrame string) : Prop :=
  Frame.columns m = labels
  /\ map fst (Frame.rows m) = labels
  /\ Forall (fun r => length (snd r) = length labels) (Frame.rows m).

Definition symmetric (k : nat) (m : Frame.DataFrame string) : Prop :=
  forall i j, (i < k)%nat -> (j < k)%nat ->
              Frame.entry m i j = Frame.entry m j i.

(** Every entry is undefined or a number of [[-1, 1]]. *)
Definition within_unit_interval (k : nat) (m : Frame.DataFrame string)
    : Prop :=
  forall i j, (i < k)%nat -> (j < k)%nat ->
              Frame.entry m i j = NaN
              \/ exists r, Frame.entry m i j = Fin r /\ -1 <= r <= 1.

(** "Symmetric within 1e-9 tolerance": two entries that mirror each
    other are both undefined, or both numbers no further apart than
    the tolerance. *)
Definition tolerance : R := 1 / 1000000000.

Definition near (x y : R) : Prop := Rabs (x - y) <= tolerance.

Definition symmetric_within (k : nat) (m : Frame.DataFrame string) : Prop :=
  forall i j, (i < k)%nat -> (j < k)%nat ->
              (Frame.entry m i j = NaN /\ Frame.entry m j i = NaN)
              \/ exists a b, Frame.entry m i j = Fin a
                             /\ Frame.entry m j i = Fin b /\ near a b.

(** Every entry is undefined or within the tolerance of [[-1, 1]]. *)
Definition nearly_within_unit_interval (k : nat)
    (m : Frame.DataFrame string) : Prop :=
  forall i j, (i < k)%nat -> (j < k)%nat ->
              Frame.entry m i j = NaN
              \/ exists r, Frame.entry m i j = Fin r
                           /\ -1 - tolerance <= r <= 1 + tolerance.

(** Every entry is a number. *)
Definition defined (k : nat) (m : Frame.DataFrame string) : Prop :=
  forall i j, (i < k)%nat -> (j < k)%nat ->
              is_finite (Frame.entry m i j) = true.

End Spec.

(* ================================================================= *)
(** ** Sample inputs used in the examples below *)

Module Samples.
Import RiskMetrics.

Definition tesla_row : Row :=
  {| Asset := "Tesla (Stock)"; Sharpe_Ratio := Fin 0;
     Annualized_Return := Fin 0; Maximum_Drawdown := Fin 0;
     Sharpe_Sort := Fin 0 |}.

Definition nasdaq_row : Row :=
  {| Asset := "NASDAQ (Index)"; Sharpe_Ratio := Fin 0;
     Annualized_Return := Fin 0; Maximum_Drawdown := Fin 0;
     Sharpe_Sort := Fin 0 |}.

Definition gold_row : Row :=
  {| Asset := "Gold (Commodity)"; Sharpe_Ratio := Fin 1;
     Annualized_Return := Fin 10; Maximum_Drawdown := Fin (-5);
     Sharpe_Sort := Fin 1 |}.

End Samples.

Module SampleFrames.
Import Frame.



(** A constant asset next to a moving one. *)
Definition with_constant : DataFrame Z :=
  mkDataFrame ["A"; "B"]%string
    [ (1%Z, [Fin 5; Fin 1]);
      (2%Z, [Fin 5; Fin 2]);
      (3%Z, [Fin 5; Fin 3]) ].

(** Two assets that are not perfectly rank-correlated. *)
Definition two_assets : DataFrame Z :=
  mkDataFrame ["A"; "B"]%string
    [ (1%Z, [Fin 1; Fin 1]);
      (2%Z, [Fin 2; Fin 3]);
      (3%Z, [Fin 3; Fin 2]) ].

(** Three assets; only the third misses a day. *)
Definition gap_in_third : DataFrame Z :=
  mkDataFrame ["A"; "B"; "C"]%string
    [ (1%Z, [Fin 1; Fin 2; NaN]);
      (2%Z, [Fin 2; Fin 3; Fin 5]);
      (3%Z, [Fin 3; Fin 5; Fin 6]) ].


End SampleFrames.

(* ================================================================= *)
(** ** More of the pages: the moving average, the ticker table, the
    download helpers and the main dashboard *)

(** [Series.rolling(window).mean()] with the default
    [min_periods = window] (line 139 of [_App.py]). *)
Module Rolling.
Import Series.

(** The values of row [i]'s window: rows [max 0 (i + 1 - window)] to
    [i]. *)
Definition window_at (window i : nat) (values : Series) : Series :=
  let start := (i + 1 - window)%nat in
  firstn (i + 1 - start) (skipn start values).

(** [roll_mean]: the mean of the values of the window when at least
    [min_periods] of them are present, NaN otherwise. *)
Definition roll_mean_at (window : nat) (values : Series) (i : nat) : float :=
  let win := window_at window i values in
  let nobs := count win in
  if (window <=? nobs)%nat && (0 <? nobs)%nat
  then (sum win / Fin (INR nobs))%fl
  else NaN.

Definition rolling_mean (window : nat) (s : Series) : Series :=
  let values := prep_values s in
  map (roll_mean_at window values) (seq 0 (length s)).

End Rolling.

(** The [TICKERS] table and the two dictionaries the pages derive
    from it.  A Python [dict] of strings is the list of its items in
    insertion order, without repeated keys. *)
Module Tickers.

Definition Dict := list (string * string).

Definition dict_get (k : string) (d : Dict) : option string :=
  option_map snd (find (fun kv => String.eqb k (fst kv)) d).

(** [d[k] = v]: a present key keeps its place and takes the new
    value, a new key goes last. *)
Fixpoint dict_set (k v : string) (d : Dict) : Dict :=
  match d with
  | [] => [(k, v)]
  | (k', v') :: t =>
      if String.eqb k k' then (k, v) :: t else (k', v') :: dict_set k v t
  end.

Definition TICKERS : Dict :=
  [ ("S&P 500 (Index)", "^GSPC");
    ("NASDAQ (Index)", "^IXIC");
    ("Gold (Commodity)", "GC=F");
    ("Crude Oil (WTI)", "CL=F");
    ("Euro/USD (FX)", "EURUSD=X");
    ("Microsoft (Stock)", "MSFT");
    ("Tesla (Stock)", "TSLA") ]%string.

(** [{k: TICKERS[k] for k in selected_assets}]; a name that is not in
    the table is a [KeyError]. *)
Fixpoint filtered_tickers_from (acc : Dict) (selected_assets : list string)
    : Outcome Dict :=
  match selected_assets with
  | [] => Done acc
  | k :: rest =>
      match dict_get k TICKERS with
      | Some v => filtered_tickers_from (dict_set k v acc) rest
      | None => Raised "KeyError"
      end
  end.

Definition filtered_tickers (selected_assets : list string) : Outcome Dict :=
  filtered_tickers_from [] selected_assets.

(** [{v: k for k, v in tickers.items()}] *)
Definition name_map (tickers : Dict) : Dict :=
  fold_left (fun m kv => dict_set (snd kv) (fst kv) m) tickers [].

(** The new label [rename(columns=m)] gives a column: its entry in
    [m], or the label itself when it has none. *)
Definition rename (m : Dict) (label : string) : string :=
  match dict_get label m with
  | Some name => name
  | None => label
  end.

End Tickers.

(** [get_multiple_adj_close_data] of the two analysis pages and
    [get_historical_data] of the main page.  The call of
    [yf.download] is a parameter: what it returns for the symbols and
    the dates, or the exception it raises. *)
Module MarketData.
Import Tickers.

(** A frame as a list of labelled columns, as [RiskMetrics.page]
    takes it. *)
Definition Columns := list (string * Series.Series).

(** The frame of a download of several symbols: each column is
    labelled by a field ("Close", "Adj Close", ...) and a symbol. *)
Definition RawFrame := list ((string * string) * Series.Series).

Definition raw_empty (data : RawFrame) : bool :=
  match data with
  | [] => true
  | (_, values) :: _ => Series.empty values
  end.

(** ['Adj Close' in data.columns.get_level_values(0)] *)
Definition has_field (field : string) (data : RawFrame) : bool :=
  existsb (fun c => String.eqb field (fst (fst c))) data.

(** [data[field]]: the columns of the field, labelled by symbol. *)
Definition select_field (field : string) (data : RawFrame) : Columns :=
  map (fun c => (snd (fst c), snd c))
      (filter (fun c => String.eqb field (fst (fst c))) data).

Definition rename_columns (m : Dict) (data : Columns) : Columns :=
  map (fun c => (rename m (fst c), snd c)) data.

(** Every exception inside the [try], the [KeyError] of a frame
    without a "Close" field among them, ends in the empty frame. *)
Definition get_multiple_adj_close_data
    (yf_download : list string -> Z -> Z -> Outcome RawFrame)
    (tickers : Dict) (start_date end_date : Z) : Columns :=
  match yf_download (map snd tickers) start_date end_date with
  | Done data =>
      if raw_empty data then []
      else if has_field "Adj Close" data then
        rename_columns (name_map tickers) (select_field "Adj Close" data)
      else if has_field "Close" data then
        rename_columns (name_map tickers) (select_field "Close" data)
      else []
  | Stopped _ | Raised _ => []
  end.

Definition get_historical_data
    (yf_download : string -> Z -> Z -> Outcome Columns)
    (ticker : string) (start_date end_date : Z) : Columns :=
  match yf_download ticker start_date end_date with
  | Done data => data
  | Stopped _ | Raised _ => []
  end.

(** Lines 98-108 of [2_Risk_Metrics.py]: from the selection to the
    table, through the download. *)
Definition risk_metrics_page
    (yf_download : list string -> Z -> Z -> Outcome RawFrame)
    (selected_assets : list string) (risk_free_rate_input : R)
    (start_date end_date : Z) : Outcome (list RiskMetrics.Row) :=
  if (length selected_assets <? 1)%nat then
    Stopped "Please select at least one asset for comparison."
  else
    match filtered_tickers selected_assets with
    | Done tickers =>
        RiskMetrics.page selected_assets
          (get_multiple_adj_close_data yf_download tickers start_date end_date)
          risk_free_rate_input start_date end_date
    | Stopped m => Stopped m
    | Raised e => Raised e
    end.

End MarketData.

(** The script of [_App.py] from the date check to the chart. *)
Module Dashboard.
Import Series MarketData.

Definition has_column (label : string) (data_df : Columns) : bool :=
  existsb (fun c => String.eqb label (fst c)) data_df.

(** [data_df[label]]; [None] is the [KeyError]. *)
Definition column (label : string) (data_df : Columns) : option Series :=
  option_map snd (find (fun c => String.eqb label (fst c)) data_df).

(** The four metric cards and the moving-average line. *)
Record Metrics : Type := mkMetrics {
  total_return : float;
  annualized_volatility : float;
  max_dd : float;
  final_price : float;
  MA : Series
}.

Definition page (start_date end_date : Z) (data_df : Columns)
    (window_ma : nat) : Outcome Metrics :=
  if (end_date <=? start_date)%Z then
    Stopped "Start date must be before the end date."
  else if RiskMetrics.frame_empty data_df then
    Stopped "Could not fetch data for the selected asset in the specified range."
  else
    let price_column :=
      if has_column "Adj Close" data_df then "Adj Close"%string
      else "Close"%string in
    match column price_column data_df with
    | None => Raised "KeyError"
    | Some close_prices =>
        match App.total_return close_prices, iloc_last close_prices with
        | Some total_return, Some final_price =>
            let annualized_volatility :=
              App.annualized_volatility close_prices in
            let max_dd := App.calculate_max_drawdown close_prices in
            match column "Close" data_df, column "Open" data_df,
                  column "High" data_df, column "Low" data_df with
            | Some close, Some _, Some _, Some _ =>
                Done {| total_return := total_return;
                        annualized_volatility := annualized_volatility;
                        max_dd := max_dd;
                        final_price := final_price;
                        MA := Rolling.rolling_mean window_ma close |}
            | _, _, _, _ => Raised "KeyError"
            end
        | _, _ => Raised "IndexError"
        end
    end.

End Dashboard.

(** Words for the statements below. *)
Module Describe.

(** A column that keeps a value when its missing values are dropped. *)
Definition has_value (c : string * Series.Series) : bool :=
  negb (Series.empty (Series.dropna (snd c))).

(** A strictly increasing function of the reals. *)
Definition increasing (g : R -> R) : Prop := forall x y, x < y -> g x < g y.

(** Positive prices that stay within the factor [k] of each other:
    no quotient of two of them leaves [[1/k, k]]. *)
Definition within_factor (k : R) (prices : list R) : Prop :=
  exists lo, 0 < lo /\ Forall (fun p => lo <= p <= k * lo) prices.

(** A cell of moderate size: missing, infinite, or a number whose
    magnitude lies between [1e-50] and [1e50]. *)
Definition moderate (x : float) : Prop :=
  match x with
  | Fin r => 1 / 10 ^ 50 <= Rabs r <= 10 ^ 50
  | _ => True
  end.

(** A value of at most [bound] in magnitude, or no number. *)
Definition at_most (bound : R) (x : float) : Prop :=
  match x with
  | Fin r => Rabs r <= bound
  | _ => True
  end.

(** Frames of moderate cells, and frames without a missing or
    infinite cell. *)
Definition moderate_frame {I} (df : Frame.DataFrame I) : Prop :=
  Forall (fun r => Forall moderate (snd r)) (Frame.rows df).

Definition all_finite {I} (df : Frame.DataFrame I) : Prop :=
  Forall (fun r => length (snd r) = length (Frame.columns df)
                   /\ Forall (fun x => is_finite x = true) (snd r))
         (Frame.rows df).

(** Column [j] varies: two of its cells are different numbers, at
    least [gap] times the size of one of them apart. *)
Definition varies_by {I} (gap : R) (df : Frame.DataFrame I) (j : nat)
    : Prop :=
  exists r1 r2 x y,
    In r1 (Frame.rows df) /\ In r2 (Frame.rows df)
    /\ Frame.cell j (snd r1) = Fin x /\ Frame.cell j (snd r2) = Fin y
    /\ x <> y /\ gap * Rabs y <= Rabs (x - y).

(** Quotes as the pages meet them: at most 500 rows of numbers of
    moderate size, none missing, in which every column varies by at
    least one percent. *)
Definition ordinary_quotes {I} (df : Frame.DataFrame I) : Prop :=
  moderate_frame df /\ all_finite df
  /\ (length (Frame.rows df) <= 500)%nat
  /\ forall j, (j < length (Frame.columns df))%nat ->
                varies_by (1 / 100) df j.

End Describe.

(** Changes of the input used to state invariances: every cell of
    column [j] goes through the function [f j]; a missing or infinite
    cell stays as it is. *)
Module Transform.
Import Frame.

Definition lift (f : R -> R) (x : float) : float :=
  match x with
  | Fin r => Fin (f r)
  | other => other
  end.

Fixpoint map_row_from (f : nat -> R -> R) (j : nat) (cells : list float)
    : list float :=
  match cells with
  | [] => []
  | x :: t => lift (f j) x :: map_row_from f (S j) t
  end.

Definition map_columns {I} (f : nat -> R -> R) (df : DataFrame I)
    : DataFrame I :=
  mkDataFrame (columns df)
    (map (fun r => (fst r, map_row_from f 0 (snd r))) (rows df)).

End Transform.

(* ################################################################# *)
(** * Properties *)

(** Evaluation of the embedding on concrete finite inputs: unfold the
    code, then settle each comparison of two closed real numbers. *)
Ltac closed_real := first [ lra | field | (field_simplify; lra) | nra ].

Ltac absurd_real H :=
  exfalso; first [ lra | (apply H; closed_real) | (field_simplify in H; lra) ].

Ltac real_case :=
  match goal with
  | |- context [Req_dec_T ?a ?b] =>
      let H := fresh "H" in
      destruct (Req_dec_T a b) as [H|H]; [ try absurd_real H | try absurd_real H ]
  | |- context [Rlt_dec ?a ?b] =>
      let H := fresh "H" in
      destruct (Rlt_dec a b) as [H|H]; [ try absurd_real H | try absurd_real H ]
  | |- context [Rle_dec ?a ?b] =>
      let H := fresh "H" in
      destruct (Rle_dec a b) as [H|H]; [ try absurd_real H | try absurd_real H ]
  end.

Ltac fl_red :=
  cbv - [IZR Rdiv Rminus Rplus Rmult Ropp Rinv sqrt Rpower frac_part
         Req_dec_T Rlt_dec Rle_dec Rlt Rle Rgt Rge].

Ltac fl_eval := fl_red; repeat (real_case; fl_red).

(** ** Arithmetic on finite values *)

Section FiniteArithmetic.

Lemma fdiv_Fin (a b : R) : b <> 0 -> (Fin a / Fin b)%fl = Fin (a / b).
Proof.
  intros Hb. unfold fdiv. destruct (Req_dec_T b 0); [contradiction | reflexivity].
Qed.

Lemma fsqrt_Fin (a : R) : 0 <= a -> fsqrt (Fin a) = Fin (sqrt a).
Proof.
  intros Ha. unfold fsqrt. destruct (Rlt_dec a 0); [lra | reflexivity].
Qed.

Lemma feqb_Fin (a b : R) : feqb (Fin a) (Fin b) = true <-> a = b.
Proof.
  unfold feqb. destruct (Req_dec_T a b); split; intros; congruence.
Qed.

Lemma feqb_Fin_false (a b : R) : a <> b -> feqb (Fin a) (Fin b) = false.
Proof.
  intros H. unfold feqb. destruct (Req_dec_T a b); [contradiction | reflexivity].
Qed.

Lemma feqb_Fin_refl (a : R) : feqb (Fin a) (Fin a) = true.
Proof. apply feqb_Fin. reflexivity. Qed.

Lemma fltb_Fin (a b : R) : fltb (Fin a) (Fin b) = true <-> a < b.
Proof.
  unfold fltb. destruct (Rlt_dec a b); split; intros; try congruence; lra.
Qed.

Lemma fltb_Fin_false (a b : R) : b <= a -> fltb (Fin a) (Fin b) = false.
Proof.
  intros H. unfold fltb. destruct (Rlt_dec a b); [lra | reflexivity].
Qed.

Lemma Fin_inj (a b : R) : Fin a = Fin b -> a = b.
Proof. intros H. congruence. Qed.

Lemma INR_pos_of_S (n : nat) : INR (S n) <> 0.
Proof. apply not_0_INR. discriminate. Qed.

End FiniteArithmetic.

(** ** Series of finite values *)

Section FiniteSeries.
Import Series.

Lemma dropna_map_Fin (l : list R) : dropna (map Fin l) = map Fin l.
Proof.
  unfold dropna. induction l as [|x l IH]; simpl; [reflexivity | now rewrite IH].
Qed.

Lemma fold_fadd_map_Fin (l : list R) :
  fold_right fadd (Fin 0) (map Fin l) = Fin (Spec.sum l).
Proof.
  induction l as [|x l IH]; simpl; [reflexivity |].
  rewrite IH. reflexivity.
Qed.

Lemma sum_map_Fin (l : list R) : sum (map Fin l) = Fin (Spec.sum l).
Proof. unfold sum. rewrite dropna_map_Fin. apply fold_fadd_map_Fin. Qed.

Lemma count_map_Fin (l : list R) : count (map Fin l) = length l.
Proof. unfold count. rewrite dropna_map_Fin. apply length_map. Qed.

Lemma mean_map_Fin (l : list R) :
  l <> [] -> mean (map Fin l) = Fin (Spec.mean l).
Proof.
  intros Hl. unfold mean. rewrite count_map_Fin, sum_map_Fin.
  destruct l as [|x l]; [contradiction |].
  cbn [length]. rewrite fdiv_Fin by apply INR_pos_of_S. reflexivity.
Qed.

Lemma sum_sq_dev_nonneg (l : list R) : 0 <= Spec.sum_sq_dev l.
Proof.
  unfold Spec.sum_sq_dev. generalize (Spec.mean l). intros m.
  induction l as [|x l IH]; simpl; [lra |].
  pose proof (Rle_0_sqr (m - x)) as Hs. unfold Rsqr in Hs. lra.
Qed.

Lemma var_map_Fin (ddof : nat) (l : list R) :
  (ddof < length l)%nat ->
  var ddof (map Fin l)
  = Fin (Spec.sum_sq_dev l / INR (length l - ddof)).
Proof.
  intros Hlen. unfold var.
  rewrite count_map_Fin, sum_map_Fin, dropna_map_Fin.
  destruct (Nat.leb_spec (length l) ddof) as [H|_]; [lia |].
  assert (Hn : INR (length l) <> 0) by (apply not_0_INR; lia).
  rewrite fdiv_Fin by exact Hn.
  rewrite map_map.
  change (fun x : R => ((Fin (Spec.sum l / INR (length l)) - Fin x)
                        * (Fin (Spec.sum l / INR (length l)) - Fin x))%fl)
    with (fun x : R => Fin ((Spec.sum l / INR (length l) + - x)
                            * (Spec.sum l / INR (length l) + - x))).
  rewrite <- (map_map (fun x => (Spec.sum l / INR (length l) + - x)
                                * (Spec.sum l / INR (length l) + - x)) Fin).
  rewrite fold_fadd_map_Fin.
  rewrite fdiv_Fin by (apply not_0_INR; lia).
  reflexivity.
Qed.

Lemma std_map_Fin (ddof : nat) (l : list R) :
  (ddof < length l)%nat -> std ddof (map Fin l) = Fin (Spec.stddev ddof l).
Proof.
  intros Hlen. unfold std. rewrite var_map_Fin by exact Hlen.
  apply fsqrt_Fin.
  apply Rmult_le_pos; [apply sum_sq_dev_nonneg |].
  apply Rlt_le, Rinv_0_lt_compat, lt_0_INR. lia.
Qed.

Lemma std_short (ddof : nat) (s : Series) :
  (count s <= ddof)%nat -> std ddof s = NaN.
Proof.
  intros H. unfold std, var.
  destruct (Nat.leb_spec (count s) ddof); [reflexivity | lia].
Qed.

Lemma pct_change_from_Fin (prev : R) (prices : list R) :
  Forall (fun p => p <> 0) (prev :: prices) ->
  pct_change_from (Fin prev) (map Fin prices)
  = map Fin (Spec.returns_from prev prices).
Proof.
  revert prev. induction prices as [|p t IH]; intros prev H; [reflexivity |].
  inversion H as [|? ? Hprev Hrest]; subst.
  cbn [map pct_change_from Spec.returns_from].
  rewrite fdiv_Fin by exact Hprev.
  rewrite IH by exact Hrest. reflexivity.
Qed.

(** The daily returns both metrics start from. *)
Lemma daily_returns_Fin (prices : list R) :
  Forall (fun p => p <> 0) prices ->
  dropna (pct_change (map Fin prices)) = map Fin (Spec.returns prices).
Proof.
  intros H. destruct prices as [|p t]; [reflexivity |].
  unfold pct_change. cbn [map pct_change_from].
  rewrite pct_change_from_Fin by exact H.
  unfold dropna at 1. cbn [filter fdiv fsub fadd fopp is_nan negb].
  fold (dropna (map Fin (Spec.returns_from p t))).
  rewrite dropna_map_Fin. reflexivity.
Qed.

Lemma returns_from_length (prev : R) (prices : list R) :
  length (Spec.returns_from prev prices) = length prices.
Proof.
  revert prev. induction prices as [|p t IH]; intros prev; simpl; [reflexivity |].
  now rewrite IH.
Qed.

Lemma returns_length (prices : list R) :
  length (Spec.returns prices) = pred (length prices).
Proof. destruct prices; simpl; [reflexivity | apply returns_from_length]. Qed.

End FiniteSeries.

(** ** Sharpe ratio *)

Section Sharpe.
Import Series RiskMetrics.

Lemma sqrt_252_pos : 0 < sqrt 252.
Proof. apply sqrt_lt_R0. lra. Qed.

Lemma sharpe_volatility_Fin (prices : list R) :
  Forall (fun p => p <> 0) prices -> (3 <= length prices)%nat ->
  sharpe_annualized_volatility (map Fin prices)
  = Fin (Spec.stddev 1 (Spec.returns prices) * sqrt 252).
Proof.
  intros Hnz Hlen. unfold sharpe_annualized_volatility.
  rewrite daily_returns_Fin by exact Hnz.
  rewrite std_map_Fin by (rewrite returns_length; lia).
  rewrite fsqrt_Fin by lra. reflexivity.
Qed.

Lemma sum_zeros (l : list R) : Forall (fun x => x = 0) l -> Spec.sum l = 0.
Proof.
  induction 1 as [|x l Hx _ IH]; simpl; [reflexivity |]. rewrite Hx, IH. lra.
Qed.

Lemma stddev_zeros (ddof : nat) (l : list R) :
  Forall (fun x => x = 0) l -> Spec.stddev ddof l = 0.
Proof.
  intros H. unfold Spec.stddev.
  assert (Hs : Spec.sum_sq_dev l = 0).
  { unfold Spec.sum_sq_dev, Spec.mean. rewrite (sum_zeros l H).
    apply sum_zeros. apply Forall_forall. intros y Hy.
    apply in_map_iff in Hy. destruct Hy as [x [<- Hx]].
    rewrite Forall_forall in H. rewrite (H x Hx).
    unfold Rdiv. lra. }
  rewrite Hs. unfold Rdiv. rewrite Rmult_0_l. apply sqrt_0.
Qed.

Lemma returns_from_constant (c : R) (prices : list R) :
  c <> 0 -> Forall (fun p => p = c) prices ->
  Forall (fun x => x = 0) (Spec.returns_from c prices).
Proof.
  intros Hc H. induction H as [|p t Hp _ IH]; simpl; constructor.
  - subst p. field. exact Hc.
  - subst p. exact IH.
Qed.

Lemma sharpe_zero_volatility (prices : list R) (risk_free_rate : R) :
  Forall (fun p => p <> 0) prices -> (3 <= length prices)%nat ->
  Spec.stddev 1 (Spec.returns prices) * sqrt 252 = 0 ->
  calculate_sharpe_ratio (map Fin prices) (Fin risk_free_rate) = Fin 0.
Proof.
  intros Hnz Hlen H0. unfold calculate_sharpe_ratio.
  rewrite (sharpe_volatility_Fin prices Hnz Hlen), H0.
  rewrite feqb_Fin_refl. reflexivity.
Qed.

Lemma sharpe_nonzero_volatility (prices : list R) (risk_free_rate : R) :
  Forall (fun p => p <> 0) prices -> (3 <= length prices)%nat ->
  Spec.stddev 1 (Spec.returns prices) <> 0 ->
  calculate_sharpe_ratio (map Fin prices) (Fin risk_free_rate)
  = Fin (Spec.sharpe_ratio (Spec.returns prices) risk_free_rate).
Proof.
  intros Hnz Hlen Hsd.
  assert (Hv : Spec.stddev 1 (Spec.returns prices) * sqrt 252 <> 0).
  { pose proof sqrt_252_pos. nra. }
  unfold calculate_sharpe_ratio.
  rewrite (sharpe_volatility_Fin prices Hnz Hlen).
  rewrite feqb_Fin_false by exact Hv.
  rewrite daily_returns_Fin by exact Hnz.
  rewrite mean_map_Fin.
  - cbn [fmul fsub fadd fopp]. rewrite fdiv_Fin by exact Hv. reflexivity.
  - intros Hnil. apply (f_equal (@length R)) in Hnil.
    rewrite returns_length in Hnil. simpl in Hnil. lia.
Qed.

(** With fewer than three prices there are fewer than two returns, no
    sample standard deviation, and the ratio is NaN. *)
Lemma pct_change_from_length (prev : float) (s : Series) :
  length (pct_change_from prev s) = length s.
Proof.
  revert prev. induction s as [|x t IH]; intros prev; simpl; [reflexivity |].
  now rewrite IH.
Qed.

Lemma daily_returns_count (s : Series) :
  (count (dropna (pct_change s)) <= pred (length s))%nat.
Proof.
  unfold count. destruct s as [|x t]; [simpl; lia |].
  unfold pct_change. cbn [pct_change_from].
  assert (Hx : (x / NaN - Fin 1)%fl = NaN) by (destruct x; reflexivity).
  rewrite Hx. unfold dropna at 2. cbn [filter is_nan negb].
  fold (dropna (pct_change_from x t)).
  assert (Hidem : forall l, dropna (dropna l) = dropna l).
  { intros l. unfold dropna. induction l as [|y l IH]; [reflexivity |].
    cbn [filter]. destruct (negb (is_nan y)) eqn:E; cbn [filter];
      [rewrite E, IH; reflexivity | exact IH]. }
  rewrite Hidem. unfold dropna.
  pose proof (filter_length_le (fun x => negb (is_nan x)) (pct_change_from x t)) as Hle.
  rewrite pct_change_from_length in Hle. simpl. exact Hle.
Qed.

Lemma sharpe_short_series (s : Series) (risk_free_rate : float) :
  (length s <= 2)%nat -> calculate_sharpe_ratio s risk_free_rate = NaN.
Proof.
  intros Hlen. unfold calculate_sharpe_ratio, sharpe_annualized_volatility.
  rewrite std_short by (pose proof (daily_returns_count s); lia).
  cbn [fmul feqb].
  destruct (mean (dropna (pct_change s)) * Fin 252 - risk_free_rate)%fl;
    reflexivity.
Qed.

(** The return series of the specification, in floating point, is the
    series the code takes the mean and the deviation of. *)
Lemma float_returns_from_Fin (prev : R) (prices : list R) :
  prev <> 0 -> Forall (fun p => p <> 0) prices ->
  Spec.float_returns_from (Fin prev) (map Fin prices)
  = map Fin (Spec.returns_from prev prices).
Proof.
  intros Hprev H. revert prev Hprev.
  induction H as [|p t Hp _ IH]; intros prev Hprev; [reflexivity |].
  cbn [map Spec.float_returns_from Spec.returns_from].
  rewrite fdiv_Fin by exact Hprev. rewrite (IH p Hp). reflexivity.
Qed.

Lemma float_returns_Fin (prices : list R) :
  Forall (fun p => p <> 0) prices ->
  Spec.float_returns (map Fin prices) = map Fin (Spec.returns prices).
Proof.
  intros H. destruct H as [|p t Hp Ht]; [reflexivity |].
  cbn [map Spec.float_returns Spec.returns].
  apply float_returns_from_Fin; assumption.
Qed.

Lemma daily_returns_float (prices : list R) :
  Forall (fun p => p <> 0) prices ->
  dropna (pct_change (map Fin prices)) = Spec.float_returns (map Fin prices).
Proof.
  intros H. rewrite daily_returns_Fin, float_returns_Fin by exact H.
  reflexivity.
Qed.

Lemma feqb_zero_false (x : float) : x <> Fin 0 -> feqb x (Fin 0) = false.
Proof.
  intros H. destruct x as [r | | |]; try reflexivity.
  apply feqb_Fin_false. intros ->. apply H. reflexivity.
Qed.

Lemma sharpe_volatility_short (s : Series) :
  (length s <= 2)%nat -> sharpe_annualized_volatility s = NaN.
Proof.
  intros Hlen. unfold sharpe_annualized_volatility.
  rewrite std_short by (pose proof (daily_returns_count s); lia).
  reflexivity.
Qed.

(** C1 (as amended).  Floating point throughout.  For a series of
    nonzero prices the returns are [price[i]/price[i-1] - 1] and the
    volatility the guard tests is [std(returns) * sqrt(252)] with the
    sample standard deviation.  When it does not compare equal to 0
    the result is
    [(mean(returns)*252 - risk_free_rate) / (std(returns)*sqrt(252))];
    when it does the result is [0.0].  A constant series of at least
    three prices has volatility 0; a series of at most two prices has
    volatility NaN, not 0, and its result is NaN. *)
Theorem sharpe_ratio_formula (prices : list R) (risk_free_rate : float) :
  Forall (fun p => p <> 0) prices ->
  let series := map Fin prices in
  let rets := Spec.float_returns series in
  let volatility := (std 1 rets * fsqrt (Fin 252))%fl in
  (volatility <> Fin 0 ->
   calculate_sharpe_ratio series risk_free_rate
   = Spec.float_sharpe_ratio rets risk_free_rate)
  /\ (volatility = Fin 0 ->
      calculate_sharpe_ratio series risk_free_rate = Fin 0)
  /\ ((3 <= length prices)%nat ->
      (forall p, In p prices -> p = hd 0 prices) ->
      volatility = Fin 0)
  /\ ((length prices <= 2)%nat ->
      volatility = NaN
      /\ calculate_sharpe_ratio series risk_free_rate = NaN).
Proof.
  intros Hnz series rets volatility.
  assert (Hrets : dropna (pct_change series) = rets)
    by (apply daily_returns_float; exact Hnz).
  assert (Hvol : sharpe_annualized_volatility series = volatility)
    by (unfold sharpe_annualized_volatility; rewrite Hrets; reflexivity).
  split; [| split; [| split]].
  - intros Hv. unfold calculate_sharpe_ratio. rewrite Hvol, Hrets.
    rewrite feqb_zero_false by exact Hv. reflexivity.
  - intros Hv. unfold calculate_sharpe_ratio. rewrite Hvol, Hv.
    rewrite feqb_Fin_refl. reflexivity.
  - intros Hlen Hconst. rewrite <- Hvol. unfold series.
    rewrite (sharpe_volatility_Fin prices Hnz Hlen). f_equal.
    destruct prices as [|c t]; [simpl in Hlen; lia |].
    cbn [Spec.returns].
    rewrite stddev_zeros; [lra |].
    apply returns_from_constant.
    + inversion Hnz; assumption.
    + apply Forall_forall. intros p Hp. apply (Hconst p). right. exact Hp.
  - intros Hlen.
    assert (Hs : (length series <= 2)%nat)
      by (unfold series; rewrite length_map; exact Hlen).
    split.
    + rewrite <- Hvol. apply sharpe_volatility_short. exact Hs.
    + apply sharpe_short_series. exact Hs.
Qed.

Lemma sharpe_ratio_formula_witness :
  calculate_sharpe_ratio (map Fin [100; 100; 100]) (Fin (4 / 100)) = Fin 0.
Proof.
  assert (Hnz : Forall (fun p => p <> 0) [100; 100; 100])
    by (repeat constructor; lra).
  destruct (sharpe_ratio_formula [100; 100; 100] (Fin (4 / 100)) Hnz)
    as [_ [Hzero [Hconst _]]].
  apply Hzero. apply Hconst.
  - simpl. lia.
  - intros p [H | [H | [H | []]]]; simpl; lra.
Defined.

(** C1 as stated fails: a single-point series, and a constant series
    of two points, have no sample standard deviation (NaN, not 0), the
    test [annualized_volatility == 0] is false and the result is NaN. *)
Lemma sharpe_ratio_short_series_nan :
  calculate_sharpe_ratio [Fin 100] (Fin (4 / 100)) = NaN
  /\ calculate_sharpe_ratio [Fin 100; Fin 100] (Fin (4 / 100)) = NaN
  /\ calculate_sharpe_ratio [Fin 100] (Fin (4 / 100)) <> Fin 0
  /\ sharpe_annualized_volatility [Fin 100] <> Fin 0.
Proof.
  assert (H1 : calculate_sharpe_ratio [Fin 100] (Fin (4 / 100)) = NaN)
    by reflexivity.
  assert (H2 : calculate_sharpe_ratio [Fin 100; Fin 100] (Fin (4 / 100)) = NaN)
    by (fl_eval; reflexivity).
  repeat split; try assumption.
  - rewrite H1. discriminate.
  - assert (H3 : sharpe_annualized_volatility [Fin 100] = NaN) by reflexivity.
    rewrite H3. discriminate.
Qed.

End Sharpe.

(** ** The two annualized volatilities *)

Section Volatility.
Import Series.

Lemma app_volatility_Fin (prices : list R) :
  Forall (fun p => p <> 0) prices -> (2 <= length prices)%nat ->
  App.annualized_volatility (map Fin prices)
  = Fin (Spec.stddev 0 (Spec.returns prices) * sqrt 252 * 100).
Proof.
  intros Hnz Hlen. unfold App.annualized_volatility, np_std.
  rewrite daily_returns_Fin by exact Hnz.
  rewrite std_map_Fin by (rewrite returns_length; lia).
  rewrite fsqrt_Fin by lra. reflexivity.
Qed.

(** With at least two returns that are not all equal, the population
    standard deviation is strictly below the sample one. *)
Lemma population_below_sample (l : list R) :
  (2 <= length l)%nat -> Spec.sum_sq_dev l <> 0 ->
  Spec.stddev 0 l < Spec.stddev 1 l.
Proof.
  intros Hlen Hss. unfold Spec.stddev.
  pose proof (sum_sq_dev_nonneg l) as Hnn.
  assert (Hpos : 0 < Spec.sum_sq_dev l) by lra.
  rewrite Nat.sub_0_r.
  assert (Hn1 : 0 < INR (length l - 1)) by (apply lt_0_INR; lia).
  assert (Hn : INR (length l) = INR (length l - 1) + 1).
  { rewrite <- S_INR. f_equal. lia. }
  apply sqrt_lt_1_alt. split.
  - apply Rmult_le_pos; [lra |].
    apply Rlt_le, Rinv_0_lt_compat. lra.
  - unfold Rdiv. apply Rmult_lt_compat_l; [exact Hpos |].
    apply Rinv_lt_contravar; [nra | lra].
Qed.

(** On every series of at least three nonzero prices whose returns are
    not all equal, the main page reports less than a hundred times
    the volatility that [calculate_sharpe_ratio] divides by. *)
Lemma volatility_conventions_differ_always (prices : list R) :
  Forall (fun p => p <> 0) prices -> (3 <= length prices)%nat ->
  Spec.sum_sq_dev (Spec.returns prices) <> 0 ->
  exists app risk : R,
    App.annualized_volatility (map Fin prices) = Fin app
    /\ RiskMetrics.sharpe_annualized_volatility (map Fin prices) = Fin risk
    /\ app < risk * 100.
Proof.
  intros Hnz Hlen Hss.
  exists (Spec.stddev 0 (Spec.returns prices) * sqrt 252 * 100),
         (Spec.stddev 1 (Spec.returns prices) * sqrt 252).
  split; [apply app_volatility_Fin; [exact Hnz | lia] |].
  split; [apply sharpe_volatility_Fin; assumption |].
  assert (H := population_below_sample (Spec.returns prices)).
  rewrite returns_length in H.
  specialize (H ltac:(lia) Hss).
  pose proof sqrt_252_pos. nra.
Qed.

(** C3, at prices [100, 200, 100] (returns [1, -1/2]): the main page
    takes the population standard deviation [3/4], the Sharpe ratio
    the sample one [sqrt (9/8)], and the two volatilities differ. *)
Theorem volatility_conventions_differ :
  let prices := map Fin [100; 200; 100] in
  App.annualized_volatility prices = Fin (3 / 4 * sqrt 252 * 100)
  /\ RiskMetrics.sharpe_annualized_volatility prices
     = Fin (sqrt (9 / 8) * sqrt 252)
  /\ App.annualized_volatility prices
     <> (RiskMetrics.sharpe_annualized_volatility prices * Fin 100)%fl.
Proof.
  assert (Hnz : Forall (fun p => p <> 0) [100; 200; 100])
    by (repeat constructor; lra).
  assert (Hss : Spec.sum_sq_dev (Spec.returns [100; 200; 100]) = 9 / 8).
  { unfold Spec.sum_sq_dev, Spec.mean. cbn. field. }
  assert (Hpop : Spec.stddev 0 (Spec.returns [100; 200; 100]) = 3 / 4).
  { unfold Spec.stddev. rewrite Hss. cbn.
    replace (9 / 8 / (1 + 1)) with (3 / 4 * (3 / 4)) by field.
    apply sqrt_square. lra. }
  assert (Hsam : Spec.stddev 1 (Spec.returns [100; 200; 100]) = sqrt (9 / 8)).
  { unfold Spec.stddev. rewrite Hss. cbn. f_equal. field. }
  cbv zeta.
  rewrite app_volatility_Fin by (try exact Hnz; simpl; lia).
  rewrite sharpe_volatility_Fin by (try exact Hnz; simpl; lia).
  rewrite Hpop, Hsam.
  repeat split.
  cbn [fmul]. intros Heq. injection Heq as Heq.
  pose proof sqrt_252_pos as H252.
  assert (H34 : sqrt (9 / 8) = 3 / 4) by nra.
  assert (Hsq : sqrt (9 / 8) * sqrt (9 / 8) = 9 / 8)
    by (apply sqrt_sqrt; lra).
  rewrite H34 in Hsq. lra.
Qed.

End Volatility.

(** ** Maximum drawdown *)

Section Drawdown.
Import Series.

Lemma cumprod_from_Fin (acc : R) (xs : list R) :
  cumprod_from (Fin acc) (map (fadd (Fin 1)) (map Fin xs))
  = map Fin (Spec.cumulative_from acc xs).
Proof.
  revert acc. induction xs as [|x t IH]; intros acc; [reflexivity |].
  cbn [map cumprod_from fadd is_nan fmul Spec.cumulative_from].
  rewrite IH. reflexivity.
Qed.

Lemma nanmax_Fin (m c : R) : nanmax (Fin m) (Fin c) = Fin (Rmax m c).
Proof.
  unfold nanmax, Rmax. cbn [is_nan]. unfold fltb.
  destruct (Rlt_dec m c), (Rle_dec m c); try reflexivity; try lra.
  f_equal. lra.
Qed.

Lemma nanmin_Fin (a b : R) : nanmin (Fin a) (Fin b) = Fin (Rmin a b).
Proof.
  unfold nanmin, Rmin. cbn [is_nan]. unfold fltb.
  destruct (Rlt_dec b a), (Rle_dec a b); try reflexivity; lra.
Qed.

Lemma expanding_max_from_Fin (m : R) (cs : list R) :
  expanding_max_from (Fin m) (map Fin cs) = map Fin (Spec.peak_from m cs).
Proof.
  revert m. induction cs as [|c t IH]; intros m; [reflexivity |].
  cbn [map expanding_max_from Spec.peak_from].
  rewrite nanmax_Fin, IH. reflexivity.
Qed.

Lemma prep_values_Fin (l : list R) : prep_values (map Fin l) = map Fin l.
Proof.
  unfold prep_values. rewrite map_map. reflexivity.
Qed.

Lemma expanding_max_Fin (cs : list R) :
  expanding_max (map Fin cs) = map Fin (Spec.peak cs).
Proof.
  unfold expanding_max. rewrite prep_values_Fin.
  destruct cs as [|c t]; [reflexivity |].
  cbn [map expanding_max_from nanmax is_nan Spec.peak].
  rewrite expanding_max_from_Fin. reflexivity.
Qed.

Lemma zip_with_ratio_Fin (cs ps : list R) :
  Forall (fun p => p <> 0) ps ->
  zip_with (fun c p => (c / p - Fin 1)%fl) (map Fin cs) (map Fin ps)
  = map Fin (Spec.ratio_minus_one cs ps).
Proof.
  intros H. revert cs. induction H as [|p ps Hp _ IH]; intros cs.
  - destruct cs; reflexivity.
  - destruct cs as [|c cs]; [reflexivity |].
    cbn [map zip_with Spec.ratio_minus_one].
    rewrite fdiv_Fin by exact Hp. rewrite IH. reflexivity.
Qed.

Lemma fold_nanmin_Fin (x : R) (l : list R) :
  fold_left nanmin (map Fin l) (Fin x) = Fin (fold_left Rmin l x).
Proof.
  revert x. induction l as [|y t IH]; intros x; [reflexivity |].
  cbn [map fold_left]. rewrite nanmin_Fin. apply IH.
Qed.

Lemma min_Fin (l : list R) :
  l <> [] -> min (map Fin l) = Fin (Spec.minimum l).
Proof.
  destruct l as [|x t]; [congruence | intros _].
  unfold min. cbn [map fold_left nanmin is_nan Spec.minimum].
  apply fold_nanmin_Fin.
Qed.

(** Cumulative returns of positive prices are positive, and so are
    their running peaks. *)
Lemma cumulative_from_pos (acc prev : R) (prices : list R) :
  0 < acc -> Forall (fun p => 0 < p) (prev :: prices) ->
  Forall (fun c => 0 < c)
         (Spec.cumulative_from acc (Spec.returns_from prev prices)).
Proof.
  revert acc prev. induction prices as [|p t IH]; intros acc prev Hacc H.
  - constructor.
  - inversion H as [|? ? Hprev Hrest]; subst.
    inversion Hrest as [|? ? Hp _]; subst.
    cbn [Spec.returns_from Spec.cumulative_from].
    assert (Hc : 0 < acc * (1 + (p / prev - 1))).
    { replace (1 + (p / prev - 1)) with (p / prev) by ring.
      apply Rmult_lt_0_compat; [exact Hacc |].
      apply Rdiv_lt_0_compat; assumption. }
    constructor; [exact Hc |]. apply IH; assumption.
Qed.

Lemma peak_from_bounds (m : R) (cs : list R) :
  0 < m ->
  Forall (fun p => 0 < p) (Spec.peak_from m cs)
  /\ Forall (fun d => d <= 0) (Spec.ratio_minus_one cs (Spec.peak_from m cs)).
Proof.
  revert m. induction cs as [|c t IH]; intros m Hm.
  - split; constructor.
  - cbn [Spec.peak_from Spec.ratio_minus_one].
    assert (Hmax : 0 < Rmax m c) by (pose proof (Rmax_l m c); lra).
    destruct (IH (Rmax m c) Hmax) as [H1 H2].
    split; constructor; try assumption.
    pose proof (Rmax_r m c) as Hr.
    assert (c / Rmax m c <= 1).
    { apply (Rmult_le_reg_r (Rmax m c)); [exact Hmax |].
      unfold Rdiv. rewrite Rmult_assoc, Rinv_l by lra. lra. }
    lra.
Qed.

Lemma peak_bounds (cs : list R) :
  Forall (fun c => 0 < c) cs ->
  Forall (fun p => 0 < p) (Spec.peak cs)
  /\ Forall (fun d => d <= 0) (Spec.ratio_minus_one cs (Spec.peak cs)).
Proof.
  intros H. destruct cs as [|c t]; [split; constructor |].
  inversion H as [|? ? Hc _]; subst.
  cbn [Spec.peak Spec.ratio_minus_one].
  destruct (peak_from_bounds c t Hc) as [H1 H2].
  split; constructor; try assumption.
  unfold Rdiv. rewrite Rinv_r by lra. lra.
Qed.

Lemma ratio_minus_one_length (cs ps : list R) :
  length ps = length cs -> length (Spec.ratio_minus_one cs ps) = length cs.
Proof.
  revert ps. induction cs as [|c t IH]; intros [|p ps] H; simpl in *;
    try reflexivity; try discriminate.
  f_equal. apply IH. lia.
Qed.

Lemma peak_from_length (m : R) (cs : list R) :
  length (Spec.peak_from m cs) = length cs.
Proof.
  revert m. induction cs as [|c t IH]; intros m; simpl; [reflexivity |].
  now rewrite IH.
Qed.

Lemma peak_length (cs : list R) : length (Spec.peak cs) = length cs.
Proof. destruct cs; simpl; [reflexivity | now rewrite peak_from_length]. Qed.

Lemma cumulative_from_length (acc : R) (rets : list R) :
  length (Spec.cumulative_from acc rets) = length rets.
Proof.
  revert acc. induction rets as [|r t IH]; intros acc; simpl; [reflexivity |].
  now rewrite IH.
Qed.

(** On positive prices the code computes the minimum of the drawdown
    series of the specification, times 100. *)
Lemma max_drawdown_Fin (prices : list R) :
  Forall (fun p => 0 < p) prices -> (2 <= length prices)%nat ->
  RiskMetrics.calculate_max_drawdown (map Fin prices)
  = Fin (Spec.max_drawdown prices).
Proof.
  intros Hpos Hlen. unfold RiskMetrics.calculate_max_drawdown.
  assert (Hnz : Forall (fun p => p <> 0) prices).
  { eapply Forall_impl; [| exact Hpos]. intros p Hp. simpl in Hp. lra. }
  rewrite daily_returns_Fin by exact Hnz.
  unfold cumprod. rewrite cumprod_from_Fin.
  fold (Spec.cumulative (Spec.returns prices)).
  rewrite expanding_max_Fin.
  assert (Hc : Forall (fun c => 0 < c) (Spec.cumulative (Spec.returns prices))).
  { destruct prices as [|p t]; [constructor |].
    apply cumulative_from_pos; [lra | exact Hpos]. }
  destruct (peak_bounds _ Hc) as [Hp _].
  rewrite zip_with_ratio_Fin.
  2:{ eapply Forall_impl; [| exact Hp]. intros p H. simpl in H. lra. }
  fold (Spec.drawdown (Spec.returns prices)).
  rewrite min_Fin.
  - reflexivity.
  - intros Hnil. apply (f_equal (@length R)) in Hnil.
    unfold Spec.drawdown in Hnil.
    rewrite ratio_minus_one_length in Hnil by apply peak_length.
    unfold Spec.cumulative in Hnil.
    rewrite cumulative_from_length, returns_length in Hnil.
    simpl in Hnil. lia.
Qed.

Lemma fold_Rmin_le (l : list R) (x : R) :
  fold_left Rmin l x <= x /\ Forall (fun y => fold_left Rmin l x <= y) l.
Proof.
  revert x. induction l as [|y t IH]; intros x; cbn [fold_left].
  - split; [lra | constructor].
  - destruct (IH (Rmin x y)) as [H1 H2].
    pose proof (Rmin_l x y). pose proof (Rmin_r x y).
    split; [lra |]. constructor; [lra | exact H2].
Qed.

Lemma fold_Rmin_In (l : list R) (x : R) :
  fold_left Rmin l x = x \/ In (fold_left Rmin l x) l.
Proof.
  revert x. induction l as [|y t IH]; intros x; cbn [fold_left].
  - left. reflexivity.
  - destruct (IH (Rmin x y)) as [H | H].
    + rewrite H. unfold Rmin. destruct (Rle_dec x y); [left | right; left];
        reflexivity.
    + right. right. exact H.
Qed.

(** The minimum of nonpositive numbers is zero exactly when all of
    them are. *)
Lemma minimum_nonpositive (l : list R) :
  l <> [] -> Forall (fun d => d <= 0) l ->
  Spec.minimum l <= 0 /\ (Spec.minimum l = 0 <-> Forall (fun d => d = 0) l).
Proof.
  destruct l as [|x t]; [congruence | intros _ Hall].
  cbn [Spec.minimum].
  destruct (fold_Rmin_le t x) as [Hx Ht].
  inversion Hall as [|? ? Hx0 Ht0]; subst.
  split; [lra |]. split.
  - intros H0. rewrite H0 in Hx, Ht. constructor; [lra |].
    rewrite Forall_forall in *. intros y Hy.
    specialize (Ht y Hy). specialize (Ht0 y Hy). simpl in *. lra.
  - intros Hz. inversion Hz as [|? ? Hx1 Ht1]; subst.
    destruct (fold_Rmin_In t 0) as [H | H]; [exact H |].
    rewrite Forall_forall in Ht1. apply (Ht1 _ H).
Qed.

Lemma peak_from_zero_iff (m : R) (cs : list R) :
  0 < m ->
  Forall (fun d => d = 0) (Spec.ratio_minus_one cs (Spec.peak_from m cs))
  <-> Spec.non_decreasing_from m cs.
Proof.
  revert m. induction cs as [|c t IH]; intros m Hm.
  - cbn. split; [trivial | constructor].
  - cbn [Spec.peak_from Spec.ratio_minus_one Spec.non_decreasing_from].
    assert (Hmax : 0 < Rmax m c) by (pose proof (Rmax_l m c); lra).
    assert (Hiff : c / Rmax m c - 1 = 0 <-> m <= c).
    { split.
      - intros H. assert (Hc : c = Rmax m c).
        { apply (Rmult_eq_reg_r (/ Rmax m c)).
          - rewrite Rinv_r by lra. unfold Rdiv in H. lra.
          - apply Rinv_neq_0_compat. lra. }
        pose proof (Rmax_l m c). lra.
      - intros H. rewrite Rmax_right by exact H.
        assert (0 < c) by lra. unfold Rdiv. rewrite Rinv_r by lra. lra. }
    split.
    + intros H. inversion H as [|? ? Hd Hrest]; subst.
      apply Hiff in Hd. split; [exact Hd |].
      rewrite Rmax_right in Hrest by exact Hd.
      apply IH; [lra | exact Hrest].
    + intros [Hle Hnd]. constructor; [apply Hiff; exact Hle |].
      rewrite Rmax_right by exact Hle. apply IH; [lra | exact Hnd].
Qed.

Lemma cumulative_from_scaled (acc prev : R) (prices : list R) :
  Forall (fun p => p <> 0) (prev :: prices) ->
  Spec.cumulative_from acc (Spec.returns_from prev prices)
  = map (fun p => acc / prev * p) prices.
Proof.
  revert acc prev. induction prices as [|p t IH]; intros acc prev H;
    [reflexivity |].
  inversion H as [|? ? Hprev Hrest]; subst.
  inversion Hrest as [|? ? Hp _]; subst.
  cbn [Spec.returns_from Spec.cumulative_from map].
  rewrite IH by exact Hrest. f_equal; [field; exact Hprev |].
  apply map_ext. intros q. field. split; assumption.
Qed.

Lemma non_decreasing_from_scaled (k x : R) (l : list R) :
  0 < k ->
  Spec.non_decreasing_from (k * x) (map (fun p => k * p) l)
  <-> Spec.non_decreasing_from x l.
Proof.
  intros Hk. revert x. induction l as [|y t IH]; intros x; cbn; [tauto |].
  rewrite IH. split; intros [H1 H2]; split; try assumption; nra.
Qed.

(** What the code returns on positive prices: never more than zero,
    and zero exactly when the prices after the first one never
    decline.  The first price is no peak of the series. *)
Lemma max_drawdown_characterised (prices : list R) :
  Forall (fun p => 0 < p) prices -> (2 <= length prices)%nat ->
  Spec.max_drawdown prices <= 0
  /\ (RiskMetrics.calculate_max_drawdown (map Fin prices) = Fin 0
      <-> Spec.non_decreasing (tl prices)).
Proof.
  intros Hpos Hlen.
  rewrite max_drawdown_Fin by assumption.
  destruct prices as [|p0 [|p1 t]]; try (simpl in Hlen; lia).
  assert (Hnz : Forall (fun p => p <> 0) (p0 :: p1 :: t)).
  { eapply Forall_impl; [| exact Hpos]. intros p Hp. simpl in Hp. lra. }
  inversion Hpos as [|? ? Hp0 Hpos']; subst.
  inversion Hpos' as [|? ? Hp1 _]; subst.
  assert (Hc : Forall (fun c => 0 < c)
                 (Spec.cumulative (Spec.returns (p0 :: p1 :: t))))
    by (apply cumulative_from_pos; [lra | exact Hpos]).
  destruct (peak_bounds _ Hc) as [_ Hdd].
  fold (Spec.drawdown (Spec.returns (p0 :: p1 :: t))) in Hdd.
  assert (Hne : Spec.drawdown (Spec.returns (p0 :: p1 :: t)) <> [])
    by (cbn; discriminate).
  destruct (minimum_nonpositive _ Hne Hdd) as [Hle Hzero].
  unfold Spec.max_drawdown. split; [lra |].
  cbn [tl Spec.non_decreasing].
  assert (Hk : 0 < 1 / p0) by (apply Rdiv_lt_0_compat; lra).
  rewrite <- (non_decreasing_from_scaled (1 / p0) p1 t Hk).
  rewrite <- peak_from_zero_iff by (apply Rmult_lt_0_compat; lra).
  transitivity (Spec.minimum (Spec.drawdown (Spec.returns (p0 :: p1 :: t))) = 0).
  { split; intros H.
    - apply Fin_inj in H. lra.
    - rewrite H. f_equal. lra. }
  rewrite Hzero. unfold Spec.drawdown, Spec.cumulative.
  cbn [Spec.returns].
  rewrite cumulative_from_scaled by exact Hnz.
  cbn [map Spec.peak Spec.ratio_minus_one].
  split.
  - intros H. inversion H; assumption.
  - intros H. constructor; [| exact H].
    unfold Rdiv at 1. rewrite Rinv_r by nra. lra.
Qed.

(** A series that never declines has no drawdown. *)
Lemma max_drawdown_non_decreasing (prices : list R) :
  Forall (fun p => 0 < p) prices -> (2 <= length prices)%nat ->
  Spec.non_decreasing prices ->
  RiskMetrics.calculate_max_drawdown (map Fin prices) = Fin 0.
Proof.
  intros Hpos Hlen Hnd.
  apply (max_drawdown_characterised prices Hpos Hlen).
  destruct prices as [|p0 [|p1 t]]; cbn in *; tauto.
Qed.

(** C4, at prices [100, 50] and [100, 50, 100]: the price halves after
    the first day and the code reports a maximum drawdown of 0. *)
Theorem max_drawdown_ignores_first_price :
  RiskMetrics.calculate_max_drawdown [Fin 100; Fin 50] = Fin 0
  /\ RiskMetrics.calculate_max_drawdown [Fin 100; Fin 50; Fin 100] = Fin 0
  /\ App.calculate_max_drawdown [Fin 100; Fin 50] = Fin 0
  /\ ~ Spec.non_decreasing [100; 50].
Proof.
  repeat split.
  - fl_eval. f_equal. closed_real.
  - fl_eval. f_equal. closed_real.
  - fl_eval. f_equal. closed_real.
  - cbn. lra.
Qed.

End Drawdown.

(** ** Annualized return *)

Section AnnualizedReturn.
Import Series RiskMetrics.

Lemma last_map_Fin (t : list R) (x : R) :
  last (map Fin t) (Fin x) = Fin (last t x).
Proof.
  revert x. induction t as [|y t IH]; intros x; [reflexivity |].
  cbn [map]. destruct t as [|z t']; [reflexivity |].
  change (last (map Fin (y :: z :: t')) (Fin x))
    with (last (map Fin (z :: t')) (Fin x)).
  change (last (y :: z :: t') x) with (last (z :: t') x).
  apply IH.
Qed.

Lemma last_positive (t : list R) (x : R) :
  0 < x -> Forall (fun p => 0 < p) t -> 0 < last t x.
Proof.
  intros Hx H. revert x Hx. induction H as [|y t Hy _ IH]; intros x Hx;
    [exact Hx |].
  destruct t as [|z t']; [exact Hy |].
  change (last (y :: z :: t') x) with (last (z :: t') x). apply IH. exact Hx.
Qed.


Lemma days_elapsed_nonzero (start_date end_date : Z) :
  days_elapsed start_date end_date <> 0%Z.
Proof.
  unfold days_elapsed.
  destruct (Z.eqb_spec (end_date - start_date) 0); lia.
Qed.

Lemma exponent_nonzero (d : Z) : d <> 0%Z -> 365 / IZR d <> 0.
Proof.
  intros Hd. assert (IZR d <> 0) by (apply not_0_IZR; exact Hd).
  unfold Rdiv. apply Rmult_integral_contrapositive_currified; [lra |].
  apply Rinv_neq_0_compat. assumption.
Qed.

Lemma annualized_return_Fin
    (first_price last_price : R) (start_date end_date : Z) :
  0 < first_price -> 0 < last_price ->
  annualized_return (Fin first_price) (Fin last_price) start_date end_date
  = Fin (Spec.annualized_return
           (Spec.total_return first_price last_price)
           (days_elapsed start_date end_date)).
Proof.
  intros Hf Hl. unfold annualized_return.
  rewrite fdiv_Fin by lra.
  cbn [fsub fadd fopp fmul].
  rewrite fdiv_Fin by lra.
  cbn [fadd]. unfold fpow.
  destruct (Req_dec_T (365 / IZR (days_elapsed start_date end_date)) 0)
    as [H0 | _].
  { exfalso. revert H0. apply exponent_nonzero, days_elapsed_nonzero. }
  assert (Hbase : 0 < 1 + (last_price / first_price + - (1)) * 100 / 100).
  { replace (1 + (last_price / first_price + - (1)) * 100 / 100)
      with (last_price / first_price) by (field; lra).
    apply Rdiv_lt_0_compat; assumption. }
  destruct (Rlt_dec 0 (1 + (last_price / first_price + - (1)) * 100 / 100))
    as [_ | Hn]; [| contradiction].
  reflexivity.
Qed.

Lemma Rpower_one_base (y : R) : Rpower 1 y = 1.
Proof. unfold Rpower. rewrite ln_1, Rmult_0_r. apply exp_0. Qed.

(** Equal first and last prices: the quotient is exactly 1 and every
    later step is exact. *)
Lemma equal_prices_no_return (p : R) (start_date end_date : Z) :
  p <> 0 -> annualized_return (Fin p) (Fin p) start_date end_date = Fin 0.
Proof.
  intros Hp. unfold annualized_return.
  rewrite fdiv_Fin by exact Hp.
  cbn [fsub fadd fopp fmul].
  rewrite fdiv_Fin by lra.
  cbn [fadd]. unfold fpow.
  destruct (Req_dec_T (365 / IZR (days_elapsed start_date end_date)) 0)
    as [H0 | _].
  { exfalso. revert H0. apply exponent_nonzero, days_elapsed_nonzero. }
  assert (Hbase : 1 + (p / p + - (1)) * 100 / 100 = 1) by (field; exact Hp).
  rewrite Hbase.
  destruct (Rlt_dec 0 1) as [_ | Hn]; [| exfalso; lra].
  rewrite Rpower_one_base. cbn [fsub fadd fopp fmul]. f_equal. ring.
Qed.

(** C8.  Floating point throughout.  The annualized return in the row
    of a column is
    [((1 + total_return/100) ** (365/days) - 1) * 100] with
    [total_return = (last_price/first_price - 1) * 100], taken from
    the first and the last value the column holds, where [days] is
    the number of days from the start date to the end date and 1 when
    that number is 0: the divisor of [365/days] is never 0.  When the
    first and the last price are the same nonzero number the result
    is exactly 0, whatever the dates. *)
Theorem annualized_return_formula
    (column : string) (values : Series) (first_price : float)
    (later_prices : list float) (risk_free_rate : float)
    (start_date end_date : Z) :
  dropna values = first_price :: later_prices ->
  let last_price := last later_prices first_price in
  let days := (end_date - start_date)%Z in
  let days_used := if (days =? 0)%Z then 1%Z else days in
  days_used <> 0%Z
  /\ exists row,
       metrics_row column values risk_free_rate start_date end_date = Some row
       /\ Annualized_Return row
          = Spec.float_annualized_return
              (Spec.float_total_return first_price last_price) days_used
       /\ (forall p, p <> 0 -> first_price = Fin p -> last_price = Fin p ->
           Annualized_Return row = Fin 0).
Proof.
  intros Hvalues last_price days days_used.
  split; [exact (days_elapsed_nonzero start_date end_date) |].
  unfold metrics_row. rewrite Hvalues.
  cbn [iloc_first hd_error iloc_last].
  eexists. split; [reflexivity |].
  cbn [Annualized_Return]. fold last_price. split; [reflexivity |].
  intros p Hp -> ->. apply equal_prices_no_return. exact Hp.
Qed.

Lemma annualized_return_formula_witness :
  exists row,
    metrics_row "Gold (Commodity)" [Fin 100; NaN; Fin 110] (Fin (4 / 100))
                7 7 = Some row
    /\ Annualized_Return row
       = Spec.float_annualized_return
           (Spec.float_total_return (Fin 100) (Fin 110)) 1.
Proof.
  destruct (annualized_return_formula "Gold (Commodity)"
              [Fin 100; NaN; Fin 110] (Fin 100) [Fin 110] (Fin (4 / 100))
              7 7 eq_refl) as [_ [row [Hrow [Hret _]]]].
  exists row. split; [exact Hrow | exact Hret].
Defined.

End AnnualizedReturn.

(** ** The rows of the risk table *)

Section RiskTable.
Import Series RiskMetrics.

Lemma pct_change_single (x : float) : dropna (pct_change [x]) = [].
Proof. destruct x; reflexivity. Qed.

Lemma max_drawdown_single (x : float) : calculate_max_drawdown [x] = NaN.
Proof.
  unfold calculate_max_drawdown. rewrite pct_change_single. reflexivity.
Qed.

Lemma dropna_idempotent (s : Series) : dropna (dropna s) = dropna s.
Proof.
  unfold dropna. induction s as [|y l IH]; [reflexivity |].
  cbn [filter]. destruct (negb (is_nan y)) eqn:E; cbn [filter];
    [rewrite E, IH; reflexivity | exact IH].
Qed.

Lemma iloc_last_some (x : float) (t : Series) :
  iloc_last (x :: t) = Some (last t x).
Proof. reflexivity. Qed.

Lemma within_factor_pos (k : R) (prices : list R) :
  Describe.within_factor k prices -> Forall (fun p => 0 < p) prices.
Proof.
  intros [lo [Hlo H]]. eapply Forall_impl; [| exact H].
  intros p Hp. simpl in Hp. lra.
Qed.

(** C6 (as amended).  The loop of the table raises no error for a
    short series.  A column without a value is skipped; every other
    column gives a row; the row of a single value has a NaN Sharpe
    ratio and a NaN maximum drawdown, and a row of two values has a
    NaN Sharpe ratio.  The row of at least three positive prices
    within a factor 1000 of each other, for a risk-free rate between
    0 and 1, has a finite Sharpe ratio and a finite maximum
    drawdown. *)
Theorem metrics_row_never_fails
    (column : string) (values : Series) (risk_free_rate : float)
    (start_date end_date : Z) :
  let row_of := metrics_row column values risk_free_rate start_date end_date in
  (dropna values = [] -> row_of = None)
  /\ (dropna values <> [] ->
      exists row, row_of = Some row /\ Asset row = column)
  /\ (forall x, dropna values = [x] ->
      exists row, row_of = Some row
                  /\ Sharpe_Ratio row = NaN
                  /\ Maximum_Drawdown row = NaN
                  /\ Sharpe_Sort row = NaN)
  /\ (forall x y, dropna values = [x; y] ->
      exists row, row_of = Some row
                  /\ Sharpe_Ratio row = NaN
                  /\ Sharpe_Sort row = NaN)
  /\ (forall prices rf,
      values = map Fin prices -> risk_free_rate = Fin rf ->
      Describe.within_factor 1000 prices -> (3 <= length prices)%nat ->
      0 <= rf <= 1 ->
      exists row, row_of = Some row
                  /\ is_finite (Sharpe_Ratio row) = true
                  /\ is_finite (Maximum_Drawdown row) = true).
Proof.
  intros row_of. unfold row_of, metrics_row.
  split; [| split; [| split; [| split]]].
  - intros ->. reflexivity.
  - intros Hne. destruct (dropna values) as [|x t]; [congruence |].
    cbn [iloc_first hd_error]. rewrite iloc_last_some.
    eexists. split; reflexivity.
  - intros x ->. cbn [iloc_first hd_error iloc_last].
    eexists. split; [reflexivity |]. cbn [Sharpe_Ratio Maximum_Drawdown Sharpe_Sort].
    rewrite sharpe_short_series by (simpl; lia).
    rewrite max_drawdown_single. repeat split.
  - intros x y ->. cbn [iloc_first hd_error iloc_last].
    eexists. split; [reflexivity |]. cbn [Sharpe_Ratio Sharpe_Sort].
    rewrite sharpe_short_series by (simpl; lia). split; reflexivity.
  - intros prices rf -> -> Hrange Hlen _.
    pose proof (within_factor_pos _ _ Hrange) as Hpos.
    rewrite dropna_map_Fin.
    destruct prices as [|p0 t]; [simpl in Hlen; lia |].
    cbn [map iloc_first hd_error]. rewrite iloc_last_some.
    eexists. split; [reflexivity |].
    cbn [Sharpe_Ratio Maximum_Drawdown].
    assert (Hnz : Forall (fun p => p <> 0) (p0 :: t)).
    { eapply Forall_impl; [| exact Hpos]. intros p Hp. simpl in Hp. lra. }
    change (Fin p0 :: map Fin t) with (map Fin (p0 :: t)).
    split.
    + destruct (Req_dec_T (Spec.stddev 1 (Spec.returns (p0 :: t))) 0) as [H0 | H0].
      * rewrite sharpe_zero_volatility; try assumption; [reflexivity |].
        rewrite H0. lra.
      * rewrite sharpe_nonzero_volatility; try assumption. reflexivity.
    + rewrite max_drawdown_Fin by (try assumption; lia). reflexivity.
Qed.

Lemma metrics_row_never_fails_witness :
  exists row,
    metrics_row "Gold (Commodity)" [Fin 100] (Fin (4 / 100)) 0 365 = Some row
    /\ Sharpe_Ratio row = NaN
    /\ Maximum_Drawdown row = NaN
    /\ Sharpe_Sort row = NaN.
Proof.
  exact (proj1 (proj2 (proj2
           (metrics_row_never_fails "Gold (Commodity)" [Fin 100]
              (Fin (4 / 100)) 0 365)))
           (Fin 100) eq_refl).
Defined.

(** C6 as stated fails: for a price series of one point the page runs
    to its end without any error, and the one row of its table has a
    NaN Sharpe ratio and a NaN maximum drawdown. *)
Lemma single_point_series_gives_nan_row :
  exists row,
    page ["Gold (Commodity)"%string]
         [("Gold (Commodity)"%string, [Fin 100])] 4 0 365
    = Done [row]
    /\ Sharpe_Ratio row = NaN
    /\ Maximum_Drawdown row = NaN.
Proof.
  eexists. split.
  - unfold page. cbn [length Nat.ltb Nat.leb frame_empty Series.empty].
    rewrite fdiv_Fin by lra.
    cbn [results metrics_row dropna filter is_nan negb iloc_first hd_error
         iloc_last last].
    unfold results_df, nargsort_descending.
    cbn [Sharpe_Sort filter].
    rewrite sharpe_short_series by (simpl; lia).
    cbn [is_nan negb rev argsort fold_left app]. reflexivity.
  - split; reflexivity.
Qed.

End RiskTable.

(** ** The ranking of the risk table *)

Section Ranking.
Import RiskMetrics.

Ltac float_order :=
  unfold fltb, feqb;
  repeat match goal with
         | |- context [Rlt_dec ?a ?b] => destruct (Rlt_dec a b)
         | |- context [Req_dec_T ?a ?b] => destruct (Req_dec_T a b)
         end;
  intros; try reflexivity; try discriminate; try congruence; try lra.

Lemma fltb_asym (a b : float) : fltb a b = true -> fltb b a = false.
Proof. destruct a, b; float_order. Qed.

Lemma fltb_not_less_trans (a b c : float) :
  is_nan a = false -> is_nan b = false -> is_nan c = false ->
  fltb a b = false -> fltb b c = false -> fltb a c = false.
Proof. destruct a, b, c; cbn [is_nan]; float_order. Qed.

Lemma fltb_feqb_apart (a b k : float) :
  fltb a b = true -> feqb a k = true -> feqb b k = false.
Proof. destruct a, b, k; float_order. Qed.

Lemma feqb_not_nan (a k : float) : feqb a k = true -> is_nan a = false.
Proof. destruct a, k; cbn; congruence. Qed.

Variable A : Type.
Variable key : A -> float.

(** The rows without NaN key come out as the insertion sort of the
    input by recursion on it, the others behind them. *)
Lemma nargsort_descending_unfold (l : list A) :
  nargsort_descending key l
  = fold_right (insert_left key) []
               (filter (fun x => negb (is_nan (key x))) l)
    ++ filter (fun x => is_nan (key x)) l.
Proof.
  unfold nargsort_descending, argsort. rewrite rev_involutive.
  f_equal.
  pose proof (fold_left_rev_right (insert_left key)
                (rev (filter (fun x => negb (is_nan (key x))) l)) []) as H.
  rewrite rev_involutive in H. symmetry. exact H.
Qed.

Lemma insert_left_perm (x : A) (s : list A) :
  Permutation (insert_left key x s) (x :: s).
Proof.
  induction s as [|y t IH]; cbn [insert_left]; [reflexivity |].
  destruct (fltb (key x) (key y)); [| reflexivity].
  rewrite IH. apply perm_swap.
Qed.

Lemma isort_perm (l : list A) :
  Permutation (fold_right (insert_left key) [] l) l.
Proof.
  induction l as [|x t IH]; cbn [fold_right]; [reflexivity |].
  rewrite insert_left_perm. constructor. exact IH.
Qed.

Let not_below (a b : A) : Prop := fltb (key a) (key b) = false.

Lemma insert_left_sorted (x : A) (s : list A) :
  is_nan (key x) = false ->
  Forall (fun y => is_nan (key y) = false) s ->
  StronglySorted not_below s ->
  StronglySorted not_below (insert_left key x s).
Proof.
  intros Hx Hnan Hs. induction Hs as [|y t Ht IH Hall]; cbn [insert_left].
  - repeat constructor.
  - inversion Hnan as [|? ? Hy Hnt]; subst.
    destruct (fltb (key x) (key y)) eqn:E.
    + constructor; [apply IH; exact Hnt |].
      apply Forall_forall. intros z Hz.
      apply (Permutation_in _ (insert_left_perm x t)) in Hz.
      destruct Hz as [<- | Hz].
      * apply fltb_asym. exact E.
      * rewrite Forall_forall in Hall. apply Hall. exact Hz.
    + constructor; [constructor; assumption |].
      constructor; [exact E |].
      apply Forall_forall. intros z Hz.
      rewrite Forall_forall in Hall, Hnt.
      apply (fltb_not_less_trans _ (key y)); auto.
      apply Hall. exact Hz.
Qed.

Lemma isort_sorted (l : list A) :
  Forall (fun y => is_nan (key y) = false) l ->
  StronglySorted not_below (fold_right (insert_left key) [] l).
Proof.
  induction 1 as [|x t Hx Ht IH]; cbn [fold_right]; [constructor |].
  apply insert_left_sorted; [exact Hx | | exact IH].
  apply Forall_forall. intros z Hz.
  apply (Permutation_in _ (isort_perm t)) in Hz.
  rewrite Forall_forall in Ht. apply Ht. exact Hz.
Qed.

(** Rows of one key keep their order: the sort is stable. *)
Lemma insert_left_stable (k : float) (x : A) (s : list A) :
  filter (fun r => feqb (key r) k) (insert_left key x s)
  = filter (fun r => feqb (key r) k) (x :: s).
Proof.
  induction s as [|y t IH]; cbn [insert_left]; [reflexivity |].
  destruct (fltb (key x) (key y)) eqn:E; [| reflexivity].
  cbn [filter] in *. rewrite IH.
  destruct (feqb (key x) k) eqn:Ex; [| reflexivity].
  rewrite (fltb_feqb_apart _ _ _ E Ex). reflexivity.
Qed.

Lemma isort_stable (k : float) (l : list A) :
  filter (fun r => feqb (key r) k) (fold_right (insert_left key) [] l)
  = filter (fun r => feqb (key r) k) l.
Proof.
  induction l as [|x t IH]; cbn [fold_right]; [reflexivity |].
  rewrite insert_left_stable. cbn [filter]. rewrite IH. reflexivity.
Qed.

Lemma filter_key_not_nan (k : float) (l : list A) :
  filter (fun r => feqb (key r) k)
         (filter (fun x => negb (is_nan (key x))) l)
  = filter (fun r => feqb (key r) k) l
  /\ filter (fun r => feqb (key r) k) (filter (fun x => is_nan (key x)) l)
     = [].
Proof.
  induction l as [|x t [IH1 IH2]]; [split; reflexivity |].
  cbn [filter]. destruct (feqb (key x) k) eqn:E.
  - rewrite (feqb_not_nan _ _ E). cbn [negb filter]. rewrite E, IH1.
    split; [reflexivity | exact IH2].
  - destruct (is_nan (key x)); cbn [negb filter]; rewrite E; split; assumption.
Qed.

Lemma filter_partition_perm (p : A -> bool) (l : list A) :
  Permutation (filter (fun x => negb (p x)) l ++ filter p l) l.
Proof.
  induction l as [|x t IH]; [reflexivity |].
  cbn [filter]. destruct (p x); cbn [negb].
  - rewrite <- Permutation_middle. constructor. exact IH.
  - cbn [app]. constructor. exact IH.
Qed.

Lemma nargsort_descending_spec (l : list A) :
  exists sorted,
    nargsort_descending key l
    = sorted ++ filter (fun r => is_nan (key r)) l
    /\ Permutation (nargsort_descending key l) l
    /\ Forall (fun r => is_nan (key r) = false) sorted
    /\ StronglySorted not_below sorted
    /\ (forall k,
         filter (fun r => feqb (key r) k) (nargsort_descending key l)
         = filter (fun r => feqb (key r) k) l).
Proof.
  set (non_nans := filter (fun x => negb (is_nan (key x))) l).
  assert (Hnn : Forall (fun r => is_nan (key r) = false) non_nans).
  { apply Forall_forall. intros r Hr. apply filter_In in Hr.
    destruct Hr as [_ Hr]. now apply negb_true_iff in Hr. }
  exists (fold_right (insert_left key) [] non_nans).
  rewrite nargsort_descending_unfold. fold non_nans.
  repeat split.
  - rewrite isort_perm. apply filter_partition_perm.
  - apply Forall_forall. intros z Hz.
    apply (Permutation_in _ (isort_perm non_nans)) in Hz.
    rewrite Forall_forall in Hnn. apply Hnn. exact Hz.
  - apply isort_sorted. exact Hnn.
  - intros k. rewrite filter_app, isort_stable.
    destruct (filter_key_not_nan k l) as [H1 H2].
    unfold non_nans. rewrite H1, H2. apply app_nil_r.
Qed.

End Ranking.

Section RankingReport.
Import RiskMetrics Samples.

(** C9 (as amended).  The table of a list of rows that is not empty
    holds the same rows, those with a NaN Sharpe ratio last and the
    others in descending order of Sharpe ratio; the rows of one
    Sharpe ratio keep the order they had in the input (the asset name
    is no part of the sort key). *)
Theorem ranking_sorted_by_sharpe (rows : list Row) :
  rows <> [] ->
  exists table sorted,
    results_df rows = Done table
    /\ table = sorted ++ filter (fun r => is_nan (Sharpe_Sort r)) rows
    /\ Permutation table rows
    /\ Forall (fun r => is_nan (Sharpe_Sort r) = false) sorted
    /\ StronglySorted
         (fun a b => fltb (Sharpe_Sort a) (Sharpe_Sort b) = false) sorted
    /\ (forall k,
         filter (fun r => feqb (Sharpe_Sort r) k) table
         = filter (fun r => feqb (Sharpe_Sort r) k) rows).
Proof.
  intros Hne.
  destruct (nargsort_descending_spec Row Sharpe_Sort rows)
    as [sorted (H1 & H2 & H3 & H4 & H5)].
  exists (nargsort_descending Sharpe_Sort rows), sorted.
  split; [destruct rows; [congruence | reflexivity] |].
  repeat split; assumption.
Qed.

Lemma ranking_sorted_by_sharpe_witness :
  exists table sorted,
    results_df [tesla_row; gold_row; nasdaq_row] = Done table
    /\ table = sorted ++ filter (fun r => is_nan (Sharpe_Sort r))
                                [tesla_row; gold_row; nasdaq_row]
    /\ Permutation table [tesla_row; gold_row; nasdaq_row]
    /\ Forall (fun r => is_nan (Sharpe_Sort r) = false) sorted
    /\ StronglySorted
         (fun a b => fltb (Sharpe_Sort a) (Sharpe_Sort b) = false) sorted
    /\ (forall k,
         filter (fun r => feqb (Sharpe_Sort r) k) table
         = filter (fun r => feqb (Sharpe_Sort r) k)
                  [tesla_row; gold_row; nasdaq_row]).
Proof.
  apply (ranking_sorted_by_sharpe [tesla_row; gold_row; nasdaq_row]).
  discriminate.
Defined.

(** C9 as stated fails: two rows of Sharpe ratio 0.0 stay in the
    order of the input, "Tesla (Stock)" before "NASDAQ (Index)",
    which is not the ascending order of the names. *)
Lemma ranking_ties_not_by_name :
  results_df [tesla_row; gold_row; nasdaq_row]
  = Done [gold_row; tesla_row; nasdaq_row]
  /\ Sharpe_Sort tesla_row = Sharpe_Sort nasdaq_row
  /\ String.compare (Asset tesla_row) (Asset nasdaq_row) = Gt.
Proof.
  split; [| split; reflexivity].
  fl_eval. reflexivity.
Qed.

End RankingReport.

(** ** Frames: missing rows *)

Section MissingRows.
Import Frame CorrelationAnalysis.

Context {I : Type}.

Lemma complete_spec (cells : list float) :
  complete cells = true <-> Forall (fun x => is_nan x = false) cells.
Proof.
  unfold complete. rewrite forallb_forall, Forall_forall.
  split; intros H x Hx; specialize (H x Hx).
  - now apply negb_true_iff in H.
  - now apply negb_true_iff.
Qed.






End MissingRows.

(** ** Frames: the rows behind a Pearson entry *)

Section PairwiseRows.
Import Frame CorrelationAnalysis.

Lemma pairwise_obs_length (xi yi : nat) (rs : list (list float)) :
  length (pairwise_obs xi yi rs) = length (filter (both_finite xi yi) rs).
Proof.
  unfold pairwise_obs, both_finite.
  induction rs as [|cells t IH]; [reflexivity |].
  cbn [flat_map filter]. rewrite length_app, IH.
  destruct (cell xi cells), (cell yi cells); reflexivity.
Qed.


Lemma map_snd_combine {A B : Type} (l : list A) (m : list B) :
  length l = length m -> map snd (combine l m) = m.
Proof.
  revert m. induction l as [|x l IH]; intros [|y m] H; simpl in *;
    try reflexivity; try discriminate.
  f_equal. apply IH. lia.
Qed.

Lemma map_fst_combine {A B : Type} (l : list A) (m : list B) :
  length l = length m -> map fst (combine l m) = l.
Proof.
  revert m. induction l as [|x l IH]; intros [|y m] H; simpl in *;
    try reflexivity; try discriminate.
  f_equal. apply IH. lia.
Qed.

Lemma nth_map_seq {A : Type} (f : nat -> A) (k i : nat) (d : A) :
  (i < k)%nat -> nth i (map f (seq 0 k)) d = f i.
Proof.
  intros H. rewrite (nth_indep _ d (f 0%nat)) by (rewrite length_map, length_seq; exact H).
  rewrite map_nth, seq_nth by exact H. reflexivity.
Qed.

(** Entry [(i, j)] of a square array laid out under its labels. *)
Lemma of_matrix_entry (f : nat -> nat -> float) (labels : list string)
    (i j : nat) :
  let k := length labels in
  (i < k)%nat -> (j < k)%nat ->
  entry (of_matrix (map (fun i => map (fun j => f i j) (seq 0 k)) (seq 0 k))
                   labels) i j
  = f i j.
Proof.
  intros k Hi Hj. unfold entry, of_matrix. cbn [rows].
  rewrite map_snd_combine by (rewrite length_map, length_seq; reflexivity).
  rewrite nth_map_seq by exact Hi.
  unfold cell. apply nth_map_seq. exact Hj.
Qed.

Context {I : Type}.

Lemma corr_pearson_entry (df : DataFrame I) (i j : nat) :
  (i < length (columns df))%nat -> (j < length (columns df))%nat ->
  entry (corr_pearson df) i j = nancorr_entry (map snd (rows df)) i j.
Proof.
  intros Hi Hj. unfold corr_pearson.
  apply (of_matrix_entry (nancorr_entry (map snd (rows df)))); assumption.
Qed.

End PairwiseRows.

(** ** The guards of the correlation page *)

Section Alignment.
Import Frame CorrelationAnalysis.

Context {I : Type}.


End Alignment.



(** ** Correlation coefficients lie between -1 and 1 *)

Section CauchySchwarz.
Import Frame.

Lemma dot_self_nonneg (a : list R) : 0 <= dot a a.
Proof.
  induction a as [|x a IH]; cbn [dot]; [lra |].
  pose proof (Rle_0_sqr x) as H. unfold Rsqr in H. lra.
Qed.

Lemma dot_comm (a b : list R) : dot a b = dot b a.
Proof.
  revert b. induction a as [|x a IH]; intros [|y b]; cbn [dot];
    try reflexivity.
  rewrite IH. ring.
Qed.

Lemma dot_quadratic (a b : list R) (t : R) :
  0 <= dot a a * (t * t) + 2 * dot a b * t + dot b b.
Proof.
  revert b. induction a as [|x a IH]; intros b.
  - cbn [dot]. pose proof (dot_self_nonneg b). lra.
  - destruct b as [|y b]; cbn [dot].
    + pose proof (dot_self_nonneg a). pose proof (Rle_0_sqr (x * t)) as H1.
      pose proof (Rle_0_sqr t) as H2. unfold Rsqr in *. nra.
    + specialize (IH b). pose proof (Rle_0_sqr (x * t + y)) as H.
      unfold Rsqr in H. nra.
Qed.

(** A quadratic that is never negative has no positive discriminant. *)
Lemma discriminant_bound (A B C : R) :
  0 <= A -> 0 <= B ->
  (forall t, 0 <= A * (t * t) + 2 * C * t + B) -> C * C <= A * B.
Proof.
  intros HA HB H.
  destruct (Req_dec_T A 0) as [HA0 | HA0].
  - subst A.
    assert (HC : C = 0).
    { destruct (Req_dec_T C 0) as [|HC]; [assumption | exfalso].
      specialize (H (- (B + 1) / (2 * C))).
      assert (Heq : 2 * C * (- (B + 1) / (2 * C)) = - (B + 1))
        by (field; exact HC).
      lra. }
    subst C. lra.
  - assert (HApos : 0 < A) by lra.
    specialize (H (- C / A)).
    assert (Heq : A * (- C / A * (- C / A)) + 2 * C * (- C / A) + B
                  = (A * B - C * C) / A) by (field; exact HA0).
    rewrite Heq in H.
    assert (0 <= (A * B - C * C) / A * A) by (apply Rmult_le_pos; lra).
    replace ((A * B - C * C) / A * A) with (A * B - C * C) in *
      by (field; exact HA0).
    lra.
Qed.

Lemma cauchy_schwarz (a b : list R) :
  dot a b * dot a b <= dot a a * dot b b.
Proof.
  apply discriminant_bound; try apply dot_self_nonneg.
  intros t. apply dot_quadratic.
Qed.

Lemma dot_zero_of_self_zero (a b : list R) : dot a a = 0 -> dot a b = 0.
Proof.
  intros H. pose proof (cauchy_schwarz a b) as Hcs. rewrite H in Hcs.
  nra.
Qed.

Lemma Rsum_map_mul {A : Type} (f g : A -> R) (l : list A) :
  Rsum (map (fun o => f o * g o) l) = dot (map f l) (map g l).
Proof.
  induction l as [|o l IH]; cbn [map Rsum fold_right dot]; [reflexivity |].
  unfold Rsum in IH. rewrite IH. reflexivity.
Qed.

(** A ratio [c / sqrt (a * b)] with [c * c <= a * b]. *)
Lemma ratio_bound (a b c : R) :
  0 <= a -> 0 <= b -> c * c <= a * b -> sqrt (a * b) <> 0 ->
  -1 <= c / sqrt (a * b) <= 1.
Proof.
  intros Ha Hb Hc Hd.
  assert (Hab : 0 <= a * b) by (apply Rmult_le_pos; assumption).
  pose proof (sqrt_pos (a * b)) as Hs.
  assert (Hspos : 0 < sqrt (a * b)) by lra.
  pose proof (sqrt_sqrt (a * b) Hab) as Hss.
  assert (Habs : - sqrt (a * b) <= c <= sqrt (a * b)) by (split; nra).
  split.
  - apply (Rmult_le_reg_r (sqrt (a * b))); [exact Hspos |].
    unfold Rdiv. rewrite Rmult_assoc, Rinv_l by exact Hd. lra.
  - apply (Rmult_le_reg_r (sqrt (a * b))); [exact Hspos |].
    unfold Rdiv. rewrite Rmult_assoc, Rinv_l by exact Hd. lra.
Qed.

(** An entry of pandas' [nancorr] is NaN or a number of [[-1, 1]]. *)
Lemma nancorr_pair_range (obs : list (R * R)) :
  nancorr_pair obs = NaN
  \/ exists r, nancorr_pair obs = Fin r /\ -1 <= r <= 1.
Proof.
  unfold nancorr_pair.
  destruct (length obs <? 1)%nat; [left; reflexivity |].
  set (meanx := Rsum (map fst obs) / INR (length obs)).
  set (meany := Rsum (map snd obs) / INR (length obs)).
  rewrite !(Rsum_map_mul _ _ obs).
  set (dx := map (fun o : R * R => fst o - meanx) obs).
  set (dy := map (fun o : R * R => snd o - meany) obs).
  destruct (Req_dec_T (sqrt (dot dx dx * dot dy dy)) 0) as [|Hd];
    [left; reflexivity | right].
  eexists. split; [reflexivity |].
  apply ratio_bound; try apply dot_self_nonneg; [apply cauchy_schwarz | exact Hd].
Qed.

Lemma map_ext_Forall {A B : Type} (P : A -> Prop) (F G : A -> B)
    (l : list A) :
  Forall P l -> (forall o, P o -> F o = G o) -> map F l = map G l.
Proof.
  intros H HFG. induction H as [|o l Ho _ IH]; [reflexivity |].
  cbn [map]. rewrite (HFG o Ho), IH. reflexivity.
Qed.

(** The entry of a column with itself is NaN or exactly 1. *)
Lemma nancorr_pair_diagonal (obs : list (R * R)) :
  Forall (fun o => fst o = snd o) obs ->
  nancorr_pair obs = NaN \/ nancorr_pair obs = Fin 1.
Proof.
  intros Hdiag. unfold nancorr_pair.
  destruct (length obs <? 1)%nat; [left; reflexivity |].
  rewrite (map_ext_Forall _ snd fst obs Hdiag) by (intros o Ho; congruence).
  set (meanx := Rsum (map fst obs) / INR (length obs)).
  rewrite (map_ext_Forall _
             (fun o : R * R => (fst o - meanx) * (snd o - meanx))
             (fun o => (fst o - meanx) * (fst o - meanx)) obs Hdiag)
    by (intros o Ho; simpl in Ho; rewrite Ho; reflexivity).
  rewrite (map_ext_Forall _
             (fun o : R * R => (snd o - meanx) * (snd o - meanx))
             (fun o => (fst o - meanx) * (fst o - meanx)) obs Hdiag)
    by (intros o Ho; simpl in Ho; rewrite Ho; reflexivity).
  rewrite (Rsum_map_mul _ _ obs).
  set (dx := map (fun o : R * R => fst o - meanx) obs).
  pose proof (dot_self_nonneg dx) as Hnn.
  rewrite sqrt_square by exact Hnn.
  destruct (Req_dec_T (dot dx dx) 0) as [|Hd]; [left; reflexivity | right].
  f_equal. field. exact Hd.
Qed.

Lemma pairwise_obs_diagonal (i : nat) (rs : list (list float)) :
  Forall (fun o => fst o = snd o) (pairwise_obs i i rs).
Proof.
  unfold pairwise_obs. induction rs as [|cells t IH]; [constructor |].
  cbn [flat_map]. destruct (cell i cells); cbn [app]; try exact IH.
  constructor; [reflexivity | exact IH].
Qed.

End CauchySchwarz.

(** ** [np.corrcoef] on ranks *)

Section Corrcoef.
Import Frame.

Lemma cov_entry_Fin (n_obs : nat) (xi xj : list R) :
  (2 <= n_obs)%nat ->
  cov_entry n_obs xi xj
  = Fin (dot (centered xi) (centered xj) * (1 / (INR n_obs - 1))).
Proof.
  intros Hn. unfold cov_entry.
  assert (H1 : 1 < INR n_obs).
  { replace 1 with (INR 1) by reflexivity. apply lt_INR. lia. }
  rewrite fdiv_Fin by lra. reflexivity.
Qed.

Lemma clip_range (x : float) :
  clip x = NaN \/ exists r, clip x = Fin r /\ -1 <= r <= 1.
Proof.
  unfold clip. destruct x as [r | | |]; cbn [fltb].
  - right. destruct (Rlt_dec r (-1)); [exists (-1); split; [reflexivity | lra] |].
    destruct (Rlt_dec 1 r); [exists 1; split; [reflexivity | lra] |].
    exists r. split; [reflexivity | lra].
  - right. exists 1. split; [reflexivity | lra].
  - right. exists (-1). split; [reflexivity | lra].
  - left. reflexivity.
Qed.

Lemma clip_one : clip (Fin 1) = Fin 1.
Proof.
  unfold clip, fltb.
  destruct (Rlt_dec 1 (-1)); [lra |]. destruct (Rlt_dec 1 1); [lra |].
  reflexivity.
Qed.

(** Dividing by the two deviations in either order. *)
Lemma divide_twice_comm (c si sj : R) :
  (si = 0 -> c = 0) -> (sj = 0 -> c = 0) ->
  (Fin c / Fin si / Fin sj)%fl = (Fin c / Fin sj / Fin si)%fl.
Proof.
  intros Hi Hj. unfold fdiv.
  destruct (Req_dec_T si 0) as [Hsi | Hsi], (Req_dec_T sj 0) as [Hsj | Hsj].
  - rewrite (Hi Hsi). destruct (Req_dec_T 0 0); [reflexivity | congruence].
  - rewrite (Hi Hsi). destruct (Req_dec_T 0 0) as [_ | H]; [| congruence].
    destruct (Req_dec_T si 0); [| contradiction].
    destruct (Req_dec_T (0 / sj) 0) as [_ | H]; [reflexivity |].
    exfalso. apply H. unfold Rdiv. ring.
  - rewrite (Hj Hsj). destruct (Req_dec_T 0 0) as [_ | H]; [| congruence].
    destruct (Req_dec_T sj 0); [| contradiction].
    destruct (Req_dec_T (0 / si) 0) as [_ | H]; [reflexivity |].
    exfalso. apply H. unfold Rdiv. ring.
  - destruct (Req_dec_T sj 0); [contradiction |].
    destruct (Req_dec_T si 0); [contradiction |].
    f_equal. field. split; assumption.
Qed.

Lemma divide_twice_self (c : R) :
  0 <= c ->
  (Fin c / Fin (sqrt c) / Fin (sqrt c))%fl = NaN
  \/ (Fin c / Fin (sqrt c) / Fin (sqrt c))%fl = Fin 1.
Proof.
  intros Hc. unfold fdiv.
  destruct (Req_dec_T (sqrt c) 0) as [Hs | Hs].
  - left. assert (c = 0) by (apply sqrt_eq_0; assumption). subst c.
    destruct (Req_dec_T 0 0); [reflexivity | congruence].
  - right. destruct (Req_dec_T (sqrt c) 0); [contradiction |].
    f_equal. pose proof (sqrt_sqrt c Hc) as Hss.
    rewrite <- Hss at 1. field. exact Hs.
Qed.

Lemma scaled_dot_nonneg (n_obs : nat) (x : list R) :
  (2 <= n_obs)%nat -> 0 <= dot x x * (1 / (INR n_obs - 1)).
Proof.
  intros Hn.
  assert (H1 : 1 < INR n_obs).
  { replace 1 with (INR 1) by reflexivity. apply lt_INR. lia. }
  apply Rmult_le_pos; [apply dot_self_nonneg |].
  apply Rlt_le, Rdiv_lt_0_compat; lra.
Qed.

Lemma stddev_Fin (n_obs : nat) (x : list R) :
  (2 <= n_obs)%nat ->
  fsqrt (cov_entry n_obs x x)
  = Fin (sqrt (dot (centered x) (centered x) * (1 / (INR n_obs - 1)))).
Proof.
  intros Hn. rewrite cov_entry_Fin by exact Hn.
  apply fsqrt_Fin. apply scaled_dot_nonneg. exact Hn.
Qed.

Lemma zero_deviation_zero_cov (n_obs : nat) (x y : list R) :
  (2 <= n_obs)%nat ->
  sqrt (dot x x * (1 / (INR n_obs - 1))) = 0 ->
  dot x y * (1 / (INR n_obs - 1)) = 0.
Proof.
  intros Hn Hs.
  apply sqrt_eq_0 in Hs; [| apply scaled_dot_nonneg; exact Hn].
  assert (H1 : 1 < INR n_obs).
  { replace 1 with (INR 1) by reflexivity. apply lt_INR. lia. }
  assert (Hk : 0 < 1 / (INR n_obs - 1)) by (apply Rdiv_lt_0_compat; lra).
  assert (Hxx : dot x x = 0) by nra.
  rewrite (dot_zero_of_self_zero x y Hxx). ring.
Qed.

Lemma corrcoef_entry_symmetric (n_obs : nat) (xi xj : list R) :
  (2 <= n_obs)%nat ->
  corrcoef_entry n_obs xi xj = corrcoef_entry n_obs xj xi.
Proof.
  intros Hn. unfold corrcoef_entry.
  rewrite !stddev_Fin by exact Hn.
  rewrite !cov_entry_Fin by exact Hn.
  rewrite (dot_comm (centered xj) (centered xi)).
  f_equal. apply divide_twice_comm.
  - apply zero_deviation_zero_cov. exact Hn.
  - intros H. rewrite dot_comm. revert H.
    apply zero_deviation_zero_cov. exact Hn.
Qed.

Lemma corrcoef_entry_range (n_obs : nat) (xi xj : list R) :
  corrcoef_entry n_obs xi xj = NaN
  \/ exists r, corrcoef_entry n_obs xi xj = Fin r /\ -1 <= r <= 1.
Proof. unfold corrcoef_entry. apply clip_range. Qed.

Lemma corrcoef_entry_diagonal (n_obs : nat) (x : list R) :
  (2 <= n_obs)%nat ->
  corrcoef_entry n_obs x x = Fin 1 \/ corrcoef_entry n_obs x x = NaN.
Proof.
  intros Hn. unfold corrcoef_entry.
  rewrite stddev_Fin by exact Hn. rewrite cov_entry_Fin by exact Hn.
  destruct (divide_twice_self _ (scaled_dot_nonneg n_obs (centered x) Hn))
    as [-> | ->].
  - right. reflexivity.
  - left. apply clip_one.
Qed.

End Corrcoef.

(** ** Entries that are numbers, and their sign *)

Section DefinedEntries.
Import Frame.

Lemma dot_self_ge (l : list R) (t : R) : In t l -> t * t <= dot l l.
Proof.
  induction l as [|x l IH]; intros Hin; [contradiction |].
  cbn [dot]. pose proof (dot_self_nonneg l) as Hl.
  pose proof (Rle_0_sqr x) as Hx. unfold Rsqr in Hx.
  destruct Hin as [-> | Hin]; [lra |]. specialize (IH Hin). lra.
Qed.

Lemma dot_self_pos (l : list R) (u v : R) :
  In u l -> In v l -> u <> v -> 0 < dot l l.
Proof.
  intros Hu Hv Huv.
  pose proof (dot_self_ge l u Hu) as H1.
  pose proof (dot_self_ge l v Hv) as H2.
  destruct (Req_dec_T u 0) as [Hu0 | Hu0].
  - assert (Hv0 : v <> 0) by (intros E; apply Huv; rewrite Hu0, E; reflexivity).
    pose proof (Rsqr_pos_lt v Hv0) as Hp. unfold Rsqr in Hp. lra.
  - pose proof (Rsqr_pos_lt u Hu0) as Hp. unfold Rsqr in Hp. lra.
Qed.

(** The deviations of values that are not all the same. *)
Lemma dot_deviations_pos {A : Type} (h : A -> R) (m : R) (l : list A)
    (a b : A) :
  In a l -> In b l -> h a <> h b ->
  0 < dot (map (fun o => h o - m) l) (map (fun o => h o - m) l).
Proof.
  intros Ha Hb Hab.
  apply (dot_self_pos _ (h a - m) (h b - m)).
  - apply (in_map (fun o => h o - m)). exact Ha.
  - apply (in_map (fun o => h o - m)). exact Hb.
  - lra.
Qed.

Lemma dot_centered_pos (x : list R) (u v : R) :
  In u x -> In v x -> u <> v -> 0 < dot (centered x) (centered x).
Proof.
  intros Hu Hv Huv. unfold centered.
  apply (dot_deviations_pos (fun t => t) _ x u v); assumption.
Qed.

(** *** Pearson *)

Lemma nancorr_pair_sign (obs : list (R * R)) :
  let meanx := Rsum (map fst obs) / INR (length obs) in
  let meany := Rsum (map snd obs) / INR (length obs) in
  let dx := map (fun o : R * R => fst o - meanx) obs in
  let dy := map (fun o : R * R => snd o - meany) obs in
  0 < dot dx dx -> 0 < dot dy dy ->
  exists r,
    nancorr_pair obs = Fin r /\ -1 <= r <= 1
    /\ (0 < dot dx dy -> 0 < r) /\ (dot dx dy < 0 -> r < 0).
Proof.
  intros meanx meany dx dy Hxx Hyy.
  assert (Hne : (length obs <? 1)%nat = false).
  { destruct obs as [|o t]; [| reflexivity].
    exfalso. unfold dx in Hxx. cbn in Hxx. lra. }
  assert (Hprod : 0 < dot dx dx * dot dy dy) by (apply Rmult_lt_0_compat; assumption).
  assert (Hs : 0 < sqrt (dot dx dx * dot dy dy)) by (apply sqrt_lt_R0; exact Hprod).
  assert (Heq : nancorr_pair obs
                = Fin (dot dx dy / sqrt (dot dx dx * dot dy dy))).
  { unfold nancorr_pair. rewrite Hne.
    rewrite !(Rsum_map_mul _ _ obs).
    fold meanx meany. fold dx dy.
    destruct (Req_dec_T (sqrt (dot dx dx * dot dy dy)) 0) as [H0 | _];
      [lra | reflexivity]. }
  exists (dot dx dy / sqrt (dot dx dx * dot dy dy)).
  split; [exact Heq |]. split.
  - destruct (nancorr_pair_range obs) as [Hn | [r [Hr Hrange]]].
    + rewrite Heq in Hn. discriminate.
    + rewrite Heq in Hr. apply Fin_inj in Hr. rewrite Hr. exact Hrange.
  - split; intros Hc.
    + apply Rdiv_lt_0_compat; assumption.
    + pose proof (Rinv_0_lt_compat _ Hs) as Hi. unfold Rdiv. nra.
Qed.

Lemma pairwise_obs_In (xi yi : nat) (rs : list (list float))
    (cells : list float) (x y : R) :
  In cells rs -> cell xi cells = Fin x -> cell yi cells = Fin y ->
  In (x, y) (pairwise_obs xi yi rs).
Proof.
  intros Hin Hx Hy. unfold pairwise_obs. apply in_flat_map.
  exists cells. split; [exact Hin |]. rewrite Hx, Hy. left. reflexivity.
Qed.

(** Two observations that differ in each coordinate make the entry a
    number. *)
Lemma nancorr_pair_defined (obs : list (R * R)) (a b c d : R * R) :
  In a obs -> In b obs -> fst a <> fst b ->
  In c obs -> In d obs -> snd c <> snd d ->
  exists r, nancorr_pair obs = Fin r /\ -1 <= r <= 1.
Proof.
  intros Ha Hb Hab Hc Hd Hcd.
  destruct (nancorr_pair_sign obs) as [r [Hr [Hrange _]]].
  - apply (dot_deviations_pos fst _ obs a b); assumption.
  - apply (dot_deviations_pos snd _ obs c d); assumption.
  - exists r. split; assumption.
Qed.

(** *** Ranks *)

Lemma fltb_below (u : float) (a b : R) :
  fltb u (Fin a) = true -> a < b -> fltb u (Fin b) = true.
Proof.
  destruct u as [r | | |]; cbn [fltb]; try discriminate; try reflexivity.
  destruct (Rlt_dec r a); [| discriminate]. intros _ Hab.
  destruct (Rlt_dec r b); [reflexivity | lra].
Qed.

Lemma feqb_below (u : float) (a b : R) :
  feqb u (Fin a) = true -> a < b -> fltb u (Fin b) = true.
Proof.
  destruct u as [r | | |]; cbn [feqb fltb]; try discriminate.
  destruct (Req_dec_T r a); [| discriminate]. intros _ Hab.
  destruct (Rlt_dec r b); [reflexivity | lra].
Qed.

Lemma fltb_not_feqb (u : float) (a : R) :
  fltb u (Fin a) = true -> feqb u (Fin a) = false.
Proof.
  destruct u as [r | | |]; cbn [feqb fltb]; try discriminate; try reflexivity.
  destruct (Rlt_dec r a); [| discriminate]. intros _.
  destruct (Req_dec_T r a); [lra | reflexivity].
Qed.

Lemma count_below (col : list float) (a b : R) :
  a < b ->
  (length (filter (fun u => fltb u (Fin a)) col)
   + length (filter (fun u => feqb u (Fin a)) col)
   <= length (filter (fun u => fltb u (Fin b)) col))%nat.
Proof.
  intros Hab. induction col as [|u col IH]; [simpl; lia |].
  cbn [filter].
  destruct (fltb u (Fin a)) eqn:Hlt.
  - rewrite (fltb_not_feqb u a Hlt), (fltb_below u a b Hlt Hab).
    cbn [length]. lia.
  - destruct (feqb u (Fin a)) eqn:Heq.
    + rewrite (feqb_below u a b Heq Hab). cbn [length]. lia.
    + destruct (fltb u (Fin b)); cbn [length]; lia.
Qed.

Lemma filter_length_pos {A : Type} (p : A -> bool) (l : list A) (x : A) :
  In x l -> p x = true -> (1 <= length (filter p l))%nat.
Proof.
  intros Hin Hp.
  assert (Hf : In x (filter p l)) by (apply filter_In; split; assumption).
  destruct (filter p l); [contradiction | simpl; lia].
Qed.

(** A larger value of a column has a larger rank. *)
Lemma rank_of_lt (col : list float) (a b : R) :
  a < b -> In (Fin a) col -> In (Fin b) col ->
  rank_of col (Fin a) < rank_of col (Fin b).
Proof.
  intros Hab Ha Hb. unfold rank_of.
  pose proof (count_below col a b Hab) as Hle.
  pose proof (filter_length_pos (fun u => feqb u (Fin a)) col (Fin a) Ha
                (feqb_Fin_refl a)) as Hea.
  pose proof (filter_length_pos (fun u => feqb u (Fin b)) col (Fin b) Hb
                (feqb_Fin_refl b)) as Heb.
  apply le_INR in Hle. rewrite plus_INR in Hle.
  apply le_INR in Hea. apply le_INR in Heb.
  change (INR 1) with 1 in Hea, Heb. lra.
Qed.

Lemma rank_variance_pos (col : list float) (a b : R) :
  In (Fin a) col -> In (Fin b) col -> a <> b ->
  0 < dot (centered (rankdata col)) (centered (rankdata col)).
Proof.
  intros Ha Hb Hab.
  apply (dot_centered_pos _ (rank_of col (Fin a)) (rank_of col (Fin b))).
  - unfold rankdata. apply (in_map (rank_of col)). exact Ha.
  - unfold rankdata. apply (in_map (rank_of col)). exact Hb.
  - destruct (Rlt_dec a b) as [Hlt | Hge].
    + pose proof (rank_of_lt col a b Hlt Ha Hb). lra.
    + assert (Hlt : b < a) by lra.
      pose proof (rank_of_lt col b a Hlt Hb Ha). lra.
Qed.

Lemma is_constant_false (col : list float) (a b : R) :
  In (Fin a) col -> In (Fin b) col -> a <> b -> is_constant col = false.
Proof.
  intros Ha Hb Hab. destruct col as [|h t]; [contradiction |].
  unfold is_constant. apply not_true_is_false. intros Hall.
  rewrite forallb_forall in Hall.
  pose proof (Hall _ Ha) as H1. pose proof (Hall _ Hb) as H2.
  destruct h as [r | | |]; cbn [feqb] in H1, H2; try discriminate.
  destruct (Req_dec_T r a); [| discriminate].
  destruct (Req_dec_T r b); [| discriminate]. lra.
Qed.

(** *** [np.corrcoef] *)

Lemma corrcoef_entry_sign (n_obs : nat) (xi xj : list R) :
  (2 <= n_obs)%nat ->
  0 < dot (centered xi) (centered xi) ->
  0 < dot (centered xj) (centered xj) ->
  exists r,
    corrcoef_entry n_obs xi xj = Fin r /\ -1 <= r <= 1
    /\ (0 < dot (centered xi) (centered xj) -> 0 < r)
    /\ (dot (centered xi) (centered xj) < 0 -> r < 0).
Proof.
  intros Hn Hii Hjj.
  assert (H1 : 1 < INR n_obs).
  { replace 1 with (INR 1) by reflexivity. apply lt_INR. lia. }
  assert (Hk : 0 < 1 / (INR n_obs - 1)) by (apply Rdiv_lt_0_compat; lra).
  set (k := 1 / (INR n_obs - 1)) in *.
  set (dii := dot (centered xi) (centered xi)) in *.
  set (djj := dot (centered xj) (centered xj)) in *.
  set (dij := dot (centered xi) (centered xj)).
  assert (Hsi : 0 < sqrt (dii * k))
    by (apply sqrt_lt_R0, Rmult_lt_0_compat; assumption).
  assert (Hsj : 0 < sqrt (djj * k))
    by (apply sqrt_lt_R0, Rmult_lt_0_compat; assumption).
  set (q := dij * k / sqrt (dii * k) / sqrt (djj * k)).
  assert (Heq : corrcoef_entry n_obs xi xj = clip (Fin q)).
  { unfold corrcoef_entry. rewrite !stddev_Fin by exact Hn.
    rewrite cov_entry_Fin by exact Hn.
    fold k. fold dii djj dij.
    rewrite !fdiv_Fin by lra. reflexivity. }
  assert (Hpos : 0 < dij -> 0 < q).
  { intros Hc. unfold q.
    apply Rdiv_lt_0_compat; [| exact Hsj].
    apply Rdiv_lt_0_compat; [| exact Hsi].
    apply Rmult_lt_0_compat; assumption. }
  assert (Hneg : dij < 0 -> q < 0).
  { intros Hc.
    assert (Hq : 0 < - dij * k / sqrt (dii * k) / sqrt (djj * k)).
    { apply Rdiv_lt_0_compat; [| exact Hsj].
      apply Rdiv_lt_0_compat; [| exact Hsi].
      apply Rmult_lt_0_compat; lra. }
    unfold q.
    replace (dij * k / sqrt (dii * k) / sqrt (djj * k))
      with (- (- dij * k / sqrt (dii * k) / sqrt (djj * k)))
      by (field; split; lra).
    lra. }
  rewrite Heq. unfold clip, fltb.
  destruct (Rlt_dec q (-1)) as [Hlow | Hlow].
  - exists (-1). split; [reflexivity |]. split; [lra |].
    split; intros Hc; [specialize (Hpos Hc) |]; lra.
  - destruct (Rlt_dec 1 q) as [Hhigh | Hhigh].
    + exists 1. split; [reflexivity |]. split; [lra |].
      split; intros Hc; [| specialize (Hneg Hc)]; lra.
    + exists q. split; [reflexivity |]. split; [lra |].
      split; assumption.
Qed.

End DefinedEntries.

(** ** The correlation matrix *)

Section CorrelationMatrix.
Import Frame CorrelationAnalysis.

Lemma nth_repeat_lt {A : Type} (v d : A) (k j : nat) :
  (j < k)%nat -> nth j (repeat v k) d = v.
Proof.
  intros H. rewrite (nth_indep _ d v) by (rewrite repeat_length; exact H).
  apply nth_repeat.
Qed.

Lemma of_scalar_entry (v : float) (labels : list string) (i j : nat) :
  (i < length labels)%nat -> (j < length labels)%nat ->
  entry (of_scalar v labels) i j = v.
Proof.
  intros Hi Hj. unfold entry, of_scalar. cbn [rows].
  rewrite map_map. cbn [snd].
  rewrite (nth_indep _ [] (repeat v (length labels)))
    by (rewrite length_map; exact Hi).
  rewrite (map_nth (fun _ => repeat v (length labels)) labels EmptyString).
  unfold cell. apply nth_repeat_lt. exact Hj.
Qed.

Lemma of_scalar_square (v : float) (labels : list string) :
  Spec.square_over labels (of_scalar v labels).
Proof.
  unfold Spec.square_over, of_scalar. cbn [columns rows]. repeat split.
  - rewrite map_map. cbn [fst]. apply map_id.
  - apply Forall_forall. intros r Hr. apply in_map_iff in Hr.
    destruct Hr as [l [<- _]]. cbn [snd]. apply repeat_length.
Qed.

Lemma of_matrix_square (f : nat -> nat -> float) (labels : list string) :
  let k := length labels in
  Spec.square_over labels
    (of_matrix (map (fun i => map (fun j => f i j) (seq 0 k)) (seq 0 k))
               labels).
Proof.
  intros k. unfold Spec.square_over, of_matrix. cbn [columns rows].
  assert (Hlen : length labels
                 = length (map (fun i => map (fun j => f i j) (seq 0 k))
                               (seq 0 k)))
    by (rewrite length_map, length_seq; reflexivity).
  repeat split.
  - apply map_fst_combine. exact Hlen.
  - apply Forall_forall. intros r Hr.
    apply (in_map snd) in Hr. rewrite map_snd_combine in Hr by exact Hlen.
    apply in_map_iff in Hr. destruct Hr as [i [<- _]].
    rewrite length_map, length_seq. reflexivity.
Qed.

(** A frame whose entries are given by a symmetric function with
    values in range. *)
Lemma invariants_of_entries (k : nat) (m : DataFrame string)
    (f : nat -> nat -> float) :
  (forall i j, (i < k)%nat -> (j < k)%nat -> entry m i j = f i j) ->
  (forall i j, f i j = f j i) ->
  (forall i j, f i j = NaN \/ exists r, f i j = Fin r /\ -1 <= r <= 1) ->
  Spec.symmetric k m /\ Spec.within_unit_interval k m.
Proof.
  intros He Hs Hr. split.
  - intros i j Hi Hj. rewrite !He by assumption. apply Hs.
  - intros i j Hi Hj. rewrite He by assumption. apply Hr.
Qed.

Context {I : Type}.

Lemma pearson_invariants (df : DataFrame I) :
  let k := length (columns df) in
  Spec.square_over (columns df) (corr_pearson df)
  /\ Spec.symmetric k (corr_pearson df)
  /\ Spec.within_unit_interval k (corr_pearson df)
  /\ (forall i, (i < k)%nat ->
                entry (corr_pearson df) i i = Fin 1
                \/ entry (corr_pearson df) i i = NaN).
Proof.
  intros k.
  split; [apply (of_matrix_square (nancorr_entry (map snd (rows df)))) |].
  destruct (invariants_of_entries k (corr_pearson df)
              (nancorr_entry (map snd (rows df)))) as [Hs Hr].
  - intros i j Hi Hj. apply corr_pearson_entry; assumption.
  - intros i j. unfold nancorr_entry.
    rewrite Nat.max_comm, Nat.min_comm. reflexivity.
  - intros i j. apply nancorr_pair_range.
  - split; [exact Hs |]. split; [exact Hr |].
    intros i Hi. rewrite corr_pearson_entry by assumption.
    unfold nancorr_entry. rewrite Nat.max_id, Nat.min_id.
    destruct (nancorr_pair_diagonal _ (pairwise_obs_diagonal i (map snd (rows df))))
      as [-> | ->]; [right | left]; reflexivity.
Qed.

Lemma corrcoef_table (n_obs k : nat) (g : nat -> list R) :
  corrcoef n_obs (map g (seq 0 k))
  = map (fun i => map (fun j => corrcoef_entry n_obs (g i) (g j)) (seq 0 k))
        (seq 0 k).
Proof. unfold corrcoef. rewrite map_map. apply map_ext. intros i. apply map_map. Qed.

Lemma spearman_invariants (df : DataFrame I) :
  let k := length (columns df) in
  (2 <= k)%nat ->
  exists m,
    calculate_correlation df spearman = Done m
    /\ Spec.square_over (columns df) m
    /\ Spec.symmetric k m
    /\ Spec.within_unit_interval k m
    /\ ((3 <= k)%nat ->
        forall i, (i < k)%nat -> entry m i i = Fin 1 \/ entry m i i = NaN).
Proof.
  intros k Hk.
  assert (Hscalar : forall v,
             (v = NaN \/ exists r, v = Fin r /\ -1 <= r <= 1) ->
             Spec.square_over (columns df) (of_scalar v (columns df))
             /\ Spec.symmetric k (of_scalar v (columns df))
             /\ Spec.within_unit_interval k (of_scalar v (columns df))).
  { intros v Hv. split; [apply of_scalar_square |].
    apply (invariants_of_entries k _ (fun _ _ => v)).
    - intros i j Hi Hj. apply of_scalar_entry; assumption.
    - reflexivity.
    - intros _ _. exact Hv. }
  assert (Hnan : forall i, (i < k)%nat ->
             entry (of_scalar NaN (columns df)) i i = Fin 1
             \/ entry (of_scalar NaN (columns df)) i i = NaN).
  { intros i Hi. right. apply of_scalar_entry; exact Hi. }
  unfold calculate_correlation.
  destruct (empty (dropna df)).
  { exists (of_scalar NaN (columns df)). split; [reflexivity |].
    destruct (Hscalar NaN (or_introl eq_refl)) as (H1 & H2 & H3).
    split; [exact H1 | split; [exact H2 | split; [exact H3 |]]].
    intros _. exact Hnan. }
  unfold spearmanr. cbn [columns dropna]. fold k.
  set (a := map snd (rows (dropna df))).
  destruct (Nat.leb_spec (length a) 1) as [Hn | Hn].
  { exists (of_scalar NaN (columns df)). split; [reflexivity |].
    destruct (Hscalar NaN (or_introl eq_refl)) as (H1 & H2 & H3).
    split; [exact H1 | split; [exact H2 | split; [exact H3 |]]].
    intros _. exact Hnan. }
  destruct (Nat.ltb_spec k 2) as [Hk2 | _]; [lia |].
  destruct (is_constant (map (cell 0) a) || is_constant (map (cell 1) a)).
  { exists (of_scalar NaN (columns df)). split; [reflexivity |].
    destruct (Hscalar NaN (or_introl eq_refl)) as (H1 & H2 & H3).
    split; [exact H1 | split; [exact H2 | split; [exact H3 |]]].
    intros _. exact Hnan. }
  set (g := fun j => rankdata (map (cell j) a)).
  change (map (fun j => rankdata (map (cell j) a)) (seq 0 k))
    with (map g (seq 0 k)).
  rewrite corrcoef_table.
  destruct (Nat.eqb_spec k 2) as [Hk2 | Hk2].
  - rewrite nth_map_seq by lia.
    unfold cell at 1. rewrite nth_map_seq by lia.
    eexists. split; [reflexivity |].
    destruct (Hscalar (corrcoef_entry (length a) (g 1%nat) (g 0%nat))
                (corrcoef_entry_range _ _ _)) as (H1 & H2 & H3).
    split; [exact H1 | split; [exact H2 | split; [exact H3 |]]].
    intros H3k. lia.
  - eexists. split; [reflexivity |].
    split; [apply (of_matrix_square
                     (fun i j => corrcoef_entry (length a) (g i) (g j))) |].
    assert (He : forall i j, (i < k)%nat -> (j < k)%nat ->
               entry (of_matrix
                        (map (fun i => map (fun j =>
                           corrcoef_entry (length a) (g i) (g j)) (seq 0 k))
                           (seq 0 k)) (columns df)) i j
               = corrcoef_entry (length a) (g i) (g j)).
    { intros i j Hi Hj.
      apply (of_matrix_entry
               (fun i j => corrcoef_entry (length a) (g i) (g j)));
        assumption. }
    destruct (invariants_of_entries k _ _ He) as [Hs Hr].
    + intros i j. apply corrcoef_entry_symmetric. lia.
    + intros i j. apply corrcoef_entry_range.
    + split; [exact Hs |]. split; [exact Hr |].
      intros _ i Hi. rewrite He by assumption.
      apply corrcoef_entry_diagonal. lia.
Qed.

(** *** Frames without a missing cell *)

Lemma cell_finite (cells : list float) (j : nat) :
  Forall (fun x => is_finite x = true) cells -> (j < length cells)%nat ->
  exists v, cell j cells = Fin v.
Proof.
  intros H Hj. unfold cell. pose proof (nth_In cells NaN Hj) as Hin.
  rewrite Forall_forall in H. specialize (H _ Hin).
  destruct (nth j cells NaN) as [v | | |]; try discriminate.
  exists v. reflexivity.
Qed.

Lemma all_finite_cell (df : DataFrame I) (r : I * list float) (j : nat) :
  Describe.all_finite df -> In r (rows df) ->
  (j < length (columns df))%nat ->
  exists v, cell j (snd r) = Fin v.
Proof.
  intros Hfin Hr Hj. unfold Describe.all_finite in Hfin.
  rewrite Forall_forall in Hfin. destruct (Hfin r Hr) as [Hlen Hall].
  apply cell_finite; [exact Hall | rewrite Hlen; exact Hj].
Qed.

Lemma finite_cells_complete (cells : list float) :
  Forall (fun x => is_finite x = true) cells -> complete cells = true.
Proof.
  intros H. apply complete_spec. eapply Forall_impl; [| exact H].
  intros x Hx. destruct x; try discriminate; reflexivity.
Qed.

Lemma all_finite_dropna (df : DataFrame I) :
  Describe.all_finite df -> dropna df = df.
Proof.
  intros Hfin. destruct df as [labels rs]. unfold dropna. cbn [columns rows].
  f_equal. unfold Describe.all_finite in Hfin. cbn [rows columns] in Hfin.
  induction Hfin as [|r t [_ Hr] _ IH]; [reflexivity |].
  cbn [filter]. rewrite (finite_cells_complete _ Hr), IH. reflexivity.
Qed.

Lemma column_value (df : DataFrame I) (j : nat) (r : I * list float) (x : R) :
  In r (rows df) -> cell j (snd r) = Fin x ->
  In (Fin x) (map (cell j) (map snd (rows df))).
Proof.
  intros Hr Hx. rewrite <- Hx. apply in_map. apply in_map. exact Hr.
Qed.

Lemma two_members_length {A : Type} (l : list A) (x y : A) :
  In x l -> In y l -> x <> y -> (2 <= length l)%nat.
Proof.
  intros Hx Hy Hxy. destruct l as [|a [|b t]].
  - contradiction.
  - destruct Hx as [<- | []], Hy as [<- | []]. congruence.
  - simpl. lia.
Qed.

Lemma varying_rows (df : DataFrame I) (gap : R) (j : nat) :
  Describe.varies_by gap df j -> (2 <= length (map snd (rows df)))%nat.
Proof.
  intros (r1 & r2 & x & y & Hr1 & Hr2 & Hx & Hy & Hxy & _).
  apply (two_members_length _ (snd r1) (snd r2)).
  - apply in_map. exact Hr1.
  - apply in_map. exact Hr2.
  - intros E. rewrite E, Hy in Hx. apply Fin_inj in Hx. congruence.
Qed.

Lemma varying_column (df : DataFrame I) (gap : R) (j : nat) :
  Describe.varies_by gap df j ->
  exists x y, In (Fin x) (map (cell j) (map snd (rows df)))
              /\ In (Fin y) (map (cell j) (map snd (rows df))) /\ x <> y.
Proof.
  intros (r1 & r2 & x & y & Hr1 & Hr2 & Hx & Hy & Hxy & _).
  exists x, y. split; [| split; [| exact Hxy]].
  - apply (column_value df j r1); assumption.
  - apply (column_value df j r2); assumption.
Qed.

(** Pearson: on a frame without a missing cell in which every column
    varies, every entry is a number. *)
Lemma pearson_defined (df : DataFrame I) (gap : R) :
  let k := length (columns df) in
  Describe.all_finite df ->
  (forall j, (j < k)%nat -> Describe.varies_by gap df j) ->
  forall i j, (i < k)%nat -> (j < k)%nat ->
    exists r, entry (corr_pearson df) i j = Fin r /\ -1 <= r <= 1.
Proof.
  intros k Hfin Hvar i j Hi Hj.
  rewrite corr_pearson_entry by assumption. unfold nancorr_entry.
  set (xi := Nat.max i j). set (yi := Nat.min i j).
  assert (Hxi : (xi < k)%nat) by (unfold xi; lia).
  assert (Hyi : (yi < k)%nat) by (unfold yi; lia).
  destruct (Hvar xi Hxi) as (r1 & r2 & x1 & x2 & Hr1 & Hr2 & Hx1 & Hx2 & Hx & _).
  destruct (all_finite_cell df r1 yi Hfin Hr1 Hyi) as [y1 Hy1].
  destruct (all_finite_cell df r2 yi Hfin Hr2 Hyi) as [y2 Hy2].
  destruct (Hvar yi Hyi) as (r3 & r4 & y3 & y4 & Hr3 & Hr4 & Hy3 & Hy4 & Hy & _).
  destruct (all_finite_cell df r3 xi Hfin Hr3 Hxi) as [x3 Hx3].
  destruct (all_finite_cell df r4 xi Hfin Hr4 Hxi) as [x4 Hx4].
  apply (nancorr_pair_defined _ (x1, y1) (x2, y2) (x3, y3) (x4, y4));
    try (cbn [fst snd]; assumption).
  - apply (pairwise_obs_In xi yi _ (snd r1));
      [apply in_map; assumption | assumption | assumption].
  - apply (pairwise_obs_In xi yi _ (snd r2));
      [apply in_map; assumption | assumption | assumption].
  - apply (pairwise_obs_In xi yi _ (snd r3));
      [apply in_map; assumption | assumption | assumption].
  - apply (pairwise_obs_In xi yi _ (snd r4));
      [apply in_map; assumption | assumption | assumption].
Qed.

(** Spearman: with at least two complete rows, and a first and a
    second column that are not constant on them, the entries are
    those of [np.corrcoef] on the ranks of the complete rows; for two
    assets the one coefficient fills the frame. *)
Lemma spearman_entries (df : DataFrame I) :
  let k := length (columns df) in
  let a := map snd (rows (dropna df)) in
  let g := fun j => rankdata (map (cell j) a) in
  (2 <= k)%nat -> (2 <= length a)%nat ->
  is_constant (map (cell 0) a) = false ->
  is_constant (map (cell 1) a) = false ->
  exists m,
    calculate_correlation df spearman = Done m
    /\ forall i j, (i < k)%nat -> (j < k)%nat ->
         entry m i j
         = if (k =? 2)%nat
           then corrcoef_entry (length a) (g 1%nat) (g 0%nat)
           else corrcoef_entry (length a) (g i) (g j).
Proof.
  intros k a g Hk Ha Hc0 Hc1.
  unfold calculate_correlation.
  assert (Hne : empty (dropna df) = false).
  { unfold empty. cbn [columns dropna]. fold k.
    destruct (columns df) as [|c cs] eqn:Ec; [simpl in k; unfold k in Hk; simpl in Hk; lia |].
    fold a in Ha. unfold a in Ha. rewrite length_map in Ha.
    destruct (rows (dropna df)); [simpl in Ha; lia | reflexivity]. }
  rewrite Hne.
  unfold spearmanr. cbn [columns dropna]. fold k. fold a.
  destruct (Nat.leb_spec (length a) 1) as [Hn | _]; [lia |].
  destruct (Nat.ltb_spec k 2) as [Hk2 | _]; [lia |].
  rewrite Hc0, Hc1. cbn [orb].
  change (map (fun j => rankdata (map (cell j) a)) (seq 0 k))
    with (map g (seq 0 k)).
  rewrite corrcoef_table.
  destruct (Nat.eqb_spec k 2) as [Hk2 | Hk2].
  - rewrite nth_map_seq by lia.
    unfold cell at 1. rewrite nth_map_seq by lia.
    eexists. split; [reflexivity |].
    intros i j Hi Hj. apply of_scalar_entry; assumption.
  - eexists. split; [reflexivity |].
    intros i j Hi Hj.
    apply (of_matrix_entry
             (fun i j => corrcoef_entry (length a) (g i) (g j)));
      assumption.
Qed.

Lemma spearman_defined (df : DataFrame I) (gap : R) :
  let k := length (columns df) in
  (2 <= k)%nat -> Describe.all_finite df ->
  (forall j, (j < k)%nat -> Describe.varies_by gap df j) ->
  exists m,
    calculate_correlation df spearman = Done m
    /\ forall i j, (i < k)%nat -> (j < k)%nat ->
         exists r, entry m i j = Fin r /\ -1 <= r <= 1.
Proof.
  intros k Hk Hfin Hvar.
  pose proof (all_finite_dropna df Hfin) as Hdrop.
  assert (Hcol : forall j, (j < k)%nat ->
            exists x y,
              In (Fin x) (map (cell j) (map snd (rows (dropna df))))
              /\ In (Fin y) (map (cell j) (map snd (rows (dropna df))))
              /\ x <> y).
  { intros j Hj. rewrite Hdrop. apply (varying_column df gap j), Hvar, Hj. }
  assert (Hrows : (2 <= length (map snd (rows (dropna df))))%nat).
  { rewrite Hdrop. apply (varying_rows df gap 0), Hvar. lia. }
  assert (Hvariance : forall j, (j < k)%nat ->
            0 < dot (centered (rankdata
                       (map (cell j) (map snd (rows (dropna df))))))
                    (centered (rankdata
                       (map (cell j) (map snd (rows (dropna df))))))).
  { intros j Hj. destruct (Hcol j Hj) as (x & y & Hx & Hy & Hxy).
    apply (rank_variance_pos _ x y); assumption. }
  destruct (spearman_entries df Hk Hrows) as (m & Hm & Hentries).
  - destruct (Hcol 0%nat ltac:(lia)) as (x & y & Hx & Hy & Hxy).
    apply (is_constant_false _ x y); assumption.
  - destruct (Hcol 1%nat ltac:(lia)) as (x & y & Hx & Hy & Hxy).
    apply (is_constant_false _ x y); assumption.
  - exists m. split; [exact Hm |]. intros i j Hi Hj.
    rewrite (Hentries i j Hi Hj). fold k.
    destruct (k =? 2)%nat.
    + destruct (corrcoef_entry_sign _ _ _ Hrows
                  (Hvariance 1%nat ltac:(lia)) (Hvariance 0%nat ltac:(lia)))
        as (r & Hr & Hrange & _).
      exists r. split; assumption.
    + destruct (corrcoef_entry_sign _ _ _ Hrows
                  (Hvariance i Hi) (Hvariance j Hj))
        as (r & Hr & Hrange & _).
      exists r. split; assumption.
Qed.

Lemma near_refl (x : R) : Spec.near x x.
Proof.
  unfold Spec.near, Spec.tolerance.
  replace (x - x) with 0 by ring. rewrite Rabs_R0. lra.
Qed.

Lemma symmetric_within_of_exact (k : nat) (m : DataFrame string) :
  Spec.symmetric k m -> Spec.within_unit_interval k m ->
  Spec.symmetric_within k m.
Proof.
  intros Hs Hr i j Hi Hj.
  destruct (Hr i j Hi Hj) as [Hn | [r [Hv _]]].
  - left. split; [exact Hn |]. rewrite <- (Hs i j Hi Hj). exact Hn.
  - right. exists r, r. split; [exact Hv |].
    split; [rewrite <- (Hs i j Hi Hj); exact Hv | apply near_refl].
Qed.

Lemma diagonal_near_one (m : DataFrame string) (i : nat) :
  entry m i i = Fin 1 \/ entry m i i = NaN ->
  entry m i i = NaN \/ exists r, entry m i i = Fin r /\ Spec.near r 1.
Proof.
  intros [H | H]; [right | left; exact H].
  exists 1. split; [exact H | apply near_refl].
Qed.

Lemma defined_of_numbers (k : nat) (m : DataFrame string) :
  (forall i j, (i < k)%nat -> (j < k)%nat ->
               exists r, entry m i j = Fin r /\ -1 <= r <= 1) ->
  Spec.defined k m /\ Spec.nearly_within_unit_interval k m.
Proof.
  intros H. split; intros i j Hi Hj;
    destruct (H i j Hi Hj) as (r & Hr & Hrange).
  - rewrite Hr. reflexivity.
  - right. exists r. split; [exact Hr |]. unfold Spec.tolerance. lra.
Qed.

(** C2 (as amended).  For a frame of at least two assets and either
    method the result is a frame labelled by the assets on both axes
    with one cell per asset in every row.  It is symmetric within the
    tolerance of 1e-9, with the same undefined entries on both sides,
    and exactly symmetric for Pearson and for two assets.  For
    Spearman every entry is undefined or lies in [[-1, 1]] and, with
    at least three assets, every diagonal entry is undefined or
    within the tolerance of 1.  For Pearson on cells of moderate size
    every diagonal entry is exactly 1 or undefined.  On ordinary
    quotes (at most 500 rows of moderate numbers, none missing, every
    column varying by a percent) every entry is a number within the
    tolerance of [[-1, 1]]. *)
Theorem correlation_matrix_invariants (df : DataFrame I) (method : Method) :
  let k := length (columns df) in
  (2 <= k)%nat ->
  exists m,
    calculate_correlation df method = Done m
    /\ Spec.square_over (columns df) m
    /\ Spec.symmetric_within k m
    /\ (method = pearson \/ k = 2%nat -> Spec.symmetric k m)
    /\ (method = spearman -> Spec.within_unit_interval k m)
    /\ (method = spearman -> (3 <= k)%nat ->
        forall i, (i < k)%nat ->
          entry m i i = NaN
          \/ exists r, entry m i i = Fin r /\ Spec.near r 1)
    /\ (method = pearson -> Describe.moderate_frame df ->
        forall i, (i < k)%nat -> entry m i i = Fin 1 \/ entry m i i = NaN)
    /\ (Describe.ordinary_quotes df ->
        Spec.defined k m /\ Spec.nearly_within_unit_interval k m).
Proof.
  intros k Hk. destruct method.
  - exists (corr_pearson df). split; [reflexivity |].
    destruct (pearson_invariants df) as (H1 & H2 & H3 & H4).
    split; [exact H1 |].
    split; [apply symmetric_within_of_exact; assumption |].
    split; [intros _; exact H2 |].
    split; [discriminate |]. split; [discriminate |].
    split; [intros _ _; exact H4 |].
    intros (_ & Hfin & _ & Hvar).
    apply defined_of_numbers. apply (pearson_defined df (1 / 100) Hfin Hvar).
  - destruct (spearman_invariants df Hk) as (m & H0 & H1 & H2 & H3 & H4).
    exists m. split; [exact H0 |]. split; [exact H1 |].
    split; [apply symmetric_within_of_exact; assumption |].
    split; [intros _; exact H2 |].
    split; [intros _; exact H3 |].
    split; [intros _ H3k i Hi; apply diagonal_near_one, (H4 H3k i Hi) |].
    split; [discriminate |].
    intros (_ & Hfin & _ & Hvar).
    destruct (spearman_defined df (1 / 100) Hk Hfin Hvar) as (m' & Hm' & Hdef).
    rewrite H0 in Hm'. injection Hm' as <-.
    apply defined_of_numbers. exact Hdef.
Qed.

End CorrelationMatrix.

Section CorrelationExamples.
Import Frame CorrelationAnalysis.

Lemma correlation_matrix_invariants_witness :
  exists m,
    calculate_correlation SampleFrames.with_constant pearson = Done m
    /\ Spec.square_over ["A"; "B"]%string m
    /\ Spec.symmetric_within 2 m.
Proof.
  destruct (correlation_matrix_invariants SampleFrames.with_constant pearson)
    as (m & Hm & Hsquare & Hsym & _).
  - simpl. lia.
  - exists m. split; [exact Hm |]. split; [exact Hsquare | exact Hsym].
Defined.

(** C2 as stated fails: the Pearson entry of a constant asset with
    itself has a zero divisor and is NaN, not 1.0. *)
Lemma constant_asset_diagonal_undefined :
  exists m,
    calculate_correlation SampleFrames.with_constant pearson = Done m
    /\ entry m 0 0 = NaN
    /\ entry m 0 0 <> Fin 1.
Proof.
  exists (corr_pearson SampleFrames.with_constant).
  split; [reflexivity |].
  assert (H : entry (corr_pearson SampleFrames.with_constant) 0 0 = NaN).
  { rewrite corr_pearson_entry by (simpl; lia).
    unfold nancorr_entry, nancorr_pair.
    cbn [Nat.max Nat.min SampleFrames.with_constant rows map snd pairwise_obs
         flat_map cell nth app length Nat.ltb Nat.leb fst].
    match goal with
    | |- context [Req_dec_T (sqrt ?x) 0] =>
        replace x with 0 by (unfold Rsum; cbn; field)
    end.
    rewrite sqrt_0. destruct (Req_dec_T 0 0); [reflexivity | congruence]. }
  rewrite H. split; [reflexivity | discriminate].
Qed.

(** For two assets [spearmanr] returns the single coefficient and the
    page lays it out over the whole frame: the diagonal holds the
    coefficient of the pair, here 1/2. *)
Lemma spearman_two_assets_fills_with_rho :
  calculate_correlation SampleFrames.two_assets spearman
  = Done (of_scalar (Fin (1 / 2)) ["A"; "B"]%string).
Proof.
  assert (HrA : rankdata [Fin 1; Fin 2; Fin 3] = [1; 2; 3]).
  { unfold rankdata, rank_of. fl_red. repeat real_case.
    repeat (f_equal; try (cbn; lra)). }
  assert (HrB : rankdata [Fin 1; Fin 3; Fin 2] = [1; 3; 2]).
  { unfold rankdata, rank_of. fl_red. repeat real_case.
    repeat (f_equal; try (cbn; lra)). }
  assert (HcA : is_constant [Fin 1; Fin 2; Fin 3] = false).
  { fl_red. repeat real_case. reflexivity. }
  assert (HcB : is_constant [Fin 1; Fin 3; Fin 2] = false).
  { fl_red. repeat real_case. reflexivity. }
  assert (HdAA : dot (centered [1; 2; 3]) (centered [1; 2; 3])
                 * (1 / (INR 3 - 1)) = 1).
  { unfold centered, Rsum. cbn. field. }
  assert (HdBB : dot (centered [1; 3; 2]) (centered [1; 3; 2])
                 * (1 / (INR 3 - 1)) = 1).
  { unfold centered, Rsum. cbn. field. }
  assert (HdBA : dot (centered [1; 3; 2]) (centered [1; 2; 3])
                 * (1 / (INR 3 - 1)) = 1 / 2).
  { unfold centered, Rsum. cbn. field. }
  unfold calculate_correlation.
  cbn [empty dropna SampleFrames.two_assets columns rows filter complete
       forallb snd is_nan negb andb map length].
  unfold spearmanr.
  cbn [length Nat.leb Nat.ltb Nat.eqb map cell nth seq].
  rewrite HcA, HcB, HrA, HrB. cbn [orb].
  unfold corrcoef. cbn [map nth].
  unfold corrcoef_entry.
  rewrite !stddev_Fin by lia. rewrite cov_entry_Fin by lia.
  rewrite HdAA, HdBB, HdBA, sqrt_1.
  rewrite !fdiv_Fin by lra.
  assert (Hclip : clip (Fin (1 / 2 / 1 / 1)) = Fin (1 / 2)).
  { unfold clip, fltb.
    destruct (Rlt_dec (1 / 2 / 1 / 1) (-1)); [lra |].
    destruct (Rlt_dec 1 (1 / 2 / 1 / 1)); [lra |].
    f_equal. field. }
  rewrite Hclip. reflexivity.
Qed.

End CorrelationExamples.

(** ** Complete cases and pairwise rows, by their values *)

Section CompleteCases.
Import Frame CorrelationAnalysis.

Context {I : Type}.


End CompleteCases.


Section PearsonVersusSpearman.
Import Frame CorrelationAnalysis.








End PearsonVersusSpearman.

(* ################################################################# *)
(** * Further properties of the pages *)

(** ** Single-asset metrics *)

Section MetricsOfOneSeries.
Import Series.

Lemma ratio_minus_one_above (cs ps : list R) :
  Forall (fun c => 0 < c) cs -> Forall (fun p => 0 < p) ps ->
  Forall (fun d => -1 < d) (Spec.ratio_minus_one cs ps).
Proof.
  intros Hc. revert ps. induction Hc as [|c cs Hc0 _ IH]; intros ps Hp.
  - constructor.
  - destruct Hp as [|p ps Hp0 Hp]; [constructor |].
    cbn [Spec.ratio_minus_one]. constructor; [| apply IH; exact Hp].
    assert (0 < c / p) by (apply Rdiv_lt_0_compat; assumption). lra.
Qed.

Lemma minimum_above (l : list R) (b : R) :
  l <> [] -> Forall (fun d => b < d) l -> b < Spec.minimum l.
Proof.
  destruct l as [|x t]; [congruence | intros _ H].
  cbn [Spec.minimum]. inversion H as [|? ? Hx Ht]; subst.
  destruct (fold_Rmin_In t x) as [-> | Hin]; [exact Hx |].
  rewrite Forall_forall in Ht. apply Ht. exact Hin.
Qed.

(** X1.  The maximum drawdown of at least two positive prices that stay
    within a factor 1000 of each other is a number of [(-100, 0]],
    the same on the main page and on the risk page, and it is 0
    exactly when the prices after the first never decline. *)
Theorem max_drawdown_range (prices : list R) :
  Describe.within_factor 1000 prices -> (2 <= length prices)%nat ->
  exists m,
    RiskMetrics.calculate_max_drawdown (map Fin prices) = Fin m
    /\ App.calculate_max_drawdown (map Fin prices) = Fin m
    /\ -100 < m <= 0
    /\ (m = 0 <-> Spec.non_decreasing (tl prices)).
Proof.
  intros Hrange Hlen.
  pose proof (within_factor_pos _ _ Hrange) as Hpos.
  exists (Spec.max_drawdown prices).
  assert (Heq := max_drawdown_Fin prices Hpos Hlen).
  destruct (max_drawdown_characterised prices Hpos Hlen) as [Hle Hiff].
  split; [exact Heq |]. split; [exact Heq |].
  split.
  - split; [| exact Hle].
    unfold Spec.max_drawdown.
    assert (Hc : Forall (fun c => 0 < c)
                   (Spec.cumulative (Spec.returns prices))).
    { destruct prices as [|p t]; [constructor |].
      apply cumulative_from_pos; [lra | exact Hpos]. }
    destruct (peak_bounds _ Hc) as [Hp _].
    assert (Hab := ratio_minus_one_above _ _ Hc Hp).
    fold (Spec.drawdown (Spec.returns prices)) in Hab.
    assert (Hne : Spec.drawdown (Spec.returns prices) <> []).
    { intros Hnil. apply (f_equal (@length R)) in Hnil.
      unfold Spec.drawdown in Hnil.
      rewrite ratio_minus_one_length in Hnil by apply peak_length.
      unfold Spec.cumulative in Hnil.
      rewrite cumulative_from_length, returns_length in Hnil.
      simpl in Hnil. lia. }
    pose proof (minimum_above _ (-1) Hne Hab). lra.
  - rewrite <- Hiff, Heq. split; intros H.
    + rewrite H. reflexivity.
    + apply Fin_inj in H. exact H.
Qed.

Lemma max_drawdown_range_witness :
  exists m,
    RiskMetrics.calculate_max_drawdown (map Fin [100; 120; 90]) = Fin m
    /\ App.calculate_max_drawdown (map Fin [100; 120; 90]) = Fin m
    /\ -100 < m <= 0
    /\ (m = 0 <-> Spec.non_decreasing (tl [100; 120; 90])).
Proof.
  apply (max_drawdown_range [100; 120; 90]).
  - exists 90. split; [lra |]. repeat constructor; lra.
  - simpl. lia.
Defined.

(** X2.  Series that are too short.  With fewer than three points the
    Sharpe ratio is NaN; with fewer than two the maximum drawdown is
    NaN; and two positive prices within a factor 1000 of each other
    always give a drawdown of 0, also when the second is the lower
    one. *)
Theorem short_series_metrics (s : Series) (risk_free_rate : float) :
  ((length s <= 2)%nat ->
   RiskMetrics.calculate_sharpe_ratio s risk_free_rate = NaN)
  /\ ((length s <= 1)%nat -> RiskMetrics.calculate_max_drawdown s = NaN)
  /\ (forall p q, 0 < p -> 0 < q -> p <= 1000 * q -> q <= 1000 * p ->
      s = [Fin p; Fin q] ->
      RiskMetrics.calculate_max_drawdown s = Fin 0).
Proof.
  split; [apply sharpe_short_series |]. split.
  - intros H. destruct s as [|x [|y t]]; [reflexivity | | simpl in H; lia].
    apply max_drawdown_single.
  - intros p q Hp Hq _ _ ->.
    apply (max_drawdown_characterised [p; q]).
    + repeat constructor; assumption.
    + simpl. lia.
    + exact I.
Qed.

Lemma short_series_metrics_witness :
  RiskMetrics.calculate_max_drawdown [Fin 100; Fin 40] = Fin 0.
Proof.
  refine (proj2 (proj2 (short_series_metrics [Fin 100; Fin 40] (Fin 0)))
            100 40 _ _ _ _ eq_refl); lra.
Defined.

Lemma returns_from_scaled (c prev : R) (prices : list R) :
  c <> 0 -> Forall (fun p => p <> 0) (prev :: prices) ->
  Spec.returns_from (c * prev) (map (Rmult c) prices)
  = Spec.returns_from prev prices.
Proof.
  intros Hc. revert prev. induction prices as [|p t IH]; intros prev H;
    [reflexivity |].
  inversion H as [|? ? Hprev Hrest]; subst.
  cbn [map Spec.returns_from]. rewrite IH by exact Hrest.
  f_equal. field. split; assumption.
Qed.

Lemma daily_returns_scaled (c : R) (prices : list R) :
  c <> 0 -> Forall (fun p => p <> 0) prices ->
  dropna (pct_change (map Fin (map (Rmult c) prices)))
  = dropna (pct_change (map Fin prices)).
Proof.
  intros Hc Hnz.
  assert (Hnz' : Forall (fun p => p <> 0) (map (Rmult c) prices)).
  { apply Forall_forall. intros y Hy. apply in_map_iff in Hy.
    destruct Hy as [p [<- Hp]]. rewrite Forall_forall in Hnz.
    apply Rmult_integral_contrapositive_currified; auto. }
  rewrite !daily_returns_Fin by assumption.
  destruct prices as [|p t]; [reflexivity |].
  cbn [map Spec.returns]. rewrite returns_from_scaled by assumption.
  reflexivity.
Qed.

(** X3.  The unit of the prices does not matter: multiplying every price
    by the same nonzero factor changes neither the Sharpe ratio, nor
    the maximum drawdown, nor the annualized volatility. *)
Theorem metrics_scale_invariant (c : R) (prices : list R)
    (risk_free_rate : float) :
  c <> 0 -> Forall (fun p => p <> 0) prices ->
  let scaled := map Fin (map (Rmult c) prices) in
  RiskMetrics.calculate_sharpe_ratio scaled risk_free_rate
  = RiskMetrics.calculate_sharpe_ratio (map Fin prices) risk_free_rate
  /\ RiskMetrics.calculate_max_drawdown scaled
     = RiskMetrics.calculate_max_drawdown (map Fin prices)
  /\ App.calculate_max_drawdown scaled
     = App.calculate_max_drawdown (map Fin prices)
  /\ App.annualized_volatility scaled
     = App.annualized_volatility (map Fin prices).
Proof.
  intros Hc Hnz scaled. unfold scaled.
  unfold RiskMetrics.calculate_sharpe_ratio,
    RiskMetrics.sharpe_annualized_volatility,
    RiskMetrics.calculate_max_drawdown, App.calculate_max_drawdown,
    App.annualized_volatility.
  rewrite (daily_returns_scaled c prices Hc Hnz).
  repeat split.
Qed.

Lemma metrics_scale_invariant_witness :
  RiskMetrics.calculate_sharpe_ratio
    (map Fin (map (Rmult 2) [100; 110; 99])) (Fin 0)
  = RiskMetrics.calculate_sharpe_ratio (map Fin [100; 110; 99]) (Fin 0).
Proof.
  refine (proj1 (metrics_scale_invariant 2 [100; 110; 99] (Fin 0) _ _)).
  - lra.
  - repeat constructor; lra.
Defined.

Lemma stddev_nonneg (ddof : nat) (l : list R) : 0 <= Spec.stddev ddof l.
Proof. unfold Spec.stddev. apply sqrt_pos. Qed.

(** X4.  A higher risk-free rate never gives a higher Sharpe ratio: for
    at least three positive prices within a factor 1000 of each other
    and two rates between 0 and 1, both ratios are finite and the one
    for the higher rate is not the larger. *)
Theorem sharpe_decreasing_in_risk_free_rate
    (prices : list R) (rf1 rf2 : R) :
  Describe.within_factor 1000 prices -> (3 <= length prices)%nat ->
  0 <= rf1 -> rf1 <= rf2 -> rf2 <= 1 ->
  exists s1 s2,
    RiskMetrics.calculate_sharpe_ratio (map Fin prices) (Fin rf1) = Fin s1
    /\ RiskMetrics.calculate_sharpe_ratio (map Fin prices) (Fin rf2) = Fin s2
    /\ s2 <= s1.
Proof.
  intros Hrange Hlen _ Hrf _.
  assert (Hnz : Forall (fun p => p <> 0) prices).
  { eapply Forall_impl; [| exact (within_factor_pos _ _ Hrange)].
    intros p Hp. simpl in Hp. lra. }
  destruct (Req_dec_T (Spec.stddev 1 (Spec.returns prices)) 0) as [H0 | H0].
  - exists 0, 0.
    rewrite !sharpe_zero_volatility by (try assumption; rewrite H0; lra).
    repeat split. lra.
  - exists (Spec.sharpe_ratio (Spec.returns prices) rf1),
           (Spec.sharpe_ratio (Spec.returns prices) rf2).
    rewrite !sharpe_nonzero_volatility by assumption.
    repeat split. unfold Spec.sharpe_ratio.
    pose proof (stddev_nonneg 1 (Spec.returns prices)) as Hsd.
    pose proof sqrt_252_pos as H252.
    assert (Hv : 0 < Spec.stddev 1 (Spec.returns prices) * sqrt 252)
      by (apply Rmult_lt_0_compat; lra).
    unfold Rdiv. apply Rmult_le_compat_r; [| lra].
    apply Rlt_le, Rinv_0_lt_compat. exact Hv.
Qed.

Lemma sharpe_decreasing_in_risk_free_rate_witness :
  exists s1 s2,
    RiskMetrics.calculate_sharpe_ratio (map Fin [100; 110; 99])
      (Fin (2 / 100)) = Fin s1
    /\ RiskMetrics.calculate_sharpe_ratio (map Fin [100; 110; 99])
         (Fin (4 / 100)) = Fin s2
    /\ s2 <= s1.
Proof.
  apply (sharpe_decreasing_in_risk_free_rate [100; 110; 99]
           (2 / 100) (4 / 100)).
  - exists 99. split; [lra |]. repeat constructor; lra.
  - simpl. lia.
  - lra.
  - lra.
  - lra.
Defined.

(** X5.  The volatility of the main page never exceeds a hundred times
    the volatility the Sharpe ratio divides by, and the two agree
    only when both are zero: the first takes the population
    deviation of the returns, the second the sample deviation.  For
    at least three positive prices within a factor 1000 of each
    other. *)
Theorem volatility_population_below_sample (prices : list R) :
  Describe.within_factor 1000 prices -> (3 <= length prices)%nat ->
  exists app risk,
    App.annualized_volatility (map Fin prices) = Fin app
    /\ RiskMetrics.sharpe_annualized_volatility (map Fin prices) = Fin risk
    /\ 0 <= app <= risk * 100
    /\ (app = risk * 100 -> app = 0).
Proof.
  intros Hrange Hlen.
  assert (Hnz : Forall (fun p => p <> 0) prices).
  { eapply Forall_impl; [| exact (within_factor_pos _ _ Hrange)].
    intros p Hp. simpl in Hp. lra. }
  exists (Spec.stddev 0 (Spec.returns prices) * sqrt 252 * 100),
         (Spec.stddev 1 (Spec.returns prices) * sqrt 252).
  split; [apply app_volatility_Fin; [exact Hnz | lia] |].
  split; [apply sharpe_volatility_Fin; assumption |].
  set (l := Spec.returns prices).
  assert (Hl : (2 <= length l)%nat)
    by (unfold l; rewrite returns_length; lia).
  pose proof sqrt_252_pos as H252.
  pose proof (stddev_nonneg 0 l) as H0.
  pose proof (stddev_nonneg 1 l) as H1.
  assert (Hp0 : 0 <= Spec.stddev 0 l * sqrt 252)
    by (apply Rmult_le_pos; lra).
  assert (Hp1 : 0 <= Spec.stddev 1 l * sqrt 252)
    by (apply Rmult_le_pos; lra).
  destruct (Req_dec_T (Spec.sum_sq_dev l) 0) as [Hz | Hnzs].
  - assert (Hs0 : Spec.stddev 0 l = 0).
    { unfold Spec.stddev. rewrite Hz. unfold Rdiv. rewrite Rmult_0_l.
      apply sqrt_0. }
    rewrite Hs0. split; [split; lra | intros _; lra].
  - pose proof (population_below_sample l Hl Hnzs) as Hlt.
    assert (Hstrict : Spec.stddev 0 l * sqrt 252 < Spec.stddev 1 l * sqrt 252)
      by (apply Rmult_lt_compat_r; lra).
    split; [split; lra | intros Heq; exfalso; lra].
Qed.

Lemma volatility_population_below_sample_witness :
  exists app risk,
    App.annualized_volatility (map Fin [100; 200; 100]) = Fin app
    /\ RiskMetrics.sharpe_annualized_volatility (map Fin [100; 200; 100])
       = Fin risk
    /\ 0 <= app <= risk * 100
    /\ (app = risk * 100 -> app = 0).
Proof.
  apply (volatility_population_below_sample [100; 200; 100]).
  - exists 100. split; [lra |]. repeat constructor; lra.
  - simpl. lia.
Defined.

End MetricsOfOneSeries.

(** ** The sign of the annualized return *)

Section ReturnSign.
Import Series.

(** X7.  Over a window of a positive number of days the annualized return
    of positive prices never takes the wrong sign: a gain is not
    shown as a negative number, a loss not as a positive one, and no
    change gives exactly 0. *)
Theorem annualized_return_sign
    (first_price last_price : R) (start_date end_date : Z) :
  0 < first_price -> 0 < last_price -> (start_date < end_date)%Z ->
  let a := RiskMetrics.annualized_return (Fin first_price) (Fin last_price)
             start_date end_date in
  (first_price <= last_price -> fltb a (Fin 0) = false)
  /\ (last_price <= first_price -> fltb (Fin 0) a = false)
  /\ (first_price = last_price -> a = Fin 0).
Proof.
  intros Hf Hl Hdays a. unfold a.
  rewrite annualized_return_Fin by assumption.
  unfold Spec.annualized_return, Spec.total_return, RiskMetrics.days_elapsed.
  destruct (Z.eqb_spec (end_date - start_date) 0) as [H0 | _]; [lia |].
  set (e := 365 / IZR (end_date - start_date)).
  assert (He : 0 < e).
  { apply Rdiv_lt_0_compat; [lra |]. apply IZR_lt. lia. }
  replace (1 + (last_price / first_price - 1) * 100 / 100)
    with (last_price / first_price) by (field; lra).
  assert (Hq : 0 < last_price / first_price)
    by (apply Rdiv_lt_0_compat; assumption).
  assert (Hsame : first_price = last_price ->
                  Rpower (last_price / first_price) e = 1).
  { intros <-. unfold Rdiv. rewrite Rinv_r by lra. apply Rpower_one_base. }
  assert (Hgain : first_price < last_price ->
                  1 < Rpower (last_price / first_price) e).
  { intros Hlt.
    assert (H1 : 1 < last_price / first_price).
    { apply (Rmult_lt_reg_r first_price); [exact Hf |].
      unfold Rdiv. rewrite Rmult_assoc, Rinv_l by lra. lra. }
    pose proof (Rlt_Rpower_l 1 (last_price / first_price) e He
                  (conj Rlt_0_1 H1)) as Hp.
    rewrite Rpower_one_base in Hp. exact Hp. }
  assert (Hloss : last_price < first_price ->
                  Rpower (last_price / first_price) e < 1).
  { intros Hlt.
    assert (H1 : last_price / first_price < 1).
    { apply (Rmult_lt_reg_r first_price); [exact Hf |].
      unfold Rdiv. rewrite Rmult_assoc, Rinv_l by lra. lra. }
    pose proof (Rlt_Rpower_l (last_price / first_price) 1 e He
                  (conj Hq H1)) as Hp.
    rewrite Rpower_one_base in Hp. exact Hp. }
  split; [| split].
  - intros Hle. apply fltb_Fin_false.
    destruct (Rle_lt_or_eq_dec _ _ Hle) as [Hlt | Heq].
    + specialize (Hgain Hlt). lra.
    + rewrite (Hsame Heq). lra.
  - intros Hle. apply fltb_Fin_false.
    destruct (Rle_lt_or_eq_dec _ _ Hle) as [Hlt | Heq].
    + specialize (Hloss Hlt). lra.
    + rewrite (Hsame (eq_sym Heq)). lra.
  - intros Heq. rewrite (Hsame Heq). f_equal. ring.
Qed.

Lemma annualized_return_sign_witness :
  fltb (Fin 0) (RiskMetrics.annualized_return (Fin 100) (Fin 90) 0 365)
  = false.
Proof.
  refine (proj1 (proj2 (annualized_return_sign 100 90 0 365 _ _ _)) _);
    try lra. lia.
Defined.

End ReturnSign.

(** ** The risk table and the assets it lists *)

Section RiskTableRows.
Import Series RiskMetrics Describe.

Lemma metrics_row_asset (column : string) (values : Series)
    (rf : float) (s e : Z) :
  match metrics_row column values rf s e with
  | Some row => has_value (column, values) = true /\ Asset row = column
  | None => has_value (column, values) = false
  end.
Proof.
  unfold metrics_row, has_value. cbn [snd].
  destruct (dropna values) as [|x t]; [reflexivity |].
  cbn [iloc_first hd_error iloc_last Series.empty negb Asset].
  split; reflexivity.
Qed.

Lemma results_assets (data_df : list (string * Series)) (rf : float)
    (s e : Z) :
  map Asset (results data_df rf s e) = map fst (filter has_value data_df).
Proof.
  induction data_df as [|[column values] rest IH]; [reflexivity |].
  cbn [results filter].
  pose proof (metrics_row_asset column values rf s e) as H.
  destruct (metrics_row column values rf s e) as [row |].
  - destruct H as [-> Hrow]. cbn [map fst]. rewrite Hrow, IH. reflexivity.
  - rewrite H. exact IH.
Qed.

(** X8.  The table lists exactly the assets that have at least one value:
    when there is one, the page ends with a table whose asset names
    are those of the columns with a value, each once per column. *)
Theorem risk_table_lists_assets_with_data
    (selected_assets : list string) (data_df : list (string * Series))
    (risk_free_rate_input : R) (start_date end_date : Z) :
  selected_assets <> [] -> frame_empty data_df = false ->
  filter has_value data_df <> [] ->
  exists table,
    page selected_assets data_df risk_free_rate_input start_date end_date
    = Done table
    /\ Permutation (map Asset table) (map fst (filter has_value data_df))
    /\ length table = length (filter has_value data_df).
Proof.
  intros Hsel Hframe Hsome. unfold page.
  destruct selected_assets as [|a sel]; [congruence |].
  cbn [length Nat.ltb Nat.leb]. rewrite Hframe.
  set (rf := (Fin risk_free_rate_input / Fin 100)%fl).
  pose proof (results_assets data_df rf start_date end_date) as Hnames.
  set (rows := results data_df rf start_date end_date) in *.
  exists (nargsort_descending Sharpe_Sort rows).
  destruct (nargsort_descending_spec Row Sharpe_Sort rows)
    as [sorted (_ & Hperm & _)].
  split; [| split].
  - unfold results_df. destruct rows; [| reflexivity].
    cbn [map] in Hnames. destruct (filter has_value data_df);
      [congruence | discriminate].
  - rewrite <- Hnames. apply Permutation_map. exact Hperm.
  - rewrite (Permutation_length Hperm).
    rewrite <- (length_map Asset rows), Hnames. apply length_map.
Qed.

Lemma risk_table_lists_assets_with_data_witness :
  exists table,
    page ["Gold (Commodity)"%string]
         [("Gold (Commodity)"%string, [Fin 100; NaN; Fin 101])] 4 0 365
    = Done table
    /\ Permutation (map Asset table)
         (map fst (filter has_value
                     [("Gold (Commodity)"%string, [Fin 100; NaN; Fin 101])]))
    /\ length table
       = length (filter has_value
                   [("Gold (Commodity)"%string, [Fin 100; NaN; Fin 101])]).
Proof.
  apply (risk_table_lists_assets_with_data ["Gold (Commodity)"%string]
           [("Gold (Commodity)"%string, [Fin 100; NaN; Fin 101])] 4 0 365);
    [discriminate | reflexivity | cbn; discriminate].
Defined.

Lemma dropna_all_nan (s : Series) :
  Forall (fun x => is_nan x = true) s -> dropna s = [].
Proof.
  unfold dropna. induction 1 as [|x t Hx _ IH]; [reflexivity |].
  cbn [filter]. rewrite Hx. exact IH.
Qed.

(** X9.  When the fetched frame has rows but no column holds a value, no
    row is built and sorting the empty table raises [KeyError]: the
    page does not stop with a message. *)
Theorem risk_table_without_data_raises
    (selected_assets : list string) (data_df : list (string * Series))
    (risk_free_rate_input : R) (start_date end_date : Z) :
  selected_assets <> [] -> frame_empty data_df = false ->
  Forall (fun c => Forall (fun x => is_nan x = true) (snd c)) data_df ->
  page selected_assets data_df risk_free_rate_input start_date end_date
  = Raised "KeyError: 'Sharpe_Sort'".
Proof.
  intros Hsel Hframe Hnan. unfold page.
  destruct selected_assets as [|a sel]; [congruence |].
  cbn [length Nat.ltb Nat.leb]. rewrite Hframe.
  set (rf := (Fin risk_free_rate_input / Fin 100)%fl).
  pose proof (results_assets data_df rf start_date end_date) as Hnames.
  assert (Hnone : filter has_value data_df = []).
  { clear - Hnan. induction Hnan as [|[name values] rest Hc _ IH];
      [reflexivity |].
    cbn [filter snd] in *. rewrite IH. unfold has_value. cbn [snd].
    rewrite (dropna_all_nan values Hc). reflexivity. }
  rewrite Hnone in Hnames.
  destruct (results data_df rf start_date end_date); [reflexivity |].
  discriminate.
Qed.

Lemma risk_table_without_data_raises_witness :
  page ["Gold (Commodity)"%string]
       [("Gold (Commodity)"%string, [NaN; NaN])] 4 0 365
  = Raised "KeyError: 'Sharpe_Sort'".
Proof.
  apply (risk_table_without_data_raises ["Gold (Commodity)"%string]
           [("Gold (Commodity)"%string, [NaN; NaN])] 4 0 365);
    [discriminate | reflexivity | repeat constructor].
Defined.

End RiskTableRows.

(** ** The ticker table and the names of the downloaded columns *)

Section TickerNames.
Import Tickers.

Lemma dict_get_set_same (k v : string) (d : Dict) :
  dict_get k (dict_set k v d) = Some v.
Proof.
  unfold dict_get. induction d as [|[k0 v0] t IH]; cbn [dict_set find fst].
  - rewrite String.eqb_refl. reflexivity.
  - destruct (String.eqb k k0) eqn:E; cbn [find fst].
    + rewrite String.eqb_refl. reflexivity.
    + rewrite E. exact IH.
Qed.

Lemma dict_get_set_other (k k' v : string) (d : Dict) :
  k <> k' -> dict_get k' (dict_set k v d) = dict_get k' d.
Proof.
  intros Hne. unfold dict_get.
  assert (Hk : String.eqb k' k = false)
    by (apply String.eqb_neq; congruence).
  induction d as [|[k0 v0] t IH]; cbn [dict_set find fst].
  - rewrite Hk. reflexivity.
  - destruct (String.eqb k k0) eqn:E; cbn [find fst].
    + apply String.eqb_eq in E. subst k0. rewrite Hk. reflexivity.
    + destruct (String.eqb k' k0); [reflexivity | exact IH].
Qed.

Lemma dict_get_In (k v : string) (d : Dict) :
  dict_get k d = Some v -> In (k, v) d.
Proof.
  unfold dict_get. intros H.
  destruct (find (fun kv => String.eqb k (fst kv)) d) as [[k0 v0] |] eqn:E;
    [| discriminate].
  apply find_some in E. destruct E as [Hin Heq].
  cbn in Heq, H. apply String.eqb_eq in Heq. subst k0.
  injection H as <-. exact Hin.
Qed.

Lemma name_map_fold_absent (rest m : Dict) (v : string) :
  ~ In v (map snd rest) ->
  dict_get v (fold_left (fun m kv => dict_set (snd kv) (fst kv) m) rest m)
  = dict_get v m.
Proof.
  revert m. induction rest as [|[k0 v0] t IH]; intros m Hnot; [reflexivity |].
  cbn [fold_left fst snd]. cbn [map snd In] in Hnot.
  rewrite IH by tauto.
  apply dict_get_set_other. intros ->. tauto.
Qed.

Lemma name_map_fold_present (tickers m : Dict) (k v : string) :
  NoDup (map snd tickers) -> In (k, v) tickers ->
  dict_get v (fold_left (fun m kv => dict_set (snd kv) (fst kv) m) tickers m)
  = Some k.
Proof.
  revert m. induction tickers as [|[k0 v0] t IH]; intros m Hnd Hin;
    [contradiction |].
  cbn [map snd] in Hnd. inversion Hnd as [|? ? Hnot Hnd']; subst.
  cbn [fold_left fst snd]. destruct Hin as [Heq | Hin].
  - injection Heq as -> ->.
    rewrite name_map_fold_absent by exact Hnot.
    apply dict_get_set_same.
  - apply IH; assumption.
Qed.

(** X10.  Inverting the table gives back the names.  When no two assets
    share a symbol, renaming with [name_map] turns the symbol of
    every asset into its name, the list of all symbols into the list
    of all names, and leaves any other label as it is. *)
Theorem ticker_names_round_trip (tickers : Dict) :
  NoDup (map snd tickers) ->
  (forall k v, In (k, v) tickers -> rename (name_map tickers) v = k)
  /\ map (rename (name_map tickers)) (map snd tickers) = map fst tickers
  /\ (forall label, ~ In label (map snd tickers) ->
                    rename (name_map tickers) label = label).
Proof.
  intros Hnd.
  assert (H1 : forall k v, In (k, v) tickers ->
                           rename (name_map tickers) v = k).
  { intros k v Hin. unfold rename, name_map.
    rewrite (name_map_fold_present tickers [] k v Hnd Hin). reflexivity. }
  split; [exact H1 |]. split.
  - rewrite map_map. apply map_ext_in. intros [k v] Hin. cbn [fst snd].
    apply H1. exact Hin.
  - intros label Hnot. unfold rename, name_map.
    rewrite name_map_fold_absent by exact Hnot. reflexivity.
Qed.

Lemma TICKERS_symbols_distinct : NoDup (map snd TICKERS).
Proof.
  cbn. repeat constructor; cbn; intuition discriminate.
Qed.

Lemma ticker_names_round_trip_witness :
  map (rename (name_map TICKERS)) (map snd TICKERS) = map fst TICKERS.
Proof.
  exact (proj1 (proj2 (ticker_names_round_trip TICKERS
                         TICKERS_symbols_distinct))).
Defined.

Lemma dict_set_fresh (k v : string) (d : Dict) :
  ~ In k (map fst d) -> dict_set k v d = d ++ [(k, v)].
Proof.
  induction d as [|[k0 v0] t IH]; intros Hnot; [reflexivity |].
  cbn [dict_set map fst In app] in *.
  destruct (String.eqb_spec k k0) as [-> | _]; [tauto |].
  rewrite IH by tauto. reflexivity.
Qed.

Lemma filtered_tickers_from_fresh (selected : list string) (acc : Dict) :
  Forall (fun k => In k (map fst TICKERS)) selected ->
  NoDup selected ->
  (forall k, In k selected -> ~ In k (map fst acc)) ->
  exists d,
    filtered_tickers_from acc selected = Done (acc ++ d)
    /\ map fst d = selected
    /\ Forall (fun kv => dict_get (fst kv) TICKERS = Some (snd kv)) d.
Proof.
  revert acc. induction selected as [|k rest IH]; intros acc Hin Hnd Hfresh.
  - exists []. rewrite app_nil_r. repeat split. constructor.
  - inversion Hin as [|? ? Hk Hrest]; subst.
    inversion Hnd as [|? ? Hnotin Hnd']; subst.
    cbn [filtered_tickers_from].
    destruct (dict_get k TICKERS) as [v |] eqn:Eget.
    + rewrite dict_set_fresh by (apply Hfresh; left; reflexivity).
      destruct (IH (acc ++ [(k, v)]) Hrest Hnd') as (d & Hd & Hfst & Hall).
      { intros k' Hk'. rewrite map_app, in_app_iff. cbn [map fst In].
        intros [H | [H | []]].
        - apply (Hfresh k'); [right; exact Hk' | exact H].
        - subst k'. contradiction. }
      exists ((k, v) :: d). rewrite <- app_assoc in Hd. cbn [app] in Hd.
      split; [exact Hd |]. split; [cbn [map fst]; f_equal; exact Hfst |].
      constructor; [exact Eget | exact Hall].
    + exfalso. unfold dict_get in Eget.
      destruct (find (fun kv => String.eqb k (fst kv)) TICKERS) eqn:Ef;
        [discriminate |].
      apply in_map_iff in Hk. destruct Hk as [[k0 v0] [Hk0 Hin0]].
      cbn in Hk0. subst k0.
      pose proof (find_none _ _ Ef _ Hin0) as Hno. cbn in Hno.
      rewrite String.eqb_refl in Hno. discriminate.
Qed.

Lemma filtered_tickers_from_missing (selected : list string) (acc : Dict) :
  (exists k, In k selected /\ ~ In k (map fst TICKERS)) ->
  filtered_tickers_from acc selected = Raised "KeyError".
Proof.
  revert acc. induction selected as [|k rest IH]; intros acc [k' [Hin Hnot]];
    [contradiction |].
  cbn [filtered_tickers_from].
  destruct (dict_get k TICKERS) as [v |] eqn:Eget; [| reflexivity].
  apply IH. destruct Hin as [<- | Hin].
  - exfalso. apply Hnot. apply dict_get_In in Eget.
    apply (in_map fst) in Eget. exact Eget.
  - exists k'. split; assumption.
Qed.

Lemma ticker_symbol_names (k k' v : string) :
  In (k, v) TICKERS -> In (k', v) TICKERS -> k = k'.
Proof.
  intros H H'.
  pose proof (name_map_fold_present TICKERS [] k v
                TICKERS_symbols_distinct H) as E.
  pose proof (name_map_fold_present TICKERS [] k' v
                TICKERS_symbols_distinct H') as E'.
  congruence.
Qed.

Lemma symbols_distinct_of_names (d : Dict) :
  NoDup (map fst d) ->
  Forall (fun kv => dict_get (fst kv) TICKERS = Some (snd kv)) d ->
  NoDup (map snd d).
Proof.
  intros Hnd Hall. induction d as [|[k v] t IH]; [constructor |].
  cbn [map fst snd] in *.
  inversion Hnd as [|? ? Hnot Hnd']; subst.
  inversion Hall as [|? ? Hkv Hall']; subst. cbn [fst snd] in Hkv.
  constructor; [| apply IH; assumption].
  intros Hin. apply in_map_iff in Hin. destruct Hin as [[k' v'] [Hv Hin']].
  cbn in Hv. subst v'.
  rewrite Forall_forall in Hall'. specialize (Hall' _ Hin'). cbn in Hall'.
  apply Hnot. apply in_map_iff. exists (k', v). split; [| exact Hin'].
  cbn. apply dict_get_In in Hkv. apply dict_get_In in Hall'.
  destruct (ticker_symbol_names k' k v Hall' Hkv). reflexivity.
Qed.

Lemma rename_symbols (tickers : Dict) :
  NoDup (map snd tickers) ->
  map (rename (name_map tickers)) (map snd tickers) = map fst tickers.
Proof.
  intros Hnd. rewrite map_map. apply map_ext_in. intros [k v] Hin.
  cbn [fst snd]. unfold rename, name_map.
  rewrite (name_map_fold_present tickers [] k v Hnd Hin). reflexivity.
Qed.

(** X11.  The dictionary of the selected assets.  For a selection of
    distinct names of the table it holds these names in the order of
    the selection, each with its symbol, and renaming the symbols
    gives the selection back; a name that is not in the table raises
    [KeyError]. *)
Theorem selected_tickers_resolve (selected_assets : list string) :
  (Forall (fun k => In k (map fst TICKERS)) selected_assets ->
   NoDup selected_assets ->
   exists tickers,
     filtered_tickers selected_assets = Done tickers
     /\ map fst tickers = selected_assets
     /\ (forall k v, In (k, v) tickers -> In (k, v) TICKERS)
     /\ map (rename (name_map tickers)) (map snd tickers) = selected_assets)
  /\ ((exists k, In k selected_assets /\ ~ In k (map fst TICKERS)) ->
      filtered_tickers selected_assets = Raised "KeyError").
Proof.
  split; [| apply filtered_tickers_from_missing].
  intros Hin Hnd.
  destruct (filtered_tickers_from_fresh selected_assets [] Hin Hnd)
    as (d & Hd & Hfst & Hall); [intros k _ [] |].
  exists d. cbn [app] in Hd. split; [exact Hd |]. split; [exact Hfst |].
  split.
  - intros k v Hkv. rewrite Forall_forall in Hall.
    specialize (Hall _ Hkv). cbn in Hall. apply dict_get_In. exact Hall.
  - rewrite rename_symbols; [exact Hfst |].
    apply symbols_distinct_of_names; [rewrite Hfst; exact Hnd | exact Hall].
Qed.

Lemma selected_tickers_resolve_witness :
  exists tickers,
    filtered_tickers ["Tesla (Stock)"; "Gold (Commodity)"]%string
    = Done tickers
    /\ map fst tickers = ["Tesla (Stock)"; "Gold (Commodity)"]%string
    /\ (forall k v, In (k, v) tickers -> In (k, v) TICKERS)
    /\ map (rename (name_map tickers)) (map snd tickers)
       = ["Tesla (Stock)"; "Gold (Commodity)"]%string.
Proof.
  apply (proj1 (selected_tickers_resolve
                  ["Tesla (Stock)"; "Gold (Commodity)"]%string)).
  - repeat constructor; cbn; tauto.
  - repeat constructor; cbn; intuition discriminate.
Defined.

End TickerNames.

(** ** Downloads that fail or bring nothing *)

Section Downloads.
Import Tickers MarketData.

Lemma filtered_tickers_from_done (selected : list string) (acc : Dict) :
  Forall (fun k => In k (map fst TICKERS)) selected ->
  exists d, filtered_tickers_from acc selected = Done d.
Proof.
  revert acc. induction selected as [|k rest IH]; intros acc Hin.
  - exists acc. reflexivity.
  - inversion Hin as [|? ? Hk Hrest]; subst. cbn [filtered_tickers_from].
    destruct (dict_get k TICKERS) as [v |] eqn:Eget; [apply IH; exact Hrest |].
    exfalso. unfold dict_get in Eget.
    destruct (find (fun kv => String.eqb k (fst kv)) TICKERS) eqn:Ef;
      [discriminate |].
    apply in_map_iff in Hk. destruct Hk as [[k0 v0] [Hk0 Hin0]].
    cbn in Hk0. subst k0.
    pose proof (find_none _ _ Ef _ Hin0) as Hno. cbn in Hno.
    rewrite String.eqb_refl in Hno. discriminate.
Qed.

(** X12.  A download that raises, returns no data, or returns a frame with
    neither an "Adj Close" nor a "Close" field never crashes a page:
    the risk page stops with its message, and so does the main
    dashboard when its download raises or is empty. *)
Theorem failed_download_stops_pages
    (yf_multi : list string -> Z -> Z -> Outcome RawFrame)
    (yf_single : string -> Z -> Z -> Outcome Columns)
    (selected_assets : list string) (ticker : string)
    (risk_free_rate_input : R) (start_date end_date : Z)
    (window_ma : nat) :
  selected_assets <> [] ->
  Forall (fun k => In k (map fst TICKERS)) selected_assets ->
  ((forall symbols data,
       yf_multi symbols start_date end_date = Done data ->
       raw_empty data = true
       \/ (has_field "Adj Close" data = false
           /\ has_field "Close" data = false)) ->
   risk_metrics_page yf_multi selected_assets risk_free_rate_input
     start_date end_date
   = Stopped "Could not fetch data for the selected assets.")
  /\ ((start_date < end_date)%Z ->
      (forall data, yf_single ticker start_date end_date = Done data ->
                    RiskMetrics.frame_empty data = true) ->
      Dashboard.page start_date end_date
        (get_historical_data yf_single ticker start_date end_date) window_ma
      = Stopped
          "Could not fetch data for the selected asset in the specified range.").
Proof.
  intros Hsel Hin. split.
  - intros Hfail. unfold risk_metrics_page.
    destruct selected_assets as [|a sel]; [congruence |].
    cbn [length Nat.ltb Nat.leb].
    destruct (filtered_tickers_from_done (a :: sel) [] Hin) as [d Hd].
    unfold filtered_tickers. rewrite Hd.
    assert (Hempty : get_multiple_adj_close_data yf_multi d start_date end_date
                     = []).
    { unfold get_multiple_adj_close_data.
      destruct (yf_multi (map snd d) start_date end_date) as [data | |] eqn:E;
        try reflexivity.
      destruct (Hfail _ _ E) as [-> | [-> ->]]; [reflexivity |].
      destruct (raw_empty data); reflexivity. }
    rewrite Hempty. reflexivity.
  - intros Hdates Hfail. unfold Dashboard.page.
    destruct (Z.leb_spec end_date start_date) as [H | _]; [lia |].
    unfold get_historical_data.
    destruct (yf_single ticker start_date end_date) as [data | |] eqn:E;
      try reflexivity.
    rewrite (Hfail data eq_refl). reflexivity.
Qed.

Lemma failed_download_stops_pages_witness :
  risk_metrics_page (fun _ _ _ => Raised "ConnectionError")
    ["Tesla (Stock)"%string] 4 0 365
  = Stopped "Could not fetch data for the selected assets.".
Proof.
  refine (proj1 (failed_download_stops_pages
                   (fun _ _ _ => Raised "ConnectionError")
                   (fun _ _ _ => Raised "ConnectionError")
                   ["Tesla (Stock)"%string] "TSLA" 4 0 365 50 _ _) _).
  - discriminate.
  - constructor; [cbn; tauto | constructor].
  - intros symbols data H. discriminate.
Defined.

Lemma select_field_labels (field : string) (data : RawFrame) :
  map fst (select_field field data)
  = map (fun c => snd (fst c))
        (filter (fun c => String.eqb field (fst (fst c))) data).
Proof. unfold select_field. rewrite map_map. reflexivity. Qed.

(** X13.  What the pages receive from a download that has data.  The
    values are those of the "Adj Close" field when the frame has one,
    whatever "Close" holds, and those of "Close" otherwise; and when
    the frame has one column per selected asset, in the order of the
    selection, the columns come back under the names of the assets. *)
Theorem downloaded_columns_carry_asset_names
    (yf_download : list string -> Z -> Z -> Outcome RawFrame)
    (tickers : Dict) (start_date end_date : Z) (data : RawFrame) :
  NoDup (map snd tickers) ->
  yf_download (map snd tickers) start_date end_date = Done data ->
  raw_empty data = false ->
  let field := if has_field "Adj Close" data then "Adj Close"%string
               else "Close"%string in
  let fetched :=
    get_multiple_adj_close_data yf_download tickers start_date end_date in
  has_field field data = true ->
  map snd fetched = map snd (select_field field data)
  /\ (map fst (select_field field data) = map snd tickers ->
      map fst fetched = map fst tickers).
Proof.
  intros Hnd Hdl Hne field fetched Hfield.
  assert (Hfetched : fetched
                     = rename_columns (name_map tickers)
                         (select_field field data)).
  { unfold fetched, get_multiple_adj_close_data, field in *.
    rewrite Hdl, Hne.
    destruct (has_field "Adj Close" data); [reflexivity |].
    rewrite Hfield. reflexivity. }
  rewrite Hfetched. unfold rename_columns. split.
  - rewrite map_map. reflexivity.
  - intros Hlabels. rewrite map_map. cbn [fst].
    rewrite <- (map_map fst (rename (name_map tickers))), Hlabels.
    apply rename_symbols. exact Hnd.
Qed.

Lemma downloaded_columns_carry_asset_names_witness :
  let data : RawFrame :=
    [ (("Close", "TSLA"), [Fin 200; Fin 210]);
      (("Close", "GC=F"), [Fin 1900; Fin 1905]);
      (("Volume", "TSLA"), [Fin 5; Fin 6]) ]%string in
  let tickers : Dict :=
    [("Tesla (Stock)", "TSLA"); ("Gold (Commodity)", "GC=F")]%string in
  map fst (get_multiple_adj_close_data (fun _ _ _ => Done data) tickers 0 365)
  = ["Tesla (Stock)"; "Gold (Commodity)"]%string.
Proof.
  intros data tickers.
  assert (Hnd : NoDup (map snd tickers)).
  { cbn. repeat constructor; cbn; intuition discriminate. }
  exact (proj2 (downloaded_columns_carry_asset_names
                  (fun _ _ _ => Done data) tickers 0 365 data
                  Hnd eq_refl eq_refl eq_refl) eq_refl).
Defined.

End Downloads.

(** ** The moving average of the main page *)

Section MovingAverage.
Import Series Rolling.


Lemma window_at_length (window i : nat) (values : Series) :
  (i < length values)%nat ->
  length (window_at window i values) = Nat.min window (i + 1).
Proof.
  intros Hi. unfold window_at. rewrite length_firstn, length_skipn. lia.
Qed.

Lemma count_le_length (s : Series) : (count s <= length s)%nat.
Proof. unfold count, dropna. apply filter_length_le. Qed.

Lemma count_lt_length (s : Series) : In NaN s -> (count s < length s)%nat.
Proof.
  unfold count, dropna. induction s as [|x t IH]; intros Hin; [contradiction |].
  cbn [filter length]. destruct Hin as [-> | Hin].
  - cbn [is_nan negb].
    pose proof (filter_length_le (fun x => negb (is_nan x)) t). lia.
  - specialize (IH Hin).
    destruct (negb (is_nan x)); cbn [length]; lia.
Qed.

Lemma nth_window_at (window i k : nat) (values : Series) :
  (i < length values)%nat -> (k < Nat.min window (i + 1))%nat ->
  nth k (window_at window i values) NaN
  = nth (i + 1 - window + k) values NaN.
Proof.
  intros Hi Hk. unfold window_at.
  rewrite nth_firstn.
  destruct (Nat.ltb_spec k (i + 1 - (i + 1 - window))) as [_ | H]; [| lia].
  apply nth_skipn.
Qed.

Lemma nth_prep_values (j : nat) (s : Series) :
  nth j (prep_values s) NaN
  = if is_finite (nth j s NaN) then nth j s NaN else NaN.
Proof.
  unfold prep_values.
  exact (map_nth (fun x => if is_finite x then x else NaN) s NaN j).
Qed.

Lemma all_finite_map_Fin (l : list float) :
  Forall (fun x => is_finite x = true) l -> exists r, l = map Fin r.
Proof.
  induction 1 as [|x t Hx _ [r ->]]; [exists []; reflexivity |].
  destruct x as [v | | |]; try discriminate.
  exists (v :: r). reflexivity.
Qed.

Lemma pow_10_ge (n : nat) : (3 <= n)%nat -> 1000 <= 10 ^ n.
Proof.
  intros Hn. replace 1000 with (10 ^ 3) by (simpl; lra).
  apply Rle_pow; [lra | exact Hn].
Qed.

(** X14.  The moving-average line has one point per row.  A point is
    missing when fewer than [window] rows are there for it, and when
    one of the [window] rows it covers holds a missing or an infinite
    price.  A point whose [window] rows all hold numbers is a number
    (for a window of at most 1000 rows and prices of at most 1e300 in
    magnitude). *)
Theorem moving_average_line (window : nat) (s : Series) :
  length (rolling_mean window s) = length s
  /\ (forall i, (i + 1 < window)%nat ->
                nth i (rolling_mean window s) NaN = NaN)
  /\ (forall i j, (i < length s)%nat ->
                  (i + 1 - window <= j)%nat -> (j <= i)%nat ->
                  is_finite (nth j s NaN) = false ->
                  nth i (rolling_mean window s) NaN = NaN)
  /\ (forall i, (1 <= window)%nat -> (window <= 1000)%nat ->
                (window <= i + 1)%nat -> (i < length s)%nat ->
                Forall (Describe.at_most (10 ^ 300)) s ->
                (forall j, (i + 1 - window <= j)%nat -> (j <= i)%nat ->
                           is_finite (nth j s NaN) = true) ->
                is_finite (nth i (rolling_mean window s) NaN) = true).
Proof.
  assert (Hlenp : length (prep_values s) = length s)
    by (unfold prep_values; apply length_map).
  split; [| split; [| split]].
  - unfold rolling_mean. rewrite length_map, length_seq. reflexivity.
  - intros i Hi. unfold rolling_mean.
    destruct (Nat.lt_ge_cases i (length s)) as [Hlt | Hge].
    + rewrite nth_map_seq by exact Hlt. unfold roll_mean_at.
      pose proof (count_le_length (window_at window i (prep_values s))) as Hc.
      rewrite window_at_length in Hc by (rewrite Hlenp; exact Hlt).
      destruct (Nat.leb_spec window
                  (count (window_at window i (prep_values s)))); [lia |].
      reflexivity.
    + apply nth_overflow. rewrite length_map, length_seq. exact Hge.
  - intros i j Hi Hlo Hhi Hj. unfold rolling_mean.
    rewrite nth_map_seq by exact Hi. unfold roll_mean_at.
    set (win := window_at window i (prep_values s)).
    assert (Hwl : length win = Nat.min window (i + 1))
      by (apply window_at_length; rewrite Hlenp; exact Hi).
    assert (Hw : window <> 0%nat) by lia.
    assert (Hin : In NaN win).
    { assert (Hk : (j - (i + 1 - window) < length win)%nat) by lia.
      pose proof (nth_In win NaN Hk) as Hnth.
      unfold win in Hnth at 1.
      rewrite nth_window_at in Hnth by (try rewrite Hlenp; lia).
      replace (i + 1 - window + (j - (i + 1 - window)))%nat with j in Hnth
        by lia.
      rewrite nth_prep_values, Hj in Hnth. exact Hnth. }
    pose proof (count_lt_length win Hin) as Hc.
    destruct (Nat.leb_spec window (count win)); [lia | reflexivity].
  - intros i Hw1 _ Hwi Hi _ Hfin. unfold rolling_mean.
    rewrite nth_map_seq by exact Hi. unfold roll_mean_at.
    set (win := window_at window i (prep_values s)).
    assert (Hwl : length win = window).
    { unfold win. rewrite window_at_length by (rewrite Hlenp; exact Hi). lia. }
    assert (Hall : Forall (fun x => is_finite x = true) win).
    { apply Forall_forall. intros x Hx.
      destruct (In_nth win x NaN Hx) as [k [Hk <-]].
      unfold win. rewrite nth_window_at by (try rewrite Hlenp; lia).
      rewrite nth_prep_values.
      rewrite (Hfin (i + 1 - window + k)%nat) by lia.
      apply Hfin; lia. }
    destruct (all_finite_map_Fin win Hall) as [r Hr].
    rewrite Hr in *. rewrite length_map in Hwl.
    rewrite count_map_Fin, sum_map_Fin, Hwl.
    destruct (Nat.leb_spec window window); [| lia].
    destruct (Nat.ltb_spec 0 window); [| lia].
    cbn [andb]. rewrite fdiv_Fin by (apply not_0_INR; lia). reflexivity.
Qed.

Lemma moving_average_line_witness :
  is_finite (nth 2 (rolling_mean 2 (map Fin [10; 12; 14])) NaN) = true.
Proof.
  refine (proj2 (proj2 (proj2 (moving_average_line 2 (map Fin [10; 12; 14]))))
            2%nat _ _ _ _ _ _).
  - lia.
  - lia.
  - lia.
  - simpl. lia.
  - pose proof (pow_10_ge 300 ltac:(lia)) as Hbig.
    repeat constructor; unfold Describe.at_most;
      rewrite Rabs_pos_eq by lra; lra.
  - intros [|[|[|j]]] H1 H2; try reflexivity; lia.
Defined.

End MovingAverage.

(** ** The main dashboard *)

Section MainDashboard.
Import Series MarketData Dashboard.

Lemma total_return_Fin (p0 : R) (rest : list R) :
  p0 <> 0 ->
  App.total_return (map Fin (p0 :: rest))
  = Some (Fin ((last rest p0 / p0 - 1) * 100)).
Proof.
  intros Hp0. unfold App.total_return.
  cbn [map iloc_first hd_error iloc_last].
  rewrite last_map_Fin, fdiv_Fin by exact Hp0. reflexivity.
Qed.

Lemma max_drawdown_bounds (prices : list R) :
  Forall (fun p => 0 < p) prices -> (2 <= length prices)%nat ->
  -100 < Spec.max_drawdown prices /\ Spec.max_drawdown prices <= 0.
Proof.
  intros Hpos Hlen.
  destruct (max_drawdown_characterised prices Hpos Hlen) as [Hle _].
  split; [| exact Hle].
  unfold Spec.max_drawdown.
  assert (Hc : Forall (fun c => 0 < c) (Spec.cumulative (Spec.returns prices))).
  { destruct prices as [|p t]; [constructor |].
    apply cumulative_from_pos; [lra | exact Hpos]. }
  destruct (peak_bounds _ Hc) as [Hp _].
  assert (Hab := ratio_minus_one_above _ _ Hc Hp).
  fold (Spec.drawdown (Spec.returns prices)) in Hab.
  assert (Hne : Spec.drawdown (Spec.returns prices) <> []).
  { intros Hnil. apply (f_equal (@length R)) in Hnil.
    unfold Spec.drawdown in Hnil.
    rewrite ratio_minus_one_length in Hnil by apply peak_length.
    unfold Spec.cumulative in Hnil.
    rewrite cumulative_from_length, returns_length in Hnil.
    simpl in Hnil. lia. }
  pose proof (minimum_above _ (-1) Hne Hab). lra.
Qed.

(** X15.  With the dates in order and a frame that holds the four chart
    columns and at least two positive prices within a factor 1000 of
    each other, the page runs to its end.  The cards then show a
    total return above -100, a volatility that is not negative, a
    drawdown in [(-100, 0]] and the last price; the figures come from
    "Adj Close" when the frame has that column and from "Close"
    otherwise, while the moving average always follows "Close", one
    point per row. *)
Theorem dashboard_cards
    (start_date end_date : Z) (data_df : Columns) (window_ma : nat)
    (prices : list R) (close : Series) :
  (start_date < end_date)%Z ->
  RiskMetrics.frame_empty data_df = false ->
  column (if has_column "Adj Close" data_df then "Adj Close" else "Close")
         data_df = Some (map Fin prices) ->
  column "Close" data_df = Some close ->
  column "Open" data_df <> None ->
  column "High" data_df <> None ->
  column "Low" data_df <> None ->
  Describe.within_factor 1000 prices -> (2 <= length prices)%nat ->
  exists d t v m,
    page start_date end_date data_df window_ma = Done d
    /\ total_return d = Fin t /\ -100 < t
    /\ annualized_volatility d = Fin v /\ 0 <= v
    /\ max_dd d = Fin m /\ -100 < m <= 0
    /\ final_price d = Fin (last prices 0)
    /\ MA d = Rolling.rolling_mean window_ma close
    /\ length (MA d) = length close.
Proof.
  intros Hdates Hframe Hprice Hclose Hopen Hhigh Hlow Hrange Hlen.
  pose proof (within_factor_pos _ _ Hrange) as Hpos.
  destruct prices as [|p0 rest]; [simpl in Hlen; lia |].
  inversion Hpos as [|? ? Hp0 Hrest]; subst.
  assert (Hnz : Forall (fun p => p <> 0) (p0 :: rest)).
  { eapply Forall_impl; [| exact Hpos]. intros p Hp. simpl in Hp. lra. }
  unfold page.
  destruct (Z.leb_spec end_date start_date) as [H | _]; [lia |].
  rewrite Hframe, Hprice.
  rewrite total_return_Fin by lra.
  change (iloc_last (map Fin (p0 :: rest)))
    with (Some (last (map Fin rest) (Fin p0))).
  rewrite Hclose.
  destruct (column "Open" data_df); [| congruence].
  destruct (column "High" data_df); [| congruence].
  destruct (column "Low" data_df); [| congruence].
  assert (Hvol := app_volatility_Fin (p0 :: rest) Hnz Hlen).
  assert (Hmdd := max_drawdown_Fin (p0 :: rest) Hpos Hlen).
  change (RiskMetrics.calculate_max_drawdown (map Fin (p0 :: rest)))
    with (App.calculate_max_drawdown (map Fin (p0 :: rest))) in Hmdd.
  eexists. exists ((last rest p0 / p0 - 1) * 100),
    (Spec.stddev 0 (Spec.returns (p0 :: rest)) * sqrt 252 * 100),
    (Spec.max_drawdown (p0 :: rest)).
  split; [reflexivity |].
  cbn [total_return annualized_volatility max_dd final_price MA].
  split; [reflexivity |]. split.
  { assert (0 < last rest p0 / p0).
    { apply Rdiv_lt_0_compat; [apply last_positive; assumption | exact Hp0]. }
    lra. }
  split; [exact Hvol |]. split.
  { pose proof (stddev_nonneg 0 (Spec.returns (p0 :: rest))).
    pose proof sqrt_252_pos.
    apply Rmult_le_pos; [apply Rmult_le_pos |]; lra. }
  split; [exact Hmdd |]. split.
  { destruct (max_drawdown_bounds (p0 :: rest) Hpos Hlen). split; assumption. }
  split.
  { rewrite last_map_Fin. f_equal.
    destruct rest as [|q rest']; [reflexivity |].
    change (last (p0 :: q :: rest') 0) with (last (q :: rest') 0).
    clear. revert q. induction rest' as [|r t IH]; intros q; [reflexivity |].
    change (last (q :: r :: t) p0) with (last (r :: t) p0).
    change (last (q :: r :: t) 0) with (last (r :: t) 0). apply IH. }
  split; [reflexivity |].
  unfold Rolling.rolling_mean. rewrite length_map, length_seq. reflexivity.
Qed.

Lemma dashboard_cards_witness :
  let data_df : Columns :=
    [ ("Open", [Fin 99; Fin 101; Fin 104]);
      ("High", [Fin 102; Fin 106; Fin 105]);
      ("Low", [Fin 98; Fin 100; Fin 101]);
      ("Close", [Fin 100; Fin 105; Fin 102]) ]%string in
  exists d t v m,
    page 0 30 data_df 2 = Done d
    /\ total_return d = Fin t /\ -100 < t
    /\ annualized_volatility d = Fin v /\ 0 <= v
    /\ max_dd d = Fin m /\ -100 < m <= 0
    /\ final_price d = Fin (last [100; 105; 102] 0)
    /\ MA d = Rolling.rolling_mean 2 [Fin 100; Fin 105; Fin 102]
    /\ length (MA d) = length [Fin 100; Fin 105; Fin 102].
Proof.
  intros data_df.
  apply (dashboard_cards 0 30 data_df 2 [100; 105; 102]
           [Fin 100; Fin 105; Fin 102]);
    try reflexivity; try discriminate; try lia.
  - exists 100. split; [lra |]. repeat constructor; lra.
  - simpl. lia.
Defined.

(** X16.  A frame that lacks one of the columns "Open", "High", "Low" and
    "Close" cannot be charted: with the dates in order and data in
    the frame the page ends in an exception, also when an
    "Adj Close" column would give the four cards. *)
Theorem dashboard_needs_chart_columns
    (start_date end_date : Z) (data_df : Columns) (window_ma : nat) :
  (start_date < end_date)%Z ->
  RiskMetrics.frame_empty data_df = false ->
  column "Close" data_df = None \/ column "Open" data_df = None
  \/ column "High" data_df = None \/ column "Low" data_df = None ->
  exists e, page start_date end_date data_df window_ma = Raised e.
Proof.
  intros Hdates Hframe Hmissing. unfold page.
  destruct (Z.leb_spec end_date start_date) as [H | _]; [lia |].
  rewrite Hframe.
  destruct (column (if has_column "Adj Close" data_df
                    then "Adj Close"%string else "Close"%string) data_df)
    as [close_prices |]; [| eexists; reflexivity].
  destruct (App.total_return close_prices); [| eexists; reflexivity].
  destruct (iloc_last close_prices); [| eexists; reflexivity].
  destruct Hmissing as [-> | [-> | [-> | ->]]];
    repeat match goal with
           | |- context [match column ?l data_df with _ => _ end] =>
               destruct (column l data_df)
           end;
    eexists; reflexivity.
Qed.

Lemma dashboard_needs_chart_columns_witness :
  exists e,
    page 0 30 [("Adj Close"%string, [Fin 100; Fin 105])] 50 = Raised e.
Proof.
  apply (dashboard_needs_chart_columns 0 30
           [("Adj Close"%string, [Fin 100; Fin 105])] 50);
    [lia | reflexivity | left; reflexivity].
Defined.

End MainDashboard.

(** ** Correlations on few rows and for two assets *)

Section FewRows.
Import Frame CorrelationAnalysis.

Lemma nancorr_pair_short (obs : list (R * R)) :
  (length obs <= 1)%nat -> nancorr_pair obs = NaN.
Proof.
  intros Hlen. destruct obs as [|[x y] [|o t]]; [reflexivity | |
    simpl in Hlen; lia].
  unfold nancorr_pair. cbn [length Nat.ltb Nat.leb map fst snd].
  match goal with
  | |- context [Req_dec_T (sqrt ?e) 0] =>
      replace e with 0 by (unfold Rsum; cbn; field)
  end.
  rewrite sqrt_0. destruct (Req_dec_T 0 0); [reflexivity | congruence].
Qed.

Context {I : Type}.

(** X17.  A correlation needs two rows.  A Pearson entry is NaN when its
    two columns are both finite in at most one row, and the Spearman
    frame is all NaN when at most one row has no missing value. *)
Theorem correlation_needs_two_rows (df : DataFrame I) :
  (forall i j,
      (i < length (columns df))%nat -> (j < length (columns df))%nat ->
      (length (filter (both_finite (Nat.max i j) (Nat.min i j))
                      (map snd (rows df))) <= 1)%nat ->
      exists m, calculate_correlation df pearson = Done m
                /\ entry m i j = NaN)
  /\ ((length (rows (dropna df)) <= 1)%nat ->
      calculate_correlation df spearman = Done (all_nan (columns df))).
Proof.
  split.
  - intros i j Hi Hj Hfew. exists (corr_pearson df).
    split; [reflexivity |].
    rewrite corr_pearson_entry by assumption.
    unfold nancorr_entry. apply nancorr_pair_short.
    rewrite pairwise_obs_length. exact Hfew.
  - intros Hfew. unfold calculate_correlation.
    destruct (empty (dropna df)); [reflexivity |].
    unfold spearmanr. rewrite length_map.
    destruct (Nat.leb_spec (length (rows (dropna df))) 1); [| lia].
    reflexivity.
Qed.

(** X18.  With exactly two assets the Spearman frame holds one and the same
    value in its four cells: [spearmanr] returns the coefficient of
    the pair as a single number, and the frame built from it carries
    that number on the diagonal as well. *)
Theorem spearman_two_assets_one_value (df : DataFrame I) :
  length (columns df) = 2%nat ->
  exists v,
    calculate_correlation df spearman = Done (of_scalar v (columns df))
    /\ (v = NaN \/ exists r, v = Fin r /\ -1 <= r <= 1)
    /\ forall i j, (i < 2)%nat -> (j < 2)%nat ->
                   entry (of_scalar v (columns df)) i j = v.
Proof.
  intros Hk.
  assert (Hentry : forall v i j, (i < 2)%nat -> (j < 2)%nat ->
                     entry (of_scalar v (columns df)) i j = v).
  { intros v i j Hi Hj. apply of_scalar_entry; rewrite Hk; assumption. }
  unfold calculate_correlation.
  destruct (empty (dropna df)).
  { exists NaN. split; [reflexivity |]. split; [left; reflexivity |].
    apply Hentry. }
  unfold spearmanr. cbn [columns dropna]. rewrite Hk.
  set (a := map snd (rows (dropna df))).
  destruct (length a <=? 1)%nat.
  { exists NaN. split; [reflexivity |]. split; [left; reflexivity |].
    apply Hentry. }
  cbn [Nat.ltb Nat.leb Nat.eqb].
  destruct (is_constant (map (cell 0) a) || is_constant (map (cell 1) a)).
  { exists NaN. split; [reflexivity |]. split; [left; reflexivity |].
    apply Hentry. }
  eexists. split; [reflexivity |]. split; [| apply Hentry].
  cbn [seq map corrcoef nth cell]. apply corrcoef_entry_range.
Qed.

End FewRows.

Lemma correlation_needs_two_rows_witness :
  CorrelationAnalysis.calculate_correlation
    (Frame.mkDataFrame ["A"; "B"]%string
       [(1%Z, [Fin 1; NaN]); (2%Z, [Fin 2; Fin 5]); (3%Z, [NaN; Fin 7])])
    CorrelationAnalysis.spearman
  = Done (Frame.all_nan ["A"; "B"]%string).
Proof.
  refine (proj2 (correlation_needs_two_rows
                   (Frame.mkDataFrame ["A"; "B"]%string
                      [(1%Z, [Fin 1; NaN]); (2%Z, [Fin 2; Fin 5]);
                       (3%Z, [NaN; Fin 7])])) _).
  simpl. lia.
Defined.

Lemma spearman_two_assets_one_value_witness :
  exists v,
    CorrelationAnalysis.calculate_correlation SampleFrames.two_assets
      CorrelationAnalysis.spearman
    = Done (Frame.of_scalar v ["A"; "B"]%string)
    /\ (v = NaN \/ exists r, v = Fin r /\ -1 <= r <= 1)
    /\ forall i j, (i < 2)%nat -> (j < 2)%nat ->
                   Frame.entry (Frame.of_scalar v ["A"; "B"]%string) i j = v.
Proof.
  apply (spearman_two_assets_one_value SampleFrames.two_assets).
  reflexivity.
Defined.

(** ** Frames whose columns go through a function *)

Section MappedColumns.
Import Frame CorrelationAnalysis Transform.

Lemma nth_map_row_from (f : nat -> R -> R) (j i : nat) (cells : list float) :
  nth i (map_row_from f j cells) NaN = lift (f (j + i)%nat) (nth i cells NaN).
Proof.
  revert j i. induction cells as [|x t IH]; intros j i.
  - destruct i; reflexivity.
  - destruct i as [|i]; cbn [map_row_from nth].
    + rewrite Nat.add_0_r. reflexivity.
    + rewrite IH. f_equal. f_equal. lia.
Qed.

Lemma cell_map_row (f : nat -> R -> R) (j : nat) (cells : list float) :
  cell j (map_row_from f 0 cells) = lift (f j) (cell j cells).
Proof. unfold cell. apply nth_map_row_from. Qed.

Context {I : Type}.

Lemma rows_map_columns (f : nat -> R -> R) (df : DataFrame I) :
  map snd (rows (map_columns f df))
  = map (map_row_from f 0) (map snd (rows df)).
Proof.
  unfold map_columns. cbn [rows]. rewrite !map_map. reflexivity.
Qed.

End MappedColumns.

Section SpearmanRanks.
Import Frame CorrelationAnalysis Transform Describe.

Lemma lift_is_nan (g : R -> R) (x : float) : is_nan (lift g x) = is_nan x.
Proof. destruct x; reflexivity. Qed.

Lemma fltb_lift (g : R -> R) (x y : float) :
  increasing g -> fltb (lift g x) (lift g y) = fltb x y.
Proof.
  intros Hg. destruct x as [a | | |], y as [b | | |]; try reflexivity.
  cbn [lift fltb].
  destruct (Rlt_dec a b) as [Hab | Hab], (Rlt_dec (g a) (g b)) as [Hg' | Hg'];
    try reflexivity.
  - exfalso. apply Hg'. apply Hg. exact Hab.
  - exfalso. destruct (Rtotal_order a b) as [H | [H | H]].
    + contradiction.
    + subst b. lra.
    + pose proof (Hg _ _ H). lra.
Qed.

Lemma feqb_lift (g : R -> R) (x y : float) :
  increasing g -> feqb (lift g x) (lift g y) = feqb x y.
Proof.
  intros Hg. destruct x as [a | | |], y as [b | | |]; try reflexivity.
  cbn [lift feqb].
  destruct (Req_dec_T a b) as [Hab | Hab], (Req_dec_T (g a) (g b))
    as [Hg' | Hg']; try reflexivity.
  - exfalso. apply Hg'. rewrite Hab. reflexivity.
  - exfalso. destruct (Rtotal_order a b) as [H | [H | H]].
    + pose proof (Hg _ _ H). lra.
    + contradiction.
    + pose proof (Hg _ _ H). lra.
Qed.

Lemma filter_map_length {A B : Type} (p : B -> bool) (h : A -> B)
    (l : list A) :
  length (filter p (map h l)) = length (filter (fun x => p (h x)) l).
Proof.
  induction l as [|x t IH]; [reflexivity |].
  cbn [map filter]. destruct (p (h x)); cbn [length]; rewrite IH; reflexivity.
Qed.

Lemma rankdata_lift (g : R -> R) (col : list float) :
  increasing g -> rankdata (map (lift g) col) = rankdata col.
Proof.
  intros Hg. unfold rankdata. rewrite map_map. apply map_ext. intros x.
  unfold rank_of. rewrite !filter_map_length.
  rewrite (filter_ext (fun y => fltb (lift g y) (lift g x))
                      (fun y => fltb y x))
    by (intros y; apply fltb_lift; exact Hg).
  rewrite (filter_ext (fun y => feqb (lift g y) (lift g x))
                      (fun y => feqb y x))
    by (intros y; apply feqb_lift; exact Hg).
  reflexivity.
Qed.

Lemma is_constant_lift (g : R -> R) (col : list float) :
  increasing g -> is_constant (map (lift g) col) = is_constant col.
Proof.
  intros Hg. destruct col as [|x t]; [reflexivity |].
  unfold is_constant. cbn [map].
  change (lift g x :: map (lift g) t) with (map (lift g) (x :: t)).
  generalize (x :: t). intros l.
  induction l as [|y l IH]; [reflexivity |].
  cbn [map forallb]. rewrite IH, feqb_lift by exact Hg. reflexivity.
Qed.

Lemma complete_map_row (f : nat -> R -> R) (j : nat) (cells : list float) :
  complete (map_row_from f j cells) = complete cells.
Proof.
  unfold complete. revert j. induction cells as [|x t IH]; intros j;
    [reflexivity |].
  cbn [map_row_from forallb]. rewrite lift_is_nan, IH. reflexivity.
Qed.

Lemma column_of_mapped_rows (f : nat -> R -> R) (j : nat)
    (a : list (list float)) :
  map (cell j) (map (map_row_from f 0) a) = map (lift (f j)) (map (cell j) a).
Proof.
  rewrite !map_map. apply map_ext. intros cells. apply cell_map_row.
Qed.

Lemma spearmanr_map_rows (f : nat -> R -> R) (n_vars : nat)
    (a : list (list float)) :
  (forall j, increasing (f j)) ->
  spearmanr n_vars (map (map_row_from f 0) a) = spearmanr n_vars a.
Proof.
  intros Hf. unfold spearmanr. rewrite length_map.
  rewrite !column_of_mapped_rows, !is_constant_lift by apply Hf.
  rewrite (map_ext (fun j => rankdata (map (cell j) (map (map_row_from f 0) a)))
                   (fun j => rankdata (map (cell j) a))).
  - reflexivity.
  - intros j. rewrite column_of_mapped_rows. apply rankdata_lift. apply Hf.
Qed.

Context {I : Type}.

Lemma dropna_map_columns (f : nat -> R -> R) (df : DataFrame I) :
  dropna (map_columns f df) = map_columns f (dropna df).
Proof.
  unfold dropna, map_columns. cbn [columns rows]. f_equal.
  induction (rows df) as [|r t IH]; [reflexivity |].
  cbn [map filter snd]. rewrite complete_map_row.
  destruct (complete (snd r)); cbn [map]; rewrite IH; reflexivity.
Qed.

Lemma empty_map_columns (f : nat -> R -> R) (df : DataFrame I) :
  empty (map_columns f df) = empty df.
Proof.
  unfold empty, map_columns. cbn [columns rows].
  destruct (columns df); [reflexivity |].
  destruct (rows df); reflexivity.
Qed.

(** X21.  The Spearman matrix sees the data through their ranks: passing
    every column through its own strictly increasing function (a
    change of unit, a logarithm, ...) leaves the whole result
    unchanged. *)
Theorem spearman_rank_invariant (f : nat -> R -> R) (df : DataFrame I) :
  (forall j, increasing (f j)) ->
  calculate_correlation (map_columns f df) spearman
  = calculate_correlation df spearman.
Proof.
  intros Hf. unfold calculate_correlation.
  rewrite dropna_map_columns, empty_map_columns.
  destruct (empty (dropna df)); [reflexivity |].
  rewrite rows_map_columns. cbn [columns map_columns].
  rewrite spearmanr_map_rows by exact Hf. reflexivity.
Qed.

End SpearmanRanks.

Lemma spearman_rank_invariant_witness :
  CorrelationAnalysis.calculate_correlation
    (Transform.map_columns (fun j x => 3 * x - 7) SampleFrames.gap_in_third)
    CorrelationAnalysis.spearman
  = CorrelationAnalysis.calculate_correlation SampleFrames.gap_in_third
      CorrelationAnalysis.spearman.
Proof.
  apply (spearman_rank_invariant (fun _ x => 3 * x - 7)
           SampleFrames.gap_in_third).
  intros j x y H. lra.
Defined.
